(** * EyeLearn-Env: the real-time gateway of the eye tracking services

    A shallow embedding of [python_services/web_stream_service.py] and
    [python_services/fastapi_service.py]:

    - [Limiter]: the token bucket [WebSocketLimiter] of
      [web_stream_service.py] on exact rationals; [Rounding], the same
      bucket with every operation rounded to binary64; [Binary64], the
      same bucket on the hardware's floats;
    - [Registry]: [ConnectionManager] of [fastapi_service.py] (connect,
      disconnect, broadcast), the pass of [broadcast] alone and with the
      other handlers that unregister while it awaits a send;
    - [Frame]: JSON values, images and the effects of frame ingestion;
    - [WebStream]: [decode_frame], [process_frame], [ingest_frame] and
      [websocket_frames] of [web_stream_service.py];
    - [FastApi]: [receive_browser_frame] of [fastapi_service.py];
    - [Base64]: [base64.b64decode] as Python runs it;
    - [Gateway]: what the two ingestion paths guarantee together;
    - [Lifecycle] and [Teardown]: the [lifespan] context manager of
      [fastapi_service.py];
    - [RateBound] and [Admission]: the limiter over a session and the
      WebSocket handler with sends that can fail;
    - [Subscribers]: the broadcast pass and [websocket_endpoint];
    - [Outcomes]: what the two ingestion handlers return and raise;
    - [Origins]: [_normalize_origins] and the CORS settings;
    - [Conversion]: [convert_numpy_types];
    - [Control]: the tracking endpoints and the countdown.

    Conventions.  In [Limiter] Python's [float] seconds and allowances
    are read as exact rationals ([Q]): its properties are about the order
    and clamp logic of the bucket.  [Rounding] rounds the result of each
    operation to the nearest binary64 number, ties to even, and [Binary64]
    runs the same steps on primitive floats.  A read of a clock is an
    argument of the function that performs it.  Calls into FastAPI, cv2,
    base64 and [EyeTrackingService] are section variables or arguments;
    every effect a property speaks about is recorded in a trace of events
    returned next to the result.  A coroutine runs to its next [await]
    before another one runs; where a property depends on what the other
    coroutines do meanwhile ([broadcast]), their steps are an argument of
    the model. *)

From Stdlib Require Import List ZArith QArith Qminmax Qround Lqa Lia Bool String Ascii
  DecimalString.
From Stdlib Require Import Floats.
From Stdlib Require Uint63.
Import ListNotations.

Set Implicit Arguments.

(* ================================================================== *)
(** ** The token bucket of [web_stream_service.py] *)
(* ================================================================== *)

Module Limiter.

Local Open Scope Q_scope.

(** [a < b] on rationals as a boolean, the test of Python's [if a < b]. *)
Definition Qlt_bool (a b : Q) : bool := negb (Qle_bool b a).

Lemma Qlt_bool_iff (a b : Q) : Qlt_bool a b = true <-> a < b.
Proof.
  unfold Qlt_bool. rewrite negb_true_iff.
  split; intro H.
  - apply Qnot_le_lt. intro Hle. apply Qle_bool_iff in Hle. congruence.
  - destruct (Qle_bool b a) eqn:E; [|reflexivity].
    apply Qle_bool_iff in E. exfalso. apply (Qlt_not_le _ _ H E).
Qed.

Lemma Qlt_bool_false_iff (a b : Q) : Qlt_bool a b = false <-> b <= a.
Proof.
  unfold Qlt_bool. rewrite negb_false_iff. apply Qle_bool_iff.
Qed.

(** [class WebSocketLimiter]: the attributes set by [__init__]. *)
Record WebSocketLimiter : Type := mkLimiter {
  max_fps : Z;
  allowance : Q;
  last_check : Q
}.

(** [__init__(self, max_fps)]; [now] is the value of [time.monotonic()]. *)
Definition init (max_fps : Z) (now : Q) : WebSocketLimiter :=
  {| max_fps := max_fps; allowance := inject_Z max_fps; last_check := now |}.

(** [consume(self)]; [current] is the value of [time.monotonic()].  The
    result pairs the returned boolean with the limiter after the call. *)
Definition consume (current : Q) (self : WebSocketLimiter)
  : bool * WebSocketLimiter :=
  let time_passed := current - last_check self in
  let a := allowance self + time_passed * inject_Z (max_fps self) in
  let a := if Qlt_bool (inject_Z (max_fps self)) a
           then inject_Z (max_fps self) else a in
  if Qlt_bool a 1
  then (false, {| max_fps := max_fps self; allowance := a;
                  last_check := current |})
  else (true, {| max_fps := max_fps self; allowance := a - 1;
                 last_check := current |}).

(** The limiter after a sequence of calls, one clock reading per call,
    with the boolean each call returned (oldest first). *)
Fixpoint run (clock : list Q) (self : WebSocketLimiter)
  : list bool * WebSocketLimiter :=
  match clock with
  | [] => ([], self)
  | t :: clock' =>
      let (r, self') := consume t self in
      let (rs, self'') := run clock' self' in
      (r :: rs, self'')
  end.

(** A monotonic clock never runs backwards: every reading is at least the
    previous one, the first at least [t0]. *)
Fixpoint monotonic (t0 : Q) (clock : list Q) : Prop :=
  match clock with
  | [] => True
  | t :: clock' => t0 <= t /\ monotonic t clock'
  end.

(** The contract of [consume()] in the words of the specification: add
    [elapsed * max_rate], clamp to [max_rate], then allow and take one
    token when at least one is left, deny otherwise. *)
Definition consume_spec (current : Q) (self : WebSocketLimiter)
  : bool * WebSocketLimiter :=
  let elapsed := current - last_check self in
  let max_rate := inject_Z (max_fps self) in
  let accumulated := Qmin (allowance self + elapsed * max_rate) max_rate in
  if Qle_bool 1 accumulated
  then (true, {| max_fps := max_fps self; allowance := accumulated - 1;
                 last_check := current |})
  else (false, {| max_fps := max_fps self; allowance := accumulated;
                  last_check := current |}).

(** The limiters reached after each call of a run, oldest first. *)
Fixpoint states (clock : list Q) (self : WebSocketLimiter)
  : list WebSocketLimiter :=
  match clock with
  | [] => []
  | t :: clock' =>
      let self' := snd (consume t self) in
      self' :: states clock' self'
  end.

(** The bucket invariant: [0 <= allowance <= max_fps]. *)
Definition within_budget (self : WebSocketLimiter) : Prop :=
  0 <= allowance self /\ allowance self <= inject_Z (max_fps self).

(** *** Unfolding [consume] *)

Lemma consume_max_fps current self :
  max_fps (snd (consume current self)) = max_fps self.
Proof.
  unfold consume.
  destruct (Qlt_bool _ 1); reflexivity.
Qed.

Lemma consume_last_check current self :
  last_check (snd (consume current self)) = current.
Proof.
  unfold consume.
  destruct (Qlt_bool _ 1); reflexivity.
Qed.

Lemma Qmin_clamp (a m : Q) :
  (if Qlt_bool m a then m else a) = Qmin a m.
Proof.
  unfold Qlt_bool, Qle_bool, Qmin, GenericMinMax.gmin, Qcompare, Z.leb.
  destruct (Qnum a * QDen m ?= Qnum m * QDen a)%Z; reflexivity.
Qed.

Lemma consume_eq_spec current self :
  consume current self = consume_spec current self.
Proof.
  unfold consume, consume_spec.
  rewrite Qmin_clamp.
  unfold Qlt_bool.
  destruct (Qle_bool 1 _); reflexivity.
Qed.

Lemma inject_Z_nonneg (z : Z) : (0 <= z)%Z -> 0 <= inject_Z z.
Proof.
  intro H. change 0 with (inject_Z 0). now rewrite <- Zle_Qle.
Qed.

Lemma inject_Z_ge_1 (z : Z) : (1 <= z)%Z -> 1 <= inject_Z z.
Proof.
  intro H. change 1 with (inject_Z 1). now rewrite <- Zle_Qle.
Qed.

(** One call keeps the bucket within its budget when no time is lost. *)
Lemma consume_within_budget current self :
  (0 < max_fps self)%Z ->
  0 <= allowance self ->
  last_check self <= current ->
  within_budget (snd (consume current self)).
Proof.
  intros Hmax Ha Ht.
  assert (Hm : 0 <= inject_Z (max_fps self)) by (apply inject_Z_nonneg; lia).
  assert (Hp : 0 <= (current - last_check self) * inject_Z (max_fps self)).
  { apply Qmult_le_0_compat; [lra | exact Hm]. }
  unfold within_budget, consume.
  set (p := (current - last_check self) * inject_Z (max_fps self)) in *.
  destruct (Qlt_bool (inject_Z (max_fps self)) (allowance self + p)) eqn:Eclamp.
  - destruct (Qlt_bool (inject_Z (max_fps self)) 1) eqn:E1; cbn.
    + split; lra.
    + apply Qlt_bool_false_iff in E1. split; lra.
  - apply Qlt_bool_false_iff in Eclamp.
    destruct (Qlt_bool (allowance self + p) 1) eqn:E1; cbn.
    + split; lra.
    + apply Qlt_bool_false_iff in E1. split; lra.
Qed.

Lemma states_within_budget clock : forall self,
  (0 < max_fps self)%Z ->
  0 <= allowance self ->
  monotonic (last_check self) clock ->
  Forall within_budget (states clock self).
Proof.
  induction clock as [|t clock IH]; intros self Hmax Ha Hmono; cbn.
  - constructor.
  - destruct Hmono as [Ht Hmono].
    pose proof (consume_within_budget self Hmax Ha Ht) as Hb.
    constructor; [exact Hb|].
    apply IH.
    + now rewrite consume_max_fps.
    + apply Hb.
    + now rewrite consume_last_check.
Qed.

(** *** Bursts and refills *)

Lemma run_app clock1 : forall clock2 self,
  run (clock1 ++ clock2) self =
  (fst (run clock1 self) ++ fst (run clock2 (snd (run clock1 self))),
   snd (run clock2 (snd (run clock1 self)))).
Proof.
  induction clock1 as [|t clock1 IH]; intros clock2 self; cbn.
  - now destruct (run clock2 self).
  - destruct (consume t self) as [r self'].
    rewrite IH.
    destruct (run clock1 self') as [rs self'']; cbn.
    reflexivity.
Qed.

Lemma last_cons_default (A : Type) (l : list A) : forall x d,
  last (x :: l) d = last l x.
Proof.
  induction l as [|y l IH]; intros x d; [reflexivity|].
  change (last (x :: y :: l) d) with (last (y :: l) d).
  now rewrite !IH.
Qed.

Lemma run_last_state clock : forall self,
  snd (run clock self) = last (states clock self) self.
Proof.
  induction clock as [|t clock IH]; intros self; [reflexivity|].
  cbn [run states]. rewrite last_cons_default, <- IH.
  destruct (consume t self) as [r self']; cbn [snd].
  now destruct (run clock self').
Qed.

(** With [k] whole tokens in the bucket and no time passing, [k] calls in
    a row are allowed and leave the bucket empty. *)
Lemma burst_allowed clock : forall self (k : nat),
  List.length clock = k ->
  Forall (fun t => t == last_check self) clock ->
  allowance self == inject_Z (Z.of_nat k) ->
  (Z.of_nat k <= max_fps self)%Z ->
  fst (run clock self) = repeat true k /\
  allowance (snd (run clock self)) == 0 /\
  last_check (snd (run clock self)) == last_check self /\
  max_fps (snd (run clock self)) = max_fps self.
Proof.
  induction clock as [|t clock IH]; intros self k Hlen Hnow Ha Hk; cbn in Hlen; subst k.
  - cbn. repeat split; try reflexivity. exact Ha.
  - inversion Hnow as [|? ? Ht Hnow']; subst.
    assert (Hstep : consume t self =
              (true, {| max_fps := max_fps self;
                        allowance := allowance self
                                     + (t - last_check self) * inject_Z (max_fps self) - 1;
                        last_check := t |})).
    { unfold consume.
      assert (Hacc : allowance self + (t - last_check self) * inject_Z (max_fps self)
                     == inject_Z (Z.of_nat (S (List.length clock)))).
      { rewrite Ha, Ht. ring. }
      assert (Hle : inject_Z (Z.of_nat (S (List.length clock))) <= inject_Z (max_fps self))
        by now rewrite <- Zle_Qle.
      assert (H1 : 1 <= inject_Z (Z.of_nat (S (List.length clock))))
        by (apply inject_Z_ge_1; lia).
      destruct (Qlt_bool (inject_Z (max_fps self)) _) eqn:Eclamp.
      - apply Qlt_bool_iff in Eclamp. lra.
      - destruct (Qlt_bool _ 1) eqn:E1; [|reflexivity].
        apply Qlt_bool_iff in E1. lra. }
    cbn [run]. rewrite Hstep.
    specialize (IH {| max_fps := max_fps self;
                      allowance := allowance self
                                   + (t - last_check self) * inject_Z (max_fps self) - 1;
                      last_check := t |} (List.length clock) eq_refl).
    cbn [last_check allowance max_fps] in IH.
    destruct IH as (Hrs & Hzero & Hlast & Hmax).
    + eapply Forall_impl; [|exact Hnow'].
      cbn. intros u Hu. now rewrite Hu, Ht.
    + rewrite Ha, Ht. rewrite Nat2Z.inj_succ. unfold Z.succ. rewrite inject_Z_plus. ring.
    + lia.
    + destruct (run clock _) as [rs self'']; cbn in *.
      repeat split.
      * now rewrite Hrs.
      * exact Hzero.
      * now rewrite Hlast.
      * exact Hmax.
Qed.

(** A call on an empty bucket with no time passing is denied. *)
Lemma empty_bucket_denies t self :
  t == last_check self ->
  allowance self == 0 ->
  (1 <= max_fps self)%Z ->
  fst (consume t self) = false.
Proof.
  intros Ht Ha Hmax.
  pose proof (inject_Z_ge_1 Hmax) as Hm.
  unfold consume.
  assert (Hacc : allowance self + (t - last_check self) * inject_Z (max_fps self) == 0).
  { rewrite Ha, Ht. ring. }
  destruct (Qlt_bool (inject_Z (max_fps self)) _) eqn:Eclamp.
  - apply Qlt_bool_iff in Eclamp. lra.
  - destruct (Qlt_bool _ 1) eqn:E1; [reflexivity|].
    apply Qlt_bool_false_iff in E1. lra.
Qed.

(** After a denial, one token's worth of time is enough for the next call. *)
Lemma refill_allows t1 t2 self :
  (1 <= max_fps self)%Z ->
  0 <= allowance self ->
  last_check self <= t1 ->
  fst (consume t1 self) = false ->
  t1 + 1 / inject_Z (max_fps self) <= t2 ->
  fst (consume t2 (snd (consume t1 self))) = true.
Proof.
  intros Hmax Ha Ht1 Hdeny Ht2.
  pose proof (inject_Z_ge_1 Hmax) as Hm.
  assert (Hb : within_budget (snd (consume t1 self)))
    by (apply consume_within_budget; [lia | assumption | assumption]).
  destruct Hb as [Hb0 Hb1].
  pose proof (consume_max_fps t1 self) as Emax.
  pose proof (consume_last_check t1 self) as Elast.
  destruct (consume t1 self) as [r self1]; cbn in *. subst r.
  unfold consume. rewrite Emax, Elast.
  assert (Hp : 1 <= (t2 - t1) * inject_Z (max_fps self)).
  { assert (Hinv : 1 / inject_Z (max_fps self) * inject_Z (max_fps self) == 1)
      by (field; lra).
    rewrite <- Hinv.
    apply Qmult_le_compat_r; lra. }
  set (p := (t2 - t1) * inject_Z (max_fps self)) in *.
  destruct (Qlt_bool (inject_Z (max_fps self)) (allowance self1 + p)) eqn:Eclamp.
  - destruct (Qlt_bool (inject_Z (max_fps self)) 1) eqn:E1; [|reflexivity].
    apply Qlt_bool_iff in E1. lra.
  - destruct (Qlt_bool (allowance self1 + p) 1) eqn:E1; [|reflexivity].
    apply Qlt_bool_iff in E1. lra.
Qed.

Lemma monotonic_app clock1 : forall t0 clock2,
  monotonic t0 (clock1 ++ clock2) ->
  monotonic t0 clock1 /\ monotonic (last clock1 t0) clock2.
Proof.
  induction clock1 as [|t clock1 IH]; intros t0 clock2 H.
  - split; [exact I | exact H].
  - destruct H as [Ht H]. apply IH in H. destruct H as [H1 H2].
    rewrite last_cons_default.
    split; [split; assumption | exact H2].
Qed.

Lemma states_last_check clock : forall self,
  last_check (last (states clock self) self) = last clock (last_check self).
Proof.
  induction clock as [|t clock IH]; intros self; [reflexivity|].
  cbn [states]. rewrite !last_cons_default, IH.
  now rewrite consume_last_check.
Qed.

Lemma run_within_budget clock : forall self,
  (0 < max_fps self)%Z ->
  within_budget self ->
  monotonic (last_check self) clock ->
  within_budget (snd (run clock self)) /\
  max_fps (snd (run clock self)) = max_fps self.
Proof.
  induction clock as [|t clock IH]; intros self Hmax Hb Hmono.
  - split; [exact Hb | reflexivity].
  - destruct Hmono as [Ht Hmono].
    pose proof (consume_within_budget self Hmax (proj1 Hb) Ht) as Hb'.
    pose proof (consume_max_fps t self) as Emax.
    pose proof (consume_last_check t self) as Elast.
    cbn [run].
    destruct (consume t self) as [r self']; cbn [snd] in *.
    specialize (IH self').
    destruct (run clock self') as [rs self'']; cbn [snd] in *.
    rewrite Emax, Elast in IH.
    apply IH; assumption.
Qed.


(** *** The claims about the limiter *)

(** C2.  One call of [consume()] adds [elapsed * max_rate] to the
    allowance and clamps the sum to [max_rate]; when the clamped allowance
    is at least 1 the call allows and the new allowance is the clamped one
    minus exactly 1, otherwise the call denies and the new allowance is
    the clamped one.  The code agrees with the contract written from the
    specification's words on every limiter and clock reading. *)
Theorem consume_contract (current : Q) (self : WebSocketLimiter) :
  let max_rate := inject_Z (max_fps self) in
  let elapsed := current - last_check self in
  let accumulated := Qmin (allowance self + elapsed * max_rate) max_rate in
  consume current self = consume_spec current self /\
  accumulated <= max_rate /\
  (1 <= accumulated ->
   consume current self =
   (true, mkLimiter (max_fps self) (accumulated - 1) current)) /\
  (accumulated < 1 ->
   consume current self =
   (false, mkLimiter (max_fps self) accumulated current)).
Proof.
  intros max_rate elapsed accumulated.
  split; [apply consume_eq_spec|].
  split; [apply Q.le_min_r|].
  rewrite consume_eq_spec. unfold consume_spec.
  fold max_rate elapsed accumulated.
  split; intro H.
  - apply Qle_bool_iff in H. now rewrite H.
  - destruct (Qle_bool 1 accumulated) eqn:E; [|reflexivity].
    apply Qle_bool_iff in E. exfalso. apply (Qlt_not_le _ _ H E).
Qed.


(** Closed comparisons of rationals, by cross multiplication. *)
Ltac Qclosed := unfold Qle, Qlt, Qeq; cbn; lia.


End Limiter.

(* ================================================================== *)
(** ** The token bucket on binary64 numbers *)
(* ================================================================== *)

(** Python's [float] is IEEE 754 binary64: every operation returns the
    exact result rounded to the nearest number with a 53-bit significand,
    ties to even.  [Rounding] has that rounding on rationals and the
    bucket of [WebSocketLimiter] with each operation rounded. *)
Module Rounding.

Import Limiter.
Local Open Scope Q_scope.

(** *** Rounding to the nearest integer, ties to even *)

Definition rne (z : Q) : Z :=
  let f := Qfloor z in
  match Qcompare (z - inject_Z f) (1 # 2) with
  | Lt => f
  | Gt => (f + 1)%Z
  | Eq => if Z.even f then f else (f + 1)%Z
  end.

(** *** Rounding to binary64 *)

(** The least positive binary64 number is [2^-1074]: every binary64
    number is an integer multiple of it. *)
Definition scale : Z := 2 ^ 1074.

(** The exponent of the unit in the last place of a number whose
    multiple of [2^-1074] has integer part [f]: 53 significant bits, and
    no less than [2^-1074] itself (the subnormal numbers). *)
Definition shift (f : Z) : Z := Z.max 0 (Z.log2 f - 52).

(** The nearest binary64 number to [y * 2^-1074], for [0 <= y], as a
    multiple of [2^-1074]. *)
Definition nearest (y : Q) : Z :=
  let s := shift (Qfloor y) in
  (rne (y / inject_Z (2 ^ s)) * 2 ^ s)%Z.

(** The binary64 number nearest to [x], ties to even.  Overflow is left
    out: the seconds of a clock and the allowance of a bucket are far
    below [2^1024]. *)
Definition binary64 (x : Q) : Q :=
  if Qle_bool 0 x
  then inject_Z (nearest (x * inject_Z scale)) / inject_Z scale
  else - (inject_Z (nearest (- x * inject_Z scale)) / inject_Z scale).

Section Bucket.

(** The rounding of the arithmetic. *)
Variable round : Q -> Q.

(** [consume(self)] with each operation rounded; [current] is the value
    of [time.monotonic()].  [max_fps] is an [int]: [float(max_fps)] is
    [max_fps] itself below [2^53], the comparison with it is exact and
    the clamp assigns it. *)
Definition consume (current : Q) (self : WebSocketLimiter)
  : bool * WebSocketLimiter :=
  let time_passed := round (current - last_check self) in
  let a := round (allowance self
                  + round (time_passed * inject_Z (max_fps self))) in
  let a := if Qlt_bool (inject_Z (max_fps self)) a
           then inject_Z (max_fps self) else a in
  if Qlt_bool a 1
  then (false, {| max_fps := max_fps self; allowance := a;
                  last_check := current |})
  else (true, {| max_fps := max_fps self; allowance := round (a - 1);
                 last_check := current |}).

(** The time that [consume] computes as passed since the last call. *)
Definition time_passed (current : Q) (self : WebSocketLimiter) : Q :=
  round (current - last_check self).

Fixpoint run (clock : list Q) (self : WebSocketLimiter)
  : list bool * WebSocketLimiter :=
  match clock with
  | [] => ([], self)
  | t :: clock' =>
      let (r, self') := consume t self in
      let (rs, self'') := run clock' self' in
      (r :: rs, self'')
  end.

End Bucket.

(** *** Properties of the rounding *)

Ltac Qcompare_facts :=
  repeat match goal with
  | E : Qcompare _ _ = Eq |- _ => apply (proj2 (Qeq_alt _ _)) in E
  | E : Qcompare _ _ = Lt |- _ => apply (proj2 (Qlt_alt _ _)) in E
  | E : Qcompare _ _ = Gt |- _ => apply (proj2 (Qgt_alt _ _)) in E
  end.

Lemma rne_bounds z : (Qfloor z <= rne z <= Qfloor z + 1)%Z.
Proof.
  unfold rne. destruct (Qcompare _ _); [destruct (Z.even _)| |]; lia.
Qed.

Lemma rne_Z (k : Z) : rne (inject_Z k) = k.
Proof.
  unfold rne. rewrite Qfloor_Z.
  destruct (Qcompare (inject_Z k - inject_Z k) (1 # 2)) eqn:E;
    [apply (proj2 (Qeq_alt _ _)) in E | reflexivity
    | apply (proj2 (Qgt_alt _ _)) in E]; exfalso; lra.
Qed.

Lemma rne_le (z1 z2 : Q) : z1 <= z2 -> (rne z1 <= rne z2)%Z.
Proof.
  intro Hle.
  pose proof (Qfloor_resp_le _ _ Hle) as Hf.
  destruct (Z.eq_dec (Qfloor z1) (Qfloor z2)) as [Heq|Hne].
  - unfold rne. rewrite <- Heq.
    destruct (Qcompare (z1 - inject_Z (Qfloor z1)) (1 # 2)) eqn:E1;
      destruct (Qcompare (z2 - inject_Z (Qfloor z1)) (1 # 2)) eqn:E2;
      try (destruct (Z.even (Qfloor z1))); try lia; exfalso;
      Qcompare_facts; lra.
  - pose proof (rne_bounds z1). pose proof (rne_bounds z2). lia.
Qed.

Lemma rne_eq (z1 z2 : Q) : z1 == z2 -> rne z1 = rne z2.
Proof.
  intro H. apply Z.le_antisymm; apply rne_le; rewrite H; apply Qle_refl.
Qed.

Lemma pow2_pos (s : Z) : (0 <= s)%Z -> 0 < inject_Z (2 ^ s).
Proof.
  intro Hs. change 0 with (inject_Z 0). rewrite <- Zlt_Qlt.
  apply Z.pow_pos_nonneg; lia.
Qed.

Lemma shift_nonneg f : (0 <= shift f)%Z.
Proof. unfold shift. lia. Qed.

Lemma shift_le f1 f2 : (f1 <= f2)%Z -> (shift f1 <= shift f2)%Z.
Proof.
  intro H. unfold shift. pose proof (Z.log2_le_mono _ _ H). lia.
Qed.

(** Below the next power of two: a number with integer part [f] has at
    most [53 + shift f] bits before the point. *)
Lemma floor_below f : (0 <= f)%Z -> (f + 1 <= 2 ^ (53 + shift f))%Z.
Proof.
  intro Hf. destruct (Z.eq_dec f 0) as [->|Hne].
  - cbn. lia.
  - assert (Hlt : (f < 2 ^ (53 + shift f))%Z).
    { apply Z.log2_lt_pow2; [lia|]. unfold shift. lia. }
    lia.
Qed.

Lemma floor_above f : (0 < shift f)%Z -> (2 ^ (52 + shift f) <= f)%Z.
Proof.
  intro Hs. unfold shift in *.
  assert (Hlog : (52 < Z.log2 f)%Z) by lia.
  assert (Hpos : (0 < f)%Z).
  { destruct (Z_lt_le_dec 0 f) as [H|H]; [exact H|].
    rewrite Z.log2_nonpos in Hlog by exact H. lia. }
  replace (52 + Z.max 0 (Z.log2 f - 52))%Z with (Z.log2 f) by lia.
  now apply Z.log2_spec.
Qed.

Lemma nearest_le (y1 y2 : Q) : 0 <= y1 -> y1 <= y2 -> (nearest y1 <= nearest y2)%Z.
Proof.
  intros H0 Hle. unfold nearest.
  set (f1 := Qfloor y1). set (f2 := Qfloor y2).
  assert (Hf1 : (0 <= f1)%Z).
  { unfold f1. rewrite <- (Qfloor_Z 0). now apply Qfloor_resp_le. }
  assert (Hf : (f1 <= f2)%Z) by (now apply Qfloor_resp_le).
  pose proof (shift_le Hf) as Hs.
  pose proof (shift_nonneg f1) as Hs1.
  destruct (Z.eq_dec (shift f1) (shift f2)) as [Heq|Hne].
  - rewrite <- Heq.
    apply Z.mul_le_mono_nonneg_r; [apply Z.pow_nonneg; lia|].
    apply rne_le. apply Qmult_le_compat_r; [exact Hle|].
    apply Qinv_le_0_compat. apply Qlt_le_weak. now apply pow2_pos.
  - assert (Hlt : (shift f1 + 1 <= shift f2)%Z) by lia.
    apply Z.le_trans with (2 ^ (53 + shift f1))%Z.
    + rewrite Z.pow_add_r by lia.
      apply Z.mul_le_mono_nonneg_r; [apply Z.pow_nonneg; lia|].
      rewrite <- (rne_Z (2 ^ 53)). apply rne_le.
      apply Qle_shift_div_r; [now apply pow2_pos|].
      rewrite <- inject_Z_mult, <- Z.pow_add_r by lia.
      apply Qle_trans with (inject_Z (f1 + 1)).
      * apply Qlt_le_weak. apply Qlt_floor.
      * rewrite <- Zle_Qle. now apply floor_below.
    + apply Z.le_trans with (2 ^ (52 + shift f2))%Z.
      * apply Z.pow_le_mono_r; lia.
      * rewrite Z.pow_add_r by lia.
        apply Z.mul_le_mono_nonneg_r; [apply Z.pow_nonneg; lia|].
        rewrite <- (rne_Z (2 ^ 52)). apply rne_le.
        apply Qle_shift_div_l; [apply pow2_pos; lia|].
        rewrite <- inject_Z_mult, <- Z.pow_add_r by lia.
        apply Qle_trans with (inject_Z f2).
        -- rewrite <- Zle_Qle. apply floor_above. lia.
        -- apply Qfloor_le.
Qed.

Lemma nearest_nonneg (y : Q) : 0 <= y -> (0 <= nearest y)%Z.
Proof.
  intro H. unfold nearest.
  apply Z.mul_nonneg_nonneg; [|apply Z.pow_nonneg; lia].
  rewrite <- (rne_Z 0). apply rne_le.
  apply Qle_shift_div_l; [apply pow2_pos, shift_nonneg|].
  change (inject_Z 0) with 0. rewrite Qmult_0_l. exact H.
Qed.

Lemma scale_pos : 0 < inject_Z scale.
Proof. apply pow2_pos. lia. Qed.

(** Rounding to binary64 keeps the order. *)
Lemma binary64_le (x y : Q) : x <= y -> binary64 x <= binary64 y.
Proof.
  intro Hle. unfold binary64. pose proof scale_pos as Hsc.
  set (c := inject_Z scale) in *. clearbody c.
  assert (Hc : 0 <= c) by lra.
  assert (Hinv : 0 <= / c) by (apply Qinv_le_0_compat; exact Hc).
  assert (Hnn : forall z, 0 <= z -> 0 <= inject_Z (nearest (z * c)) / c).
  { intros z Hz. apply Qle_shift_div_l; [exact Hsc|]. rewrite Qmult_0_l.
    change 0 with (inject_Z 0). rewrite <- Zle_Qle.
    apply nearest_nonneg. now apply Qmult_le_0_compat. }
  destruct (Qle_bool 0 x) eqn:Ex; destruct (Qle_bool 0 y) eqn:Ey.
  - apply Qle_bool_iff in Ex.
    apply Qmult_le_compat_r; [|exact Hinv].
    rewrite <- Zle_Qle. apply nearest_le.
    + now apply Qmult_le_0_compat.
    + now apply Qmult_le_compat_r.
  - exfalso. apply Qle_bool_iff in Ex.
    assert (Hy : ~ 0 <= y) by (rewrite <- Qle_bool_iff; congruence). lra.
  - apply Qle_bool_iff in Ey.
    assert (Hx : ~ 0 <= x) by (rewrite <- Qle_bool_iff; congruence).
    pose proof (Hnn (- x) ltac:(lra)) as H1.
    pose proof (Hnn y Ey) as H2.
    lra.
  - assert (Hx : ~ 0 <= x) by (rewrite <- Qle_bool_iff; congruence).
    assert (Hy : ~ 0 <= y) by (rewrite <- Qle_bool_iff; congruence).
    apply Qopp_le_compat.
    apply Qmult_le_compat_r; [|exact Hinv].
    rewrite <- Zle_Qle. apply nearest_le.
    + apply Qmult_le_0_compat; lra.
    + apply Qmult_le_compat_r; lra.
Qed.

Lemma Qdiv_eq (a b c : Q) : 0 < b -> a == c * b -> a / b == c.
Proof.
  intros Hb H.
  apply Qle_antisym; [apply Qle_shift_div_r | apply Qle_shift_div_l];
    try exact Hb; rewrite H; apply Qle_refl.
Qed.

(** Integers below [2^53] are binary64 numbers. *)
Lemma binary64_int (k : Z) :
  (0 <= k < 2 ^ 53)%Z -> binary64 (inject_Z k) == inject_Z k.
Proof.
  intros [Hk0 Hk]. unfold binary64.
  assert (Hnn : Qle_bool 0 (inject_Z k) = true).
  { apply Qle_bool_iff. change 0 with (inject_Z 0). now rewrite <- Zle_Qle. }
  rewrite Hnn.
  assert (Hnear : nearest (inject_Z k * inject_Z scale) = (k * scale)%Z).
  { unfold nearest.
    assert (Hfloor : Qfloor (inject_Z k * inject_Z scale) = (k * scale)%Z).
    { rewrite <- inject_Z_mult. apply Qfloor_Z. }
    rewrite Hfloor.
    destruct (Z.eq_dec k 0) as [->|Hne].
    - cbn [Z.mul]. unfold shift. cbn [Z.log2 Z.sub Z.max Z.pow Z.compare].
      rewrite (@rne_eq _ (inject_Z 0)); [now rewrite rne_Z|].
      unfold Qeq. cbn. reflexivity.
    - set (l := Z.log2 k).
      assert (Hl : (0 <= l <= 52)%Z).
      { split; [apply Z.log2_nonneg|].
        assert (l < 53)%Z by (apply Z.log2_lt_pow2; lia). lia. }
      assert (Hlog : Z.log2 (k * scale) = (1074 + l)%Z).
      { unfold scale. rewrite Z.log2_mul_pow2 by lia. reflexivity. }
      assert (Hshift : shift (k * scale) = (1022 + l)%Z).
      { unfold shift. rewrite Hlog. lia. }
      rewrite Hshift.
      rewrite (@rne_eq _ (inject_Z (k * 2 ^ (52 - l)))).
      + rewrite rne_Z. unfold scale.
        rewrite <- Z.mul_assoc, <- Z.pow_add_r by lia.
        do 2 f_equal. lia.
      + rewrite <- inject_Z_mult.
        apply Qdiv_eq; [apply pow2_pos; lia|].
        rewrite <- inject_Z_mult. apply inject_Z_injective. unfold scale.
        rewrite <- Z.mul_assoc, <- Z.pow_add_r by lia.
        do 2 f_equal. lia. }
  rewrite Hnear.
  apply Qdiv_eq; [exact scale_pos|].
  now rewrite inject_Z_mult.
Qed.

(** *** Differences that need no rounding *)

(** A binary64 number that is not negative is a multiple [m] of
    [2^-1074] in which [m] is a multiple of its unit in the last place. *)
Lemma binary64_multiple (x : Q) :
  0 <= x -> binary64 x == x ->
  exists m : Z, (0 <= m)%Z /\ x * inject_Z scale == inject_Z m /\
                (2 ^ shift m | m)%Z.
Proof.
  intros Hx Hfix. unfold binary64 in Hfix.
  rewrite (proj2 (Qle_bool_iff 0 x) Hx) in Hfix.
  pose proof scale_pos as Hsc.
  assert (Hm : x * inject_Z scale == inject_Z (nearest (x * inject_Z scale))).
  { rewrite <- Hfix at 1. field. lra. }
  exists (nearest (x * inject_Z scale)).
  split; [apply nearest_nonneg; now apply Qmult_le_0_compat; [|lra]|].
  split; [exact Hm|].
  assert (Hfloor : Qfloor (x * inject_Z scale) = nearest (x * inject_Z scale)).
  { rewrite (Qfloor_comp _ _ Hm). apply Qfloor_Z. }
  unfold nearest at 2. rewrite Hfloor.
  apply Z.divide_factor_r.
Qed.

Lemma multiple_binary64 (m : Z) :
  (0 <= m)%Z -> (2 ^ shift m | m)%Z ->
  binary64 (inject_Z m / inject_Z scale) == inject_Z m / inject_Z scale.
Proof.
  intros Hm [k Hk]. pose proof scale_pos as Hsc.
  assert (Hnn : 0 <= inject_Z m / inject_Z scale).
  { apply Qle_shift_div_l; [exact Hsc|]. rewrite Qmult_0_l.
    change 0 with (inject_Z 0). now rewrite <- Zle_Qle. }
  unfold binary64. rewrite (proj2 (Qle_bool_iff 0 _) Hnn).
  assert (Hy : inject_Z m / inject_Z scale * inject_Z scale == inject_Z m)
    by (field; lra).
  assert (Hnear : nearest (inject_Z m / inject_Z scale * inject_Z scale) = m).
  { unfold nearest. rewrite (Qfloor_comp _ _ Hy), Qfloor_Z.
    rewrite (@rne_eq _ (inject_Z k)).
    - rewrite rne_Z. symmetry. exact Hk.
    - rewrite Hy. apply Qdiv_eq; [apply pow2_pos, shift_nonneg|].
      rewrite <- inject_Z_mult. now rewrite <- Hk. }
  now rewrite Hnear.
Qed.

(** The difference of two binary64 numbers of which the greater is at
    most twice the smaller is a binary64 number: the subtraction is
    exact. *)
Lemma binary64_sub_exact (x y : Q) :
  binary64 x == x -> binary64 y == y ->
  0 <= y -> y <= x -> x <= 2 * y ->
  binary64 (x - y) == x - y.
Proof.
  intros Hfx Hfy Hy Hyx Hx2.
  destruct (@binary64_multiple x ltac:(lra) Hfx) as (mx & Hmx0 & Hmx & Hdx).
  destruct (@binary64_multiple y Hy Hfy) as (my & Hmy0 & Hmy & Hdy).
  pose proof scale_pos as Hsc.
  assert (Hle : (my <= mx)%Z).
  { rewrite Zle_Qle, <- Hmx, <- Hmy. apply Qmult_le_compat_r; lra. }
  assert (Hle2 : (mx <= 2 * my)%Z).
  { rewrite Zle_Qle, inject_Z_mult, <- Hmx, <- Hmy.
    change (inject_Z 2) with 2.
    setoid_replace (2 * (y * inject_Z scale)) with (2 * y * inject_Z scale)
      by ring.
    apply Qmult_le_compat_r; lra. }
  assert (Hd : x - y == inject_Z (mx - my) / inject_Z scale).
  { symmetry. apply Qdiv_eq; [exact Hsc|].
    unfold Z.sub. rewrite inject_Z_plus, inject_Z_opp, <- Hmx, <- Hmy. ring. }
  apply Qeq_trans with (binary64 (inject_Z (mx - my) / inject_Z scale)).
  { apply Qle_antisym; apply binary64_le; rewrite Hd; apply Qle_refl. }
  rewrite Hd. apply multiple_binary64; [lia|].
  assert (Hs1 : (shift (mx - my) <= shift my)%Z) by (apply shift_le; lia).
  assert (Hs2 : (shift my <= shift mx)%Z) by (apply shift_le; lia).
  pose proof (shift_nonneg (mx - my)) as Hs0.
  assert (Hdiv : forall a b c, (0 <= a <= b)%Z -> (2 ^ b | c)%Z -> (2 ^ a | c)%Z).
  { intros a b c Hab [q Hq]. exists (q * 2 ^ (b - a))%Z.
    rewrite Hq, <- Z.mul_assoc, <- Z.pow_add_r by lia. do 2 f_equal. lia. }
  apply Z.divide_sub_r.
  - apply (Hdiv _ (shift mx)); [lia | exact Hdx].
  - apply (Hdiv _ (shift my)); [lia | exact Hdy].
Qed.

(** *** The bucket under a rounding that keeps the order *)

Section Refill.

Variable round : Q -> Q.
Hypothesis round_le : forall x y, x <= y -> round x <= round y.

(** Every integer from 0 to [n] is left as it is. *)
Definition exact_upto (n : Z) : Prop :=
  forall k : Z, (0 <= k <= n)%Z -> round (inject_Z k) == inject_Z k.

Lemma round_eq (x y : Q) : x == y -> round x == round y.
Proof.
  intro H. apply Qle_antisym; apply round_le; rewrite H; apply Qle_refl.
Qed.

Lemma rounded_max_fps current self :
  max_fps (snd (consume round current self)) = max_fps self.
Proof.
  unfold consume. destruct (Qlt_bool _ 1); reflexivity.
Qed.

Lemma rounded_last_check current self :
  last_check (snd (consume round current self)) = current.
Proof.
  unfold consume. destruct (Qlt_bool _ 1); reflexivity.
Qed.

Lemma round_nonneg (n : Z) (x : Q) :
  exact_upto n -> (0 <= n)%Z -> 0 <= x -> 0 <= round x.
Proof.
  intros Hexact Hn Hx.
  rewrite <- (Hexact 0%Z) by lia. now apply round_le.
Qed.

Lemma round_ge_1 (n : Z) (x : Q) :
  exact_upto n -> (1 <= n)%Z -> 1 <= x -> 1 <= round x.
Proof.
  intros Hexact Hn Hx.
  rewrite <- (Hexact 1%Z) by lia. now apply round_le.
Qed.

(** The allowance never goes below zero on a clock that does not run
    backwards. *)
Lemma rounded_consume_nonneg current self :
  exact_upto (max_fps self) -> (1 <= max_fps self)%Z ->
  0 <= allowance self -> last_check self <= current ->
  0 <= allowance (snd (consume round current self)).
Proof.
  intros Hexact Hn Ha Ht. unfold consume.
  set (n := max_fps self) in *.
  assert (Hn0 : (0 <= n)%Z) by lia.
  assert (Hnq : 1 <= inject_Z n).
  { change 1 with (inject_Z 1). now rewrite <- Zle_Qle. }
  assert (Htp : 0 <= round (current - last_check self)).
  { apply (round_nonneg Hexact Hn0). lra. }
  assert (Hrefill : 0 <= round (round (current - last_check self) * inject_Z n)).
  { apply (round_nonneg Hexact Hn0). apply Qmult_le_0_compat; lra. }
  assert (Hsum : 0 <= round (allowance self
                             + round (round (current - last_check self)
                                      * inject_Z n))).
  { apply (round_nonneg Hexact Hn0). lra. }
  set (a := round (allowance self + _)) in *.
  destruct (Qlt_bool (inject_Z n) a) eqn:Eclamp.
  - destruct (Qlt_bool (inject_Z n) 1) eqn:E1; cbn [snd allowance].
    + lra.
    + apply (round_nonneg Hexact Hn0). lra.
  - destruct (Qlt_bool a 1) eqn:E1; cbn [snd allowance]; [exact Hsum|].
    apply Qlt_bool_false_iff in E1.
    apply (round_nonneg Hexact Hn0). lra.
Qed.

Lemma rounded_run_nonneg clock : forall self,
  exact_upto (max_fps self) -> (1 <= max_fps self)%Z ->
  0 <= allowance self -> monotonic (last_check self) clock ->
  0 <= allowance (snd (run round clock self)) /\
  max_fps (snd (run round clock self)) = max_fps self /\
  last_check (snd (run round clock self)) = last clock (last_check self).
Proof.
  induction clock as [|t clock IH]; intros self Hexact Hn Ha Hmono.
  - cbn. auto.
  - destruct Hmono as [Ht Hmono]. cbn [run].
    pose proof (@rounded_consume_nonneg t self Hexact Hn Ha Ht) as Ha'.
    pose proof (rounded_max_fps t self) as Hmax.
    pose proof (rounded_last_check t self) as Hlast.
    destruct (consume round t self) as [r self']. cbn [snd] in *.
    destruct (IH self') as (H1 & H2 & H3).
    + now rewrite Hmax.
    + now rewrite Hmax.
    + exact Ha'.
    + now rewrite Hlast.
    + destruct (run round clock self') as [rs self'']. cbn [snd] in *.
      split; [exact H1|]. split; [congruence|].
      rewrite H3, Hlast. symmetry. apply last_cons_default.
Qed.

(** A call for which the limiter computes at least [1 / max_fps] as the
    time passed is allowed. *)
Lemma rounded_refill_allows current self :
  exact_upto (max_fps self) -> (1 <= max_fps self)%Z ->
  0 <= allowance self ->
  1 / inject_Z (max_fps self) <= time_passed round current self ->
  fst (consume round current self) = true.
Proof.
  intros Hexact Hn Ha Hwait. unfold time_passed in Hwait. unfold consume.
  set (n := max_fps self) in *.
  assert (Hnq : 1 <= inject_Z n).
  { change 1 with (inject_Z 1). now rewrite <- Zle_Qle. }
  set (tp := round (current - last_check self)) in *.
  assert (Hprod : 1 <= tp * inject_Z n).
  { apply Qle_trans with (1 / inject_Z n * inject_Z n).
    - unfold Qdiv. rewrite Qmult_1_l, Qmult_comm, Qmult_inv_r; [lra|].
      intro H0. rewrite H0 in Hnq. lra.
    - apply Qmult_le_compat_r; [exact Hwait | lra]. }
  assert (Hrefill : 1 <= round (tp * inject_Z n))
    by (apply (round_ge_1 Hexact Hn); exact Hprod).
  assert (Hsum : 1 <= round (allowance self + round (tp * inject_Z n)))
    by (apply (round_ge_1 Hexact Hn); lra).
  set (a := round (allowance self + _)) in *.
  destruct (Qlt_bool (inject_Z n) a).
  - destruct (Qlt_bool (inject_Z n) 1) eqn:E1; [|reflexivity].
    apply Qlt_bool_iff in E1. lra.
  - destruct (Qlt_bool a 1) eqn:E1; [|reflexivity].
    apply Qlt_bool_iff in E1. lra.
Qed.

(** One call at the time of the last check, on an allowance that is an
    integer within the budget: no time has passed and nothing is added,
    so the call is allowed exactly when the allowance is not zero. *)
Lemma consume_at_once current self (k : Z) :
  exact_upto (max_fps self) -> (0 <= k <= max_fps self)%Z ->
  allowance self == inject_Z k -> current == last_check self ->
  fst (consume round current self) = (1 <=? k)%Z /\
  allowance (snd (consume round current self))
  == inject_Z (if (1 <=? k)%Z then k - 1 else k).
Proof.
  intros Hexact Hk Ha Ht. unfold consume.
  set (n := max_fps self) in *.
  assert (Hkq : 0 <= inject_Z k /\ inject_Z k <= inject_Z n).
  { split; [change 0 with (inject_Z 0)|]; rewrite <- Zle_Qle; lia. }
  assert (Hzero : round 0 == 0) by (apply (Hexact 0%Z); lia).
  assert (Htp : round (current - last_check self) == 0).
  { rewrite <- Hzero. apply round_eq. lra. }
  assert (Hrefill : round (round (current - last_check self) * inject_Z n) == 0).
  { rewrite <- Hzero. apply round_eq. rewrite Htp. ring. }
  assert (Hsum : round (allowance self
                        + round (round (current - last_check self)
                                 * inject_Z n)) == inject_Z k).
  { rewrite <- (Hexact k Hk). apply round_eq. rewrite Hrefill, Ha. ring. }
  set (a := round (allowance self + _)) in *.
  destruct (Qlt_bool (inject_Z n) a) eqn:Eclamp.
  { apply Qlt_bool_iff in Eclamp. exfalso. lra. }
  destruct (Z.leb_spec 1 k) as [H1|H1].
  - assert (H1q : 1 <= inject_Z k).
    { change 1 with (inject_Z 1). rewrite <- Zle_Qle. exact H1. }
    destruct (Qlt_bool a 1) eqn:E1.
    { apply Qlt_bool_iff in E1. exfalso. lra. }
    cbn [fst snd allowance]. split; [reflexivity|].
    rewrite <- (Hexact (k - 1)%Z) by lia. apply round_eq.
    rewrite Hsum. unfold Zminus. rewrite inject_Z_plus. reflexivity.
  - assert (k = 0%Z) by lia. subst k.
    destruct (Qlt_bool a 1) eqn:E1.
    + cbn [fst snd allowance]. split; [reflexivity | exact Hsum].
    + apply Qlt_bool_false_iff in E1. exfalso.
      change (inject_Z 0) with 0 in Hsum. lra.
Qed.

(** As many calls at once as the allowance holds are all allowed, and
    leave it at zero. *)
Lemma rounded_burst_allowed (t0 : Q) (clock : list Q) : forall self,
  exact_upto (max_fps self) ->
  (Z.of_nat (List.length clock) <= max_fps self)%Z ->
  allowance self == inject_Z (Z.of_nat (List.length clock)) ->
  last_check self == t0 ->
  Forall (fun t => t == t0) clock ->
  fst (run round clock self) = repeat true (List.length clock) /\
  allowance (snd (run round clock self)) == 0 /\
  last_check (snd (run round clock self)) == t0 /\
  max_fps (snd (run round clock self)) = max_fps self.
Proof.
  induction clock as [|t clock IH]; intros self Hexact Hlen Ha Hlast Hnow.
  - cbn. auto.
  - inversion Hnow as [|? ? Ht Hrest]; subst.
    cbn [List.length] in Hlen, Ha. cbn [run].
    destruct (@consume_at_once t self (Z.of_nat (S (List.length clock))))
      as [Hr Ha']; try assumption.
    + lia.
    + rewrite Ht, Hlast. reflexivity.
    + pose proof (rounded_max_fps t self) as Hmax.
      pose proof (rounded_last_check t self) as Hcheck.
      destruct (consume round t self) as [r self']. cbn [fst snd] in *.
      replace (1 <=? Z.of_nat (S (List.length clock)))%Z with true in *
        by (symmetry; apply Z.leb_le; lia).
      subst r.
      destruct (IH self') as (H1 & H2 & H3 & H4).
      * now rewrite Hmax.
      * rewrite Hmax. lia.
      * rewrite Ha'. apply inject_Z_injective. lia.
      * now rewrite Hcheck.
      * exact Hrest.
      * destruct (run round clock self') as [rs self'']. cbn [fst snd] in *.
        split; [now rewrite H1|]. split; [exact H2|]. split; [exact H3|].
        congruence.
Qed.

Lemma rounded_run_app clock1 : forall clock2 self,
  run round (clock1 ++ clock2) self =
  (fst (run round clock1 self)
   ++ fst (run round clock2 (snd (run round clock1 self))),
   snd (run round clock2 (snd (run round clock1 self)))).
Proof.
  induction clock1 as [|t clock1 IH]; intros clock2 self;
    cbn [run app fst snd].
  - now destruct (run round clock2 self).
  - destruct (consume round t self) as [r self'].
    rewrite IH. destruct (run round clock1 self') as [rs self''].
    cbn [fst snd].
    now destruct (run round clock2 self'').
Qed.

End Refill.

(** *** Burst and refill *)

Lemma binary64_exact_upto (n : Z) : (n < 2 ^ 53)%Z -> exact_upto binary64 n.
Proof.
  intros Hn k Hk. apply binary64_int. lia.
Qed.

(** C9.  On binary64 numbers, a fresh limiter with an integer
    [max_fps = n], [1 <= n < 2^53], allows [n] immediate calls (no time
    passing) and denies the next immediate call; and whenever a call of a
    limiter that has been running on a monotonic clock is denied, a later
    call is allowed when the time the limiter computes as passed since
    then, [current - last_check] rounded, is at least [1 / n]: in
    particular when that subtraction is exact and the call comes at least
    [1 / n] seconds later, and in particular when the readings of the
    clock are binary64 numbers, the denied call is made at a reading of
    [1 / n] seconds or more and the later call comes at least [1 / n]
    seconds after it. *)
Theorem burst_then_refill_binary64 (n : Z) (t0 : Q) :
  (1 <= n < 2 ^ 53)%Z ->
  (forall clock,
     List.length clock = S (Z.to_nat n) ->
     Forall (fun t => t == t0) clock ->
     fst (run binary64 clock (init n t0)) = repeat true (Z.to_nat n) ++ [false]) /\
  (forall clock t1 t2,
     monotonic t0 (clock ++ [t1]) ->
     fst (consume binary64 t1 (snd (run binary64 clock (init n t0)))) = false ->
     1 / inject_Z n <= binary64 (t2 - t1) ->
     fst (consume binary64 t2
            (snd (consume binary64 t1 (snd (run binary64 clock (init n t0))))))
     = true) /\
  (forall clock t1 t2,
     monotonic t0 (clock ++ [t1]) ->
     fst (consume binary64 t1 (snd (run binary64 clock (init n t0)))) = false ->
     binary64 (t2 - t1) == t2 - t1 ->
     t1 + 1 / inject_Z n <= t2 ->
     fst (consume binary64 t2
            (snd (consume binary64 t1 (snd (run binary64 clock (init n t0))))))
     = true) /\
  (forall clock t1 t2,
     monotonic t0 (clock ++ [t1]) ->
     fst (consume binary64 t1 (snd (run binary64 clock (init n t0)))) = false ->
     binary64 t1 == t1 ->
     binary64 t2 == t2 ->
     1 / inject_Z n <= t1 ->
     t1 + 1 / inject_Z n <= t2 ->
     fst (consume binary64 t2
            (snd (consume binary64 t1 (snd (run binary64 clock (init n t0))))))
     = true).
Proof.
  intros [Hn1 Hn53].
  pose proof (@binary64_exact_upto n Hn53) as Hexact.
  assert (Hrefill : forall clock t1 t2,
            monotonic t0 (clock ++ [t1]) ->
            1 / inject_Z n <= binary64 (t2 - t1) ->
            fst (consume binary64 t2
                   (snd (consume binary64 t1
                           (snd (run binary64 clock (init n t0)))))) = true).
  { intros clock t1 t2 Hmono Hwait.
    apply monotonic_app in Hmono. destruct Hmono as [Hclock [Ht1 _]].
    destruct (@rounded_run_nonneg binary64 binary64_le clock (init n t0))
      as (Ha & Hmax & Hlast); try assumption.
    { cbn. change 0 with (inject_Z 0). rewrite <- Zle_Qle. lia. }
    set (self := snd (run binary64 clock (init n t0))) in *.
    cbn [init max_fps last_check] in Hmax, Hlast.
    apply (@rounded_refill_allows binary64 binary64_le).
    - rewrite rounded_max_fps, Hmax. exact Hexact.
    - rewrite rounded_max_fps, Hmax. exact Hn1.
    - apply (@rounded_consume_nonneg binary64 binary64_le).
      + rewrite Hmax. exact Hexact.
      + rewrite Hmax. exact Hn1.
      + exact Ha.
      + rewrite Hlast. exact Ht1.
    - unfold time_passed.
      rewrite rounded_max_fps, rounded_last_check, Hmax. exact Hwait. }
  split; [|split; [|split]].
  - intros clock Hlen Hnow.
    destruct (exists_last (l := clock)) as (burst & t & ->).
    { intro E. subst clock. discriminate Hlen. }
    rewrite length_app in Hlen. cbn in Hlen.
    assert (Hlen' : List.length burst = Z.to_nat n) by lia.
    apply Forall_app in Hnow. destruct Hnow as [Hburst Hlast].
    inversion Hlast as [|? ? Ht _]; subst.
    destruct (@rounded_burst_allowed binary64 binary64_le t0 burst (init n t0))
      as (Hrs & Hzero & Hcheck & Hmax).
    + exact Hexact.
    + cbn. rewrite Hlen'. lia.
    + cbn. rewrite Hlen', Z2Nat.id by lia. reflexivity.
    + reflexivity.
    + exact Hburst.
    + rewrite rounded_run_app. cbn [fst]. rewrite Hrs, Hlen'. f_equal.
      cbn [run]. cbn [init max_fps] in Hmax.
      destruct (@consume_at_once binary64 binary64_le t
                  (snd (run binary64 burst (init n t0))) 0%Z)
        as [Hdeny _].
      * rewrite Hmax. exact Hexact.
      * rewrite Hmax. lia.
      * exact Hzero.
      * rewrite Ht, Hcheck. reflexivity.
      * destruct (consume binary64 t _) as [r s]. cbn [fst] in *.
        now subst r.
  - intros clock t1 t2 Hmono _ Hwait. now apply Hrefill.
  - intros clock t1 t2 Hmono _ Hexact_sub Hwait.
    apply Hrefill; [exact Hmono|]. rewrite Hexact_sub. lra.
  - intros clock t1 t2 Hmono _ Hf1 Hf2 Hup Hwait.
    assert (Hpos : 0 < 1 / inject_Z n).
    { apply Qlt_shift_div_l.
      - change 0 with (inject_Z 0). rewrite <- Zlt_Qlt. lia.
      - rewrite Qmult_0_l. reflexivity. }
    apply Hrefill; [exact Hmono|].
    destruct (Qlt_le_dec (2 * t1) t2) as [Hfar|Hnear].
    + apply Qle_trans with (binary64 t1).
      * rewrite Hf1. exact Hup.
      * apply binary64_le. lra.
    + rewrite (@binary64_sub_exact t2 t1 Hf2 Hf1); lra.
Qed.

(** Closed facts about rationals and rounded runs, by computation. *)
Ltac Qcompute :=
  vm_compute; first [reflexivity | let H := fresh in intro H; discriminate H].

(** C9 on a limiter of 3 frames per second: three immediate calls pass,
    the fourth is denied, and a call half a second later passes; so it
    does for a limiter created at the reading 1. *)
Lemma burst_then_refill_binary64_witness :
  fst (run binary64 [0; 0; 0; 0] (init 3 0)) = [true; true; true; false] /\
  fst (consume binary64 (1 # 2)
         (snd (consume binary64 0 (snd (run binary64 [0; 0; 0] (init 3 0))))))
  = true /\
  fst (consume binary64 (3 # 2)
         (snd (consume binary64 1 (snd (run binary64 [1; 1; 1] (init 3 1))))))
  = true.
Proof.
  assert (H3 : (1 <= 3 < 2 ^ 53)%Z) by lia.
  destruct (@burst_then_refill_binary64 3 0 H3) as (Hburst & Hrefill & _).
  destruct (@burst_then_refill_binary64 3 1 H3) as (_ & _ & _ & Hreadings).
  split; [|split].
  - apply (Hburst [0; 0; 0; 0]).
    + reflexivity.
    + repeat (constructor; [Qcompute|]). constructor.
  - apply (Hrefill [0; 0; 0] 0 (1 # 2)).
    + cbn [monotonic app].
      repeat (split; [Qcompute|]). exact I.
    + Qcompute.
    + Qcompute.
  - apply (Hreadings [1; 1; 1] 1 (3 # 2)).
    + cbn [monotonic app].
      repeat (split; [Qcompute|]). exact I.
    + Qcompute.
    + Qcompute.
    + Qcompute.
    + Qcompute.
    + Qcompute.
Defined.

(** The hypothesis of the refill is on the time the limiter computes.
    At readings below [1 / max_fps], finer than a nanosecond clock delivers,
    that time and the time between the readings part: take
    a limiter of 49 frames per second emptied at the reading
    [33 * 2^-64] (49 calls allowed and one denied there, which leaves the
    allowance at 0) and the least binary64 number above [1 / 49] as the
    next reading.  More than [1 / 49] seconds lie between the two, but
    their difference rounds to the greatest binary64 number below
    [1 / 49], whose product with 49 rounds below 1. *)
Definition tiny : Q := 33 # (2 ^ 64).
Definition above_a_49th : Q := 5882252574524730 # (2 ^ 58).

Example rounding_of_the_wait :
  tiny + 1 / 49 <= above_a_49th /\
  binary64 tiny == tiny /\
  binary64 above_a_49th == above_a_49th /\
  binary64 (above_a_49th - tiny) < 1 / 49 /\
  fst (consume binary64 above_a_49th (mkLimiter 49 0 tiny)) = false.
Proof.
  split; [Qcompute|]. split; [Qcompute|]. split; [Qcompute|].
  split; Qcompute.
Qed.

End Rounding.

(* ================================================================== *)
(** ** The token bucket on the hardware's binary64 numbers *)
(* ================================================================== *)

(** The bucket on Rocq's primitive binary64 numbers, the hardware's own
    arithmetic: the runs below are computed with it and agree with the
    rounding of [Rounding]. *)
Module Binary64.

Local Open Scope float_scope.

(** [float(n)] for an [int] [n] with [|n| < 2^63]. *)
Definition of_int (n : Z) : float :=
  if (n <? 0)%Z
  then - PrimFloat.of_uint63 (Uint63.of_Z (- n))
  else PrimFloat.of_uint63 (Uint63.of_Z n).

(** The rational a finite binary64 number stands for. *)
Definition to_Q (f : float) : Q :=
  match Prim2SF f with
  | S754_finite s m e =>
      let v := if (0 <=? e)%Z
               then inject_Z (Zpos m * 2 ^ e)
               else Qmake (Zpos m) (Z.to_pos (2 ^ (- e))) in
      if s then Qopp v else v
  | _ => 0%Q
  end.

Record WebSocketLimiter : Type := mkLimiter {
  max_fps : Z;
  allowance : float;
  last_check : float
}.

Definition init (max_fps : Z) (now : float) : WebSocketLimiter :=
  {| max_fps := max_fps; allowance := of_int max_fps; last_check := now |}.

Definition consume (current : float) (self : WebSocketLimiter)
  : bool * WebSocketLimiter :=
  let time_passed := current - last_check self in
  let a := allowance self + time_passed * of_int (max_fps self) in
  let a := if of_int (max_fps self) <? a then of_int (max_fps self) else a in
  if a <? 1
  then (false, {| max_fps := max_fps self; allowance := a;
                  last_check := current |})
  else (true, {| max_fps := max_fps self; allowance := a - 1;
                 last_check := current |}).

Fixpoint run (clock : list float) (self : WebSocketLimiter)
  : list bool * WebSocketLimiter :=
  match clock with
  | [] => ([], self)
  | t :: clock' =>
      let (r, self') := consume t self in
      let (rs, self'') := run clock' self' in
      (r :: rs, self'')
  end.

(** Ten frames per second: ten immediate calls pass and the eleventh is
    denied; an eighth of a second later a call passes again. *)
Example binary64_burst :
  fst (run (repeat 5 11 ++ [5.125]) (init 10 5))
  = repeat true 10 ++ [false; true].
Proof. vm_compute. reflexivity. Qed.

(** The allowance stays within the budget on that run. *)
Example binary64_budget :
  forallb (fun t => let a := allowance (snd (run (repeat 5 t ++ [5.125; 9])
                                                 (init 10 5))) in
                    (0 <=? a) && (a <=? 10))
          (seq 0 13)
  = true.
Proof. vm_compute. reflexivity. Qed.

(** The rounding of [Rounding] is the one of the hardware: sums,
    differences, products and quotients that are not binary64 numbers,
    a tie, and a result below the normal range. *)
Example binary64_agrees :
  forallb (fun '(exact, computed) =>
             Qeq_bool (Rounding.binary64 exact) (to_Q computed))
    [(Qplus (to_Q 0x1.999999999999ap-4) (to_Q 0x1.999999999999ap-3),
      0x1.999999999999ap-4 + 0x1.999999999999ap-3);
     (Qminus (to_Q 0x1.4e5e0a72f053ap-6) (to_Q 0x1.08p-59),
      0x1.4e5e0a72f053ap-6 - 0x1.08p-59);
     (Qmult (to_Q 0x1.4e5e0a72f0539p-6) (to_Q 49), 0x1.4e5e0a72f0539p-6 * 49);
     (Qdiv (to_Q 1) (to_Q 49), 1 / 49);
     (Qdiv (to_Q (-1)) (to_Q 3), -1 / 3);
     (Qplus (to_Q 0x1.ffffffffffffep0) (to_Q 0x1p-53),
      0x1.ffffffffffffep0 + 0x1p-53);
     (Qdiv (to_Q 0x1.fffffffffffffp-1023) (to_Q 3),
      0x1.fffffffffffffp-1023 / 3)]
  = true.
Proof. vm_compute. reflexivity. Qed.

(** The run of [Rounding.rounding_of_the_wait] on the hardware: 49 calls
    allowed and one denied at the reading [33 * 2^-64], and the call at
    the least binary64 number above [1 / 49] denied. *)
Example binary64_rounding_of_the_wait :
  Qeq_bool (to_Q 0x1.08p-59) Rounding.tiny = true /\
  Qeq_bool (to_Q 0x1.4e5e0a72f053ap-6) Rounding.above_a_49th = true /\
  fst (run (repeat 0x1.08p-59 50 ++ [0x1.4e5e0a72f053ap-6])
           (init 49 0x1.08p-59))
  = repeat true 49 ++ [false; false].
Proof. repeat split; vm_compute; reflexivity. Qed.

End Binary64.

(* ================================================================== *)
(** ** Python exceptions *)
(* ================================================================== *)

(** The exceptions the services raise or catch.  [CancelledError] derives
    from [BaseException] only; every other one derives from [Exception]. *)
Inductive exn : Type :=
| HTTPException (status_code : Z) (detail : string)
| ValueError (msg : string)
| RuntimeError (msg : string)
| AttributeError (msg : string)
| WebSocketDisconnect
| CancelledError.

(** [isinstance(e, Exception)], the test of [except Exception]. *)
Definition is_Exception (e : exn) : bool :=
  match e with
  | CancelledError => false
  | _ => true
  end.

(** [isinstance(e, HTTPException)]. *)
Definition is_HTTPException (e : exn) : bool :=
  match e with
  | HTTPException _ _ => true
  | _ => false
  end.

(** The result of a call: a returned value or a raised exception. *)
Inductive outcome (A : Type) : Type :=
| Return (a : A)
| Raise (e : exn).

Arguments Return {A} a.
Arguments Raise {A} e.

(* ================================================================== *)
(** ** [ConnectionManager] of [fastapi_service.py] *)
(* ================================================================== *)

Module Registry.

Section Manager.

(** A WebSocket object (compared by identity) and a JSON message. *)
Variable WebSocket : Type.
Variable WebSocket_eq_dec : forall a b : WebSocket, {a = b} + {a <> b}.
Variable json : Type.

(** What a call does to the outside world and to the connection list. *)
Inductive event : Type :=
| Sent (connection : WebSocket) (message : json)
| SendFailed (connection : WebSocket) (message : json) (e : exn)
| Removed (connection : WebSocket).

(** [self.active_connections]; the lock only serialises the coroutines. *)
Record ConnectionManager : Type := mkManager {
  active_connections : list WebSocket
}.

(** [ConnectionManager()]. *)
Definition new : ConnectionManager := {| active_connections := [] |}.

(** [websocket in self.active_connections]. *)
Definition contains (websocket : WebSocket) (l : list WebSocket) : bool :=
  if in_dec WebSocket_eq_dec websocket l then true else false.

(** [list.remove(x)] on a list that holds [x]: the first [x] goes. *)
Fixpoint remove_first (x : WebSocket) (l : list WebSocket) : list WebSocket :=
  match l with
  | [] => []
  | y :: l' => if WebSocket_eq_dec x y then l' else y :: remove_first x l'
  end.

(** [connect(self, websocket)]; [accepted] is what [await
    websocket.accept()] did: [None] when it returned. *)
Definition connect (accepted : option exn) (websocket : WebSocket)
  (self : ConnectionManager) : outcome unit * ConnectionManager :=
  match accepted with
  | Some e => (Raise e, self)
  | None =>
      (Return tt,
       {| active_connections := active_connections self ++ [websocket] |})
  end.

(** [disconnect(self, websocket)]. *)
Definition disconnect (websocket : WebSocket) (self : ConnectionManager)
  : ConnectionManager * list event :=
  if contains websocket (active_connections self)
  then ({| active_connections :=
             remove_first websocket (active_connections self) |},
        [Removed websocket])
  else (self, []).

(** The [for conn in disconnected: self.disconnect(conn)] loop. *)
Fixpoint drop (disconnected : list WebSocket) (self : ConnectionManager)
  : ConnectionManager * list event :=
  match disconnected with
  | [] => (self, [])
  | conn :: rest =>
      let (self', tr) := disconnect conn self in
      let (self'', tr') := drop rest self' in
      (self'', tr ++ tr')
  end.

(** An event of the delivery pass, as opposed to a removal. *)
Definition is_send (ev : event) : bool :=
  match ev with
  | Sent _ _ | SendFailed _ _ _ => true
  | Removed _ => false
  end.

(** The connection an event is about. *)
Definition connection_of (ev : event) : WebSocket :=
  match ev with
  | Sent c _ | SendFailed c _ _ | Removed c => c
  end.

(** *** Lists with one occurrence removed *)

Lemma contains_iff x l : contains x l = true <-> In x l.
Proof.
  unfold contains. destruct (in_dec WebSocket_eq_dec x l); split; intro H;
    try reflexivity; try assumption; try discriminate; contradiction.
Qed.

Lemma contains_false_iff x l : contains x l = false <-> ~ In x l.
Proof.
  unfold contains. destruct (in_dec WebSocket_eq_dec x l); split; intro H;
    try reflexivity; try assumption; try discriminate; contradiction.
Qed.

Lemma remove_first_incl x l : forall c, In c (remove_first x l) -> In c l.
Proof.
  induction l as [|y l IH]; intros c H; cbn in *; [exact H|].
  destruct (WebSocket_eq_dec x y).
  - now right.
  - destruct H as [H|H]; [now left | right; now apply IH].
Qed.

Lemma remove_first_other x l : forall c,
  c <> x -> In c l -> In c (remove_first x l).
Proof.
  induction l as [|y l IH]; intros c Hc H; cbn in *; [exact H|].
  destruct (WebSocket_eq_dec x y) as [->|Hxy].
  - destruct H as [H|H]; [congruence | exact H].
  - destruct H as [H|H]; [now left | right; now apply IH].
Qed.

Lemma remove_first_NoDup x l : NoDup l -> NoDup (remove_first x l).
Proof.
  induction 1 as [|y l Hy Hl IH]; cbn; [constructor|].
  destruct (WebSocket_eq_dec x y); [exact Hl|].
  constructor; [|exact IH].
  intro H. apply Hy. eapply remove_first_incl; eassumption.
Qed.

Lemma remove_first_absent x l : NoDup l -> ~ In x (remove_first x l).
Proof.
  induction 1 as [|y l Hy Hl IH]; cbn; [tauto|].
  destruct (WebSocket_eq_dec x y) as [->|Hxy]; [exact Hy|].
  intros [H|H]; [congruence | contradiction].
Qed.

Lemma remove_first_app x pre : forall l,
  ~ In x pre -> remove_first x (pre ++ l) = pre ++ remove_first x l.
Proof.
  induction pre as [|y pre IH]; intros l Hx; cbn; [reflexivity|].
  destruct (WebSocket_eq_dec x y) as [->|Hxy].
  - exfalso. apply Hx. now left.
  - f_equal. apply IH. intro H. apply Hx. now right.
Qed.

(** *** The removal pass *)

Lemma disconnect_sound websocket self :
  (forall c, In c (active_connections (fst (disconnect websocket self))) ->
             In c (active_connections self)) /\
  (NoDup (active_connections self) ->
   NoDup (active_connections (fst (disconnect websocket self))) /\
   ~ In websocket (active_connections (fst (disconnect websocket self)))) /\
  (forall c, ~ In c (active_connections self) ->
             ~ In c (active_connections (fst (disconnect websocket self)))) /\
  Forall (fun ev => is_send ev = false /\
                    In (connection_of ev) (active_connections self))
         (snd (disconnect websocket self)).
Proof.
  unfold disconnect.
  destruct (contains websocket (active_connections self)) eqn:E; cbn.
  - apply contains_iff in E. repeat split.
    + apply remove_first_incl.
    + now apply remove_first_NoDup.
    + now apply remove_first_absent.
    + intros c Hc H. apply Hc. eapply remove_first_incl; eassumption.
    + constructor; [cbn; auto | constructor].
  - apply contains_false_iff in E. repeat split; auto.
Qed.

Lemma drop_sound disconnected : forall self,
  (forall c, In c (active_connections (fst (drop disconnected self))) ->
             In c (active_connections self)) /\
  (NoDup (active_connections self) ->
   NoDup (active_connections (fst (drop disconnected self)))) /\
  Forall (fun ev => is_send ev = false /\
                    In (connection_of ev) (active_connections self))
         (snd (drop disconnected self)).
Proof.
  induction disconnected as [|conn rest IH]; intros self; cbn.
  - repeat split; auto.
  - destruct (disconnect_sound conn self) as (Hincl & Hnodup & _ & Htr).
    destruct (disconnect conn self) as [self' tr]. cbn in *.
    specialize (IH self').
    destruct (drop rest self') as [self'' tr']. cbn in *.
    destruct IH as (IHincl & IHnodup & IHtr).
    repeat split.
    + auto.
    + intro H. apply IHnodup. now apply Hnodup.
    + apply Forall_app. split; [exact Htr|].
      eapply Forall_impl; [|exact IHtr]. cbn. intros ev [H1 H2]. auto.
Qed.

(** Removing the marked connections of a pass leaves the others, in
    order: [pre] holds entries already passed that did not fail. *)
Lemma drop_failed (f : WebSocket -> bool) l : forall pre,
  (forall c, In c pre -> f c = false) ->
  drop (filter f l) {| active_connections := pre ++ l |} =
  ({| active_connections := pre ++ filter (fun c => negb (f c)) l |},
   map Removed (filter f l)).
Proof.
  induction l as [|c l IH]; intros pre Hpre; cbn [filter].
  - reflexivity.
  - destruct (f c) eqn:Ec; cbn [negb].
    + assert (Hnot : ~ In c pre).
      { intro H. apply Hpre in H. congruence. }
      cbn [drop]. unfold disconnect. cbn [active_connections].
      replace (contains c (pre ++ c :: l)) with true.
      2:{ symmetry. apply contains_iff. apply in_or_app. right. now left. }
      rewrite remove_first_app by exact Hnot. cbn [remove_first].
      destruct (WebSocket_eq_dec c c) as [_|Hcc]; [|congruence].
      rewrite IH by exact Hpre. reflexivity.
    + replace (pre ++ c :: l) with ((pre ++ [c]) ++ l)
        by (rewrite <- app_assoc; reflexivity).
      rewrite IH.
      * rewrite <- app_assoc. reflexivity.
      * intros c' Hc'. apply in_app_or in Hc'.
        destruct Hc' as [Hc'|[<-|[]]]; [now apply Hpre | exact Ec].
Qed.

Lemma filter_all_but_one (f : WebSocket -> bool) (bad : WebSocket) l :
  NoDup l -> In bad l ->
  (forall c, In c l -> (f c = false <-> c = bad)) ->
  List.length (filter f l) = pred (List.length l).
Proof.
  induction 1 as [|c l Hc Hl IH]; intros Hin Hf; [destruct Hin|].
  cbn [filter List.length pred].
  destruct (f c) eqn:Ec.
  - destruct Hin as [->|Hin].
    + assert (f bad = false) by (apply Hf; [now left | reflexivity]). congruence.
    + cbn [List.length]. rewrite IH.
      * destruct l; [destruct Hin | reflexivity].
      * exact Hin.
      * intros c' Hc'. apply Hf. now right.
  - assert (c = bad) by (apply Hf; [now left | exact Ec]). subst c.
    clear IH Hin.
    induction l as [|c l IHl]; [reflexivity|].
    cbn [filter].
    assert (Hcb : f c = true).
    { destruct (f c) eqn:E; [reflexivity|].
      assert (c = bad) by (apply Hf; [right; now left | exact E]).
      subst c. exfalso. apply Hc. now left. }
    rewrite Hcb. cbn [List.length]. f_equal. apply IHl.
    + intro H. apply Hc. now right.
    + now inversion Hl.
    + intros c' [<-|Hc']; apply Hf; [now left | right; now right].
Qed.

(** *** One broadcast *)

Section Delivery.

(** [await connection.send_json(message)]: [None] when it returns, the
    exception when it raises. *)
Variable send_json : WebSocket -> json -> option exn.

(** The [for connection in self.active_connections] loop of [broadcast]:
    the exception that left the loop if any, the list [disconnected] and
    the sends in order. *)
Fixpoint deliver (message : json) (connections disconnected : list WebSocket)
  : option exn * list WebSocket * list event :=
  match connections with
  | [] => (None, disconnected, [])
  | connection :: rest =>
      match send_json connection message with
      | None =>
          let '(r, d, tr) := deliver message rest disconnected in
          (r, d, Sent connection message :: tr)
      | Some e =>
          if is_Exception e
          then
            let '(r, d, tr) :=
              deliver message rest (disconnected ++ [connection]) in
            (r, d, SendFailed connection message e :: tr)
          else (Some e, disconnected, [SendFailed connection message e])
      end
  end.

(** [broadcast(self, message)]. *)
Definition broadcast (message : json) (self : ConnectionManager)
  : outcome unit * ConnectionManager * list event :=
  match active_connections self with
  | [] => (Return tt, self, [])
  | _ :: _ =>
      let '(r, disconnected, tr) :=
        deliver message (active_connections self) [] in
      match r with
      | Some e => (Raise e, self, tr)
      | None =>
          let (self', tr') := drop disconnected self in
          (Return tt, self', tr ++ tr')
      end
  end.

(** Whether delivery of [message] to [connection] raises. *)
Definition fails (message : json) (connection : WebSocket) : bool :=
  match send_json connection message with
  | Some _ => true
  | None => false
  end.

(** The event of one [send_json]. *)
Definition attempt (message : json) (connection : WebSocket) : event :=
  match send_json connection message with
  | None => Sent connection message
  | Some e => SendFailed connection message e
  end.

(** When no [send_json] raises past [except Exception], the pass visits
    every connection and collects the failed ones in order. *)
Lemma deliver_all message connections : forall disconnected,
  (forall c e, In c connections -> send_json c message = Some e ->
               is_Exception e = true) ->
  deliver message connections disconnected =
  (None, disconnected ++ filter (fails message) connections,
   map (attempt message) connections).
Proof.
  induction connections as [|c rest IH]; intros disconnected Hexc; cbn.
  - now rewrite app_nil_r.
  - unfold fails at 1, attempt at 1.
    destruct (send_json c message) as [e|] eqn:Esend.
    + rewrite (Hexc c e (or_introl eq_refl) Esend).
      rewrite IH by (intros c' e' Hc'; apply Hexc; now right).
      now rewrite <- app_assoc.
    + rewrite IH by (intros c' e' Hc'; apply Hexc; now right).
      reflexivity.
Qed.

(** Whatever [send_json] does, the pass only sends, only to the
    connections it iterates over, and only those can be marked. *)
Lemma deliver_sound message connections : forall disconnected,
  Forall (fun ev => is_send ev = true /\ In (connection_of ev) connections)
         (snd (deliver message connections disconnected)) /\
  (forall c, In c (snd (fst (deliver message connections disconnected))) ->
             In c disconnected \/ In c connections).
Proof.
  induction connections as [|c rest IH]; intros disconnected; cbn.
  - split; [constructor | intros c H; now left].
  - destruct (send_json c message) as [e|].
    + destruct (is_Exception e).
      * specialize (IH (disconnected ++ [c])).
        destruct (deliver message rest (disconnected ++ [c])) as [[r d] tr].
        cbn in *. destruct IH as [IHtr IHd]. split.
        -- constructor; [cbn; auto|].
           eapply Forall_impl; [|exact IHtr]. cbn. intros ev [H1 H2]. auto.
        -- intros c' Hc'. apply IHd in Hc'.
           destruct Hc' as [Hc'|Hc']; [|now right; right].
           apply in_app_or in Hc'. destruct Hc' as [Hc'|[Hc'|[]]]; auto.
      * cbn. split; [|intros c' Hc'; now left].
        constructor; [cbn; auto | constructor].
    + specialize (IH disconnected).
      destruct (deliver message rest disconnected) as [[r d] tr].
      cbn in *. destruct IH as [IHtr IHd]. split.
      * constructor; [cbn; auto|].
        eapply Forall_impl; [|exact IHtr]. cbn. intros ev [H1 H2]. auto.
      * intros c' Hc'. apply IHd in Hc'. destruct Hc'; auto.
Qed.

(** [broadcast] when every failure is an [Exception]: it returns, keeps
    exactly the connections whose send returned, and does all its sends
    before its first removal. *)
Lemma broadcast_all message self :
  (forall c e, In c (active_connections self) ->
               send_json c message = Some e -> is_Exception e = true) ->
  broadcast message self =
  (Return tt,
   {| active_connections :=
        filter (fun c => negb (fails message c)) (active_connections self) |},
   map (attempt message) (active_connections self)
   ++ map Removed (filter (fails message) (active_connections self))).
Proof.
  intro Hexc. unfold broadcast.
  destruct self as [l]. cbn [active_connections] in *.
  destruct l as [|c l]; [reflexivity|].
  rewrite deliver_all by exact Hexc.
  pose proof (drop_failed (fails message) (c :: l) []
                (fun c' (H : In c' []) => match H with end)) as Hdrop.
  cbn [app] in *. rewrite Hdrop. reflexivity.
Qed.

(** Whatever [send_json] does, [broadcast] adds no connection, keeps the
    registry free of duplicates and touches registered connections only. *)
Lemma broadcast_sound message self :
  (forall c, In c (active_connections (snd (fst (broadcast message self)))) ->
             In c (active_connections self)) /\
  (NoDup (active_connections self) ->
   NoDup (active_connections (snd (fst (broadcast message self))))) /\
  Forall (fun ev => In (connection_of ev) (active_connections self))
         (snd (broadcast message self)).
Proof.
  unfold broadcast.
  destruct (active_connections self) as [|c0 l0] eqn:El.
  - cbn [fst snd]. rewrite El. repeat split; auto.
  - rewrite <- El.
    destruct (deliver_sound message (active_connections self) []) as [Htr _].
    destruct (deliver message (active_connections self) []) as [[r d] tr].
    cbn [fst snd] in Htr.
    destruct r as [e|].
    + cbn [fst snd]. split; [auto|]. split; [auto|].
      eapply Forall_impl; [|exact Htr]. cbn beta. tauto.
    + destruct (drop_sound d self) as (Hincl & Hnodup & Htr').
      destruct (drop d self) as [self' tr']. cbn [fst snd] in *.
      split; [exact Hincl|]. split; [exact Hnodup|].
      apply Forall_app. split.
      * eapply Forall_impl; [|exact Htr]. cbn beta. tauto.
      * eapply Forall_impl; [|exact Htr']. cbn beta. tauto.
Qed.

(** *** The pass while other handlers run *)

(** [broadcast] awaits every send.  While it is suspended there, the
    handlers of other connections run, and [websocket_endpoint] calls
    [disconnect] (synchronous, taken without the lock) when its client
    has left; [connect] cannot run its [append], which waits for the lock
    that [broadcast] holds.  The [for] statement keeps an index into the
    live list: it reads the entry at the index, moves the index by one
    and stops when the index is past the end.

    [interrupts] gives, for each send in order, the connections whose
    handlers call [disconnect] while that send is awaited.  [fuel] bounds
    the number of sends; the length of the list at the start suffices,
    the list does not grow ([deliver_live_fuel]). *)
Fixpoint deliver_live (fuel : nat) (message : json) (index : nat)
  (interrupts : list (list WebSocket)) (self : ConnectionManager)
  (disconnected : list WebSocket)
  : option exn * ConnectionManager * list WebSocket * list event :=
  match fuel with
  | O => (None, self, disconnected, [])
  | S fuel' =>
      match nth_error (active_connections self) index with
      | None => (None, self, disconnected, [])
      | Some connection =>
          let (self', removed) := drop (hd [] interrupts) self in
          match send_json connection message with
          | None =>
              let '(r, s, d, tr) :=
                deliver_live fuel' message (S index) (tl interrupts) self'
                             disconnected in
              (r, s, d, removed ++ Sent connection message :: tr)
          | Some e =>
              if is_Exception e
              then
                let '(r, s, d, tr) :=
                  deliver_live fuel' message (S index) (tl interrupts) self'
                               (disconnected ++ [connection]) in
                (r, s, d, removed ++ SendFailed connection message e :: tr)
              else (Some e, self', disconnected,
                    removed ++ [SendFailed connection message e])
          end
      end
  end.

(** [broadcast(self, message)] with the other handlers running. *)
Definition broadcast_live (interrupts : list (list WebSocket))
  (message : json) (self : ConnectionManager)
  : outcome unit * ConnectionManager * list event :=
  match active_connections self with
  | [] => (Return tt, self, [])
  | _ :: _ =>
      let '(r, self', disconnected, tr) :=
        deliver_live (List.length (active_connections self)) message 0
                     interrupts self [] in
      match r with
      | Some e => (Raise e, self', tr)
      | None =>
          let (self'', tr') := drop disconnected self' in
          (Return tt, self'', tr ++ tr')
      end
  end.

Lemma remove_first_length x l :
  (List.length (remove_first x l) <= List.length l)%nat.
Proof.
  induction l as [|y l IH]; cbn; [lia|].
  destruct (WebSocket_eq_dec x y); cbn; lia.
Qed.

Lemma drop_length leaving : forall self,
  (List.length (active_connections (fst (drop leaving self)))
   <= List.length (active_connections self))%nat.
Proof.
  induction leaving as [|c rest IH]; intros self; cbn [drop]; [cbn; lia|].
  unfold disconnect.
  destruct (contains c (active_connections self)).
  - specialize (IH {| active_connections :=
                        remove_first c (active_connections self) |}).
    destruct (drop rest _) as [self'' tr']. cbn [fst active_connections] in *.
    pose proof (remove_first_length c (active_connections self)). lia.
  - specialize (IH self).
    destruct (drop rest self) as [self'' tr']. exact IH.
Qed.

Lemma deliver_live_S fuel message index interrupts self disconnected :
  deliver_live (S fuel) message index interrupts self disconnected
  = match nth_error (active_connections self) index with
    | None => (None, self, disconnected, [])
    | Some connection =>
        let (self', removed) := drop (hd [] interrupts) self in
        match send_json connection message with
        | None =>
            let '(r, s, d, tr) :=
              deliver_live fuel message (S index) (tl interrupts) self'
                           disconnected in
            (r, s, d, removed ++ Sent connection message :: tr)
        | Some e =>
            if is_Exception e
            then
              let '(r, s, d, tr) :=
                deliver_live fuel message (S index) (tl interrupts) self'
                             (disconnected ++ [connection]) in
              (r, s, d, removed ++ SendFailed connection message e :: tr)
            else (Some e, self', disconnected,
                  removed ++ [SendFailed connection message e])
        end
    end.
Proof. reflexivity. Qed.

(** The pass ends by itself: fuel beyond the entries that are left
    changes nothing. *)
Lemma deliver_live_fuel fuel message : forall index interrupts self disconnected,
  (List.length (active_connections self) <= index + fuel)%nat ->
  deliver_live (S fuel) message index interrupts self disconnected
  = deliver_live fuel message index interrupts self disconnected.
Proof.
  induction fuel as [|fuel IH]; intros index interrupts self disconnected Hlen.
  - cbn [deliver_live].
    destruct (nth_error (active_connections self) index) as [c|] eqn:E;
      [|reflexivity].
    exfalso. assert (Hlt : (index < List.length (active_connections self))%nat).
    { apply nth_error_Some. congruence. }
    lia.
  - rewrite (deliver_live_S (S fuel)), (deliver_live_S fuel).
    destruct (nth_error (active_connections self) index) as [c|];
      [|reflexivity].
    pose proof (drop_length (hd [] interrupts) self) as Hdrop.
    destruct (drop (hd [] interrupts) self) as [self' removed].
    cbn [fst] in Hdrop.
    destruct (send_json c message) as [e|].
    + destruct (is_Exception e); [|reflexivity].
      rewrite IH by lia. reflexivity.
    + rewrite IH by lia. reflexivity.
Qed.

Lemma skipn_nth_error (A : Type) (l : list A) : forall index x,
  nth_error l index = Some x -> skipn index l = x :: skipn (S index) l.
Proof.
  induction l as [|y l IH]; intros [|index] x H; try discriminate.
  - cbn in *. now injection H as ->.
  - cbn [skipn nth_error] in *. now apply IH.
Qed.

Lemma skipn_nth_error_None (A : Type) (l : list A) : forall index,
  nth_error l index = None -> skipn index l = [].
Proof.
  induction l as [|y l IH]; intros [|index] H; try discriminate;
    try reflexivity.
  cbn [skipn nth_error] in *. now apply IH.
Qed.

(** When no handler interrupts, the pass is the loop over the list as it
    was at the start. *)
Lemma deliver_live_quiet fuel message : forall index interrupts self disconnected,
  List.concat interrupts = [] ->
  (List.length (active_connections self) <= index + fuel)%nat ->
  deliver_live fuel message index interrupts self disconnected
  = (fst (fst (deliver message (skipn index (active_connections self))
                       disconnected)),
     self,
     snd (fst (deliver message (skipn index (active_connections self))
                       disconnected)),
     snd (deliver message (skipn index (active_connections self))
                  disconnected)).
Proof.
  induction fuel as [|fuel IH]; intros index interrupts self disconnected Hq Hlen.
  - cbn [deliver_live]. rewrite skipn_all2 by lia. reflexivity.
  - cbn [deliver_live].
    destruct (nth_error (active_connections self) index) as [c|] eqn:E.
    + rewrite (skipn_nth_error _ _ E). cbn [deliver].
      assert (Hhd : hd [] interrupts = []).
      { destruct interrupts as [|l rest]; [reflexivity|].
        cbn in Hq. apply app_eq_nil in Hq. now destruct Hq. }
      assert (Htl : List.concat (tl interrupts) = []).
      { destruct interrupts as [|l rest]; [reflexivity|].
        cbn in Hq. apply app_eq_nil in Hq. now destruct Hq. }
      rewrite Hhd. cbn [drop app].
      destruct (send_json c message) as [e|].
      * destruct (is_Exception e); [|reflexivity].
        rewrite (IH (S index) (tl interrupts) self (disconnected ++ [c]) Htl)
          by lia.
        destruct (deliver message (skipn (S index) (active_connections self))
                          (disconnected ++ [c])) as [[r d] tr].
        reflexivity.
      * rewrite (IH (S index) (tl interrupts) self disconnected Htl) by lia.
        destruct (deliver message (skipn (S index) (active_connections self))
                          disconnected) as [[r d] tr].
        reflexivity.
    + rewrite (skipn_nth_error_None _ _ E). reflexivity.
Qed.

(** A broadcast that no handler interrupts is the sequential one. *)
Lemma broadcast_live_quiet interrupts message self :
  List.concat interrupts = [] ->
  broadcast_live interrupts message self = broadcast message self.
Proof.
  intro Hq. unfold broadcast_live, broadcast.
  destruct (active_connections self) as [|c0 l0] eqn:El; [reflexivity|].
  rewrite <- El.
  rewrite (@deliver_live_quiet _ message 0 interrupts self [] Hq) by lia.
  cbn [skipn].
  destruct (deliver message (active_connections self) []) as [[r d] tr].
  reflexivity.
Qed.

(** Whatever the handlers do meanwhile, the pass adds no connection,
    keeps the registry free of duplicates and touches connections of the
    registry only. *)
Lemma deliver_live_sound fuel message : forall index interrupts self disconnected,
  (forall c, In c (active_connections
                     (snd (fst (fst (deliver_live fuel message index interrupts
                                       self disconnected))))) ->
             In c (active_connections self)) /\
  (NoDup (active_connections self) ->
   NoDup (active_connections
            (snd (fst (fst (deliver_live fuel message index interrupts
                              self disconnected)))))) /\
  Forall (fun ev => In (connection_of ev) (active_connections self))
         (snd (deliver_live fuel message index interrupts self disconnected)).
Proof.
  induction fuel as [|fuel IH]; intros index interrupts self disconnected.
  - cbn. auto.
  - rewrite deliver_live_S.
    destruct (nth_error (active_connections self) index) as [c|] eqn:E;
      [|cbn; auto].
    apply nth_error_In in E.
    destruct (drop_sound (hd [] interrupts) self) as (Hincl & Hnodup & Htr).
    destruct (drop (hd [] interrupts) self) as [self' removed].
    cbn [fst snd] in Hincl, Hnodup, Htr.
    assert (Hremoved : Forall (fun ev => In (connection_of ev)
                                            (active_connections self)) removed).
    { eapply Forall_impl; [|exact Htr]. intros ev H. apply H. }
    destruct (send_json c message) as [e|].
    + destruct (is_Exception e).
      * specialize (IH (S index) (tl interrupts) self' (disconnected ++ [c])).
        destruct (deliver_live fuel message (S index) (tl interrupts) self'
                               (disconnected ++ [c])) as [[[r s1] d] tr].
        cbn [fst snd] in *. destruct IH as (IH1 & IH2 & IH3).
        split; [intros c' Hc'; apply Hincl; now apply IH1|].
        split; [intro H; apply IH2; now apply Hnodup|].
        apply Forall_app. split; [exact Hremoved|].
        constructor; [exact E|].
        eapply Forall_impl; [|exact IH3]. intros ev H. apply Hincl. exact H.
      * cbn [fst snd]. split; [exact Hincl|]. split; [exact Hnodup|].
        apply Forall_app. split; [exact Hremoved|].
        constructor; [exact E | constructor].
    + specialize (IH (S index) (tl interrupts) self' disconnected).
      destruct (deliver_live fuel message (S index) (tl interrupts) self'
                             disconnected) as [[[r s1] d] tr].
      cbn [fst snd] in *. destruct IH as (IH1 & IH2 & IH3).
      split; [intros c' Hc'; apply Hincl; now apply IH1|].
      split; [intro H; apply IH2; now apply Hnodup|].
      apply Forall_app. split; [exact Hremoved|].
      constructor; [exact E|].
      eapply Forall_impl; [|exact IH3]. intros ev H. apply Hincl. exact H.
Qed.

Lemma broadcast_live_sound interrupts message self :
  (forall c, In c (active_connections
                     (snd (fst (broadcast_live interrupts message self)))) ->
             In c (active_connections self)) /\
  (NoDup (active_connections self) ->
   NoDup (active_connections
            (snd (fst (broadcast_live interrupts message self))))) /\
  Forall (fun ev => In (connection_of ev) (active_connections self))
         (snd (broadcast_live interrupts message self)).
Proof.
  unfold broadcast_live.
  destruct (active_connections self) as [|c0 l0] eqn:El.
  - cbn [fst snd]. rewrite El. repeat split; auto.
  - rewrite <- El.
    destruct (deliver_live_sound (List.length (active_connections self))
                message 0 interrupts self []) as (Hincl & Hnodup & Htr).
    destruct (deliver_live (List.length (active_connections self)) message 0
                           interrupts self []) as [[[r self'] d] tr].
    cbn [fst snd] in Hincl, Hnodup, Htr.
    destruct r as [e|].
    + cbn [fst snd]. split; [exact Hincl|]. split; [exact Hnodup | exact Htr].
    + destruct (drop_sound d self') as (Hincl' & Hnodup' & Htr').
      destruct (drop d self') as [self'' tr']. cbn [fst snd] in *.
      split; [intros c Hc; apply Hincl; now apply Hincl'|].
      split; [intro H; apply Hnodup'; now apply Hnodup|].
      apply Forall_app. split; [exact Htr|].
      eapply Forall_impl; [|exact Htr']. intros ev [_ H]. apply Hincl. exact H.
Qed.

(** A pass that no other task interrupts.  When delivery to one
    registered connection raises an exception
    and delivery to every other one returns, [broadcast] returns without
    raising; every other connection is sent the message and stays
    registered; the failed connection is no longer registered (with [N]
    distinct entries before, [N - 1] are left); and the trace of the call
    is a delivery pass over all entries followed by the removals, so that
    no entry is removed before the last send. *)
Theorem broadcast_isolates_failure
  (message : json) (self : ConnectionManager) (bad : WebSocket) (e : exn) :
  In bad (active_connections self) ->
  send_json bad message = Some e ->
  is_Exception e = true ->
  (forall c, In c (active_connections self) -> c <> bad ->
             send_json c message = None) ->
  exists self' pass removals,
    broadcast message self = (Return tt, self', pass ++ removals) /\
    (forall c, In c (active_connections self) -> c <> bad ->
               In (Sent c message) pass /\ In c (active_connections self')) /\
    ~ In bad (active_connections self') /\
    (NoDup (active_connections self) ->
     List.length (active_connections self')
     = pred (List.length (active_connections self))) /\
    map connection_of pass = active_connections self /\
    Forall (fun ev => is_send ev = true) pass /\
    removals <> [] /\
    Forall (fun ev => ev = Removed bad) removals.
Proof.
  intros Hin Hbad Hexc Hothers.
  set (l := active_connections self) in *.
  assert (Hfails : forall c, In c l -> (fails message c = true <-> c = bad)).
  { intros c Hc. unfold fails.
    destruct (WebSocket_eq_dec c bad) as [->|Hne].
    - rewrite Hbad. tauto.
    - rewrite (Hothers c Hc Hne). split; [discriminate | contradiction]. }
  exists {| active_connections := filter (fun c => negb (fails message c)) l |},
         (map (attempt message) l),
         (map Removed (filter (fails message) l)).
  split; [|split; [|split; [|split; [|split; [|split; [|split]]]]]].
  - apply broadcast_all. fold l. intros c e' Hc He'.
    destruct (WebSocket_eq_dec c bad) as [->|Hne].
    + congruence.
    + rewrite (Hothers c Hc Hne) in He'. discriminate.
  - intros c Hc Hne. split.
    + apply in_map_iff. exists c. split; [|exact Hc].
      unfold attempt. now rewrite (Hothers c Hc Hne).
    + cbn. apply filter_In. split; [exact Hc|].
      unfold fails. now rewrite (Hothers c Hc Hne).
  - cbn. intro H. apply filter_In in H. destruct H as [_ H].
    assert (fails message bad = true) by now apply Hfails.
    destruct (fails message bad); discriminate.
  - intro Hnd. cbn. apply filter_all_but_one with (bad := bad); try assumption.
    intros c Hc. rewrite negb_false_iff. now apply Hfails.
  - rewrite map_map. clear. induction l as [|c l IH]; [reflexivity|].
    cbn [map]. rewrite IH. f_equal.
    unfold attempt. now destruct (send_json c message).
  - apply Forall_forall. intros ev Hev. apply in_map_iff in Hev.
    destruct Hev as (c & <- & _). unfold attempt.
    now destruct (send_json c message).
  - intro Hnil.
    assert (Hb : In (Removed bad) (map Removed (filter (fails message) l))).
    { apply in_map. apply filter_In. split; [exact Hin | now apply Hfails]. }
    rewrite Hnil in Hb. destruct Hb.
  - apply Forall_forall. intros ev Hev. apply in_map_iff in Hev.
    destruct Hev as (c & <- & Hc). apply filter_In in Hc.
    destruct Hc as [Hc Hf]. f_equal. now apply Hfails.
Qed.

End Delivery.

(** A call on the manager, with what the environment answers to it; for
    a broadcast, also the connections whose handlers disconnect them
    during each send. *)
Inductive call : Type :=
| Connect (websocket : WebSocket) (accepted : option exn)
| Disconnect (websocket : WebSocket)
| Broadcast (send_json : WebSocket -> json -> option exn)
            (interrupts : list (list WebSocket)) (message : json).

(** One call: the manager afterwards and what the call did. *)
Definition step (c : call) (self : ConnectionManager)
  : ConnectionManager * list event :=
  match c with
  | Connect websocket accepted => (snd (connect accepted websocket self), [])
  | Disconnect websocket => disconnect websocket self
  | Broadcast send_json interrupts message =>
      let '(_, self', tr) := broadcast_live send_json interrupts message self in
      (self', tr)
  end.

(** A sequence of calls, oldest first. *)
Fixpoint run (calls : list call) (self : ConnectionManager)
  : ConnectionManager * list event :=
  match calls with
  | [] => (self, [])
  | c :: calls' =>
      let (self', tr) := step c self in
      let (self'', tr') := run calls' self' in
      (self'', tr ++ tr')
  end.

(** No call of the sequence connects, with a successful handshake, a
    connection that the registry holds at that moment. *)
Fixpoint fresh_connects (calls : list call) (self : ConnectionManager) : bool :=
  match calls with
  | [] => true
  | c :: calls' =>
      match c with
      | Connect websocket None =>
          negb (contains websocket (active_connections self))
      | _ => true
      end && fresh_connects calls' (fst (step c self))
  end.

(** Whether a sequence of calls registers [websocket]. *)
Fixpoint registers (websocket : WebSocket) (calls : list call) : bool :=
  match calls with
  | [] => false
  | Connect w None :: calls' =>
      (if WebSocket_eq_dec w websocket then true else false)
      || registers websocket calls'
  | _ :: calls' => registers websocket calls'
  end.

(** *** Sequences of calls *)

Lemma run_calls_app calls1 : forall calls2 self,
  run (calls1 ++ calls2) self =
  (fst (run calls2 (fst (run calls1 self))),
   snd (run calls1 self) ++ snd (run calls2 (fst (run calls1 self)))).
Proof.
  induction calls1 as [|c calls1 IH]; intros calls2 self; cbn [run app fst snd].
  - now destruct (run calls2 self).
  - destruct (step c self) as [self' tr].
    rewrite IH.
    destruct (run calls1 self') as [self'' tr']. cbn [fst snd].
    now rewrite app_assoc.
Qed.

Lemma fresh_connects_app calls1 : forall calls2 self,
  fresh_connects (calls1 ++ calls2) self =
  fresh_connects calls1 self && fresh_connects calls2 (fst (run calls1 self)).
Proof.
  induction calls1 as [|c calls1 IH]; intros calls2 self; cbn [fresh_connects run app fst snd].
  - reflexivity.
  - rewrite IH, andb_assoc.
    destruct (step c self) as [self' tr]. cbn [fst].
    now destruct (run calls1 self').
Qed.

(** A call that registers nothing the registry holds keeps it free of
    duplicates. *)
Lemma step_NoDup c self :
  NoDup (active_connections self) ->
  fresh_connects [c] self = true ->
  NoDup (active_connections (fst (step c self))).
Proof.
  intros Hnd Hfresh. destruct c as [w [e|]|w|sj ints m]; cbn in *.
  - exact Hnd.
  - rewrite andb_true_r, negb_true_iff in Hfresh.
    apply contains_false_iff in Hfresh.
    apply NoDup_app; [exact Hnd | repeat constructor; intros [] | ].
    intros a Ha [<-|[]]. contradiction.
  - now apply disconnect_sound.
  - pose proof (broadcast_live_sound sj ints m self) as (_ & H & _).
    destruct (broadcast_live sj ints m self) as [[r self'] tr]. now apply H.
Qed.

Lemma run_NoDup calls : forall self,
  NoDup (active_connections self) ->
  fresh_connects calls self = true ->
  NoDup (active_connections (fst (run calls self))).
Proof.
  induction calls as [|c calls IH]; intros self Hnd Hfresh; [exact Hnd|].
  change (c :: calls) with ([c] ++ calls) in Hfresh.
  rewrite fresh_connects_app in Hfresh.
  apply andb_true_iff in Hfresh. destruct Hfresh as [Hc Hrest].
  pose proof (@step_NoDup c self Hnd Hc) as Hnd'.
  cbn [run] in *.
  destruct (step c self) as [self' tr]. cbn [fst snd app] in *.
  specialize (IH self' Hnd' Hrest).
  now destruct (run calls self').
Qed.

(** A call that does not register [websocket] leaves it out of a registry
    that does not hold it, and does nothing to it. *)
Lemma step_absent c self websocket :
  ~ In websocket (active_connections self) ->
  registers websocket [c] = false ->
  ~ In websocket (active_connections (fst (step c self))) /\
  Forall (fun ev => connection_of ev <> websocket) (snd (step c self)).
Proof.
  intros Hout Hreg. destruct c as [w [e|]|w|sj ints m]; cbn in *.
  - split; [exact Hout | constructor].
  - destruct (WebSocket_eq_dec w websocket) as [->|Hw]; [discriminate|].
    split; [|constructor].
    intro H. apply in_app_or in H. destruct H as [H|[H|[]]]; auto.
  - destruct (disconnect_sound w self) as (_ & _ & Hkeep & Htr).
    split; [now apply Hkeep|].
    eapply Forall_impl; [|exact Htr]. cbn beta.
    intros ev [_ Hin] <-. contradiction.
  - pose proof (broadcast_live_sound sj ints m self) as (Hincl & _ & Htr).
    destruct (broadcast_live sj ints m self) as [[r self'] tr].
    cbn [fst snd] in *.
    split; [intro H; apply Hout; now apply Hincl|].
    eapply Forall_impl; [|exact Htr]. cbn beta.
    intros ev Hin <-. contradiction.
Qed.

Lemma registers_cons c calls websocket :
  registers websocket (c :: calls) =
  registers websocket [c] || registers websocket calls.
Proof.
  destruct c as [w [e|]|w|sj ints m]; cbn; try reflexivity.
  now rewrite orb_false_r.
Qed.

Lemma run_absent calls : forall self websocket,
  ~ In websocket (active_connections self) ->
  registers websocket calls = false ->
  ~ In websocket (active_connections (fst (run calls self))) /\
  Forall (fun ev => connection_of ev <> websocket) (snd (run calls self)).
Proof.
  induction calls as [|c calls IH]; intros self websocket Hout Hreg.
  - split; [exact Hout | constructor].
  - rewrite registers_cons in Hreg.
    apply orb_false_iff in Hreg. destruct Hreg as [Hc Hrest].
    destruct (@step_absent c self websocket Hout Hc) as [Hout' Htr].
    cbn [run].
    destruct (step c self) as [self' tr]. cbn [fst snd] in *.
    destruct (IH self' websocket Hout' Hrest) as [Hout'' Htr'].
    destruct (run calls self') as [self'' tr']. cbn [fst snd] in *.
    split; [exact Hout''|].
    apply Forall_app. split; assumption.
Qed.

(** *** Sessions of the framework *)

(** [websocket.accept()] is Starlette's, not this repository's.  It
    returns at most once for one WebSocket: the handshake takes the
    socket out of its connecting state, and [accept] on a socket in any
    other state raises [RuntimeError] (the text of the error is not
    modelled).  [handshake] is what the handshake of a socket that is
    still connecting does; [accepted_before] are the sockets whose
    [accept] has returned. *)
Definition accept (accepted_before : list WebSocket) (websocket : WebSocket)
  (handshake : option exn) : option exn :=
  if contains websocket accepted_before
  then Some (RuntimeError "accept")
  else handshake.

(** The calls with the answers [accept] gives: [Connect websocket
    handshake] is a call of [connect] on a socket whose handshake, if it
    is still to be done, does [handshake]. *)
Fixpoint answered (accepted_before : list WebSocket) (calls : list call)
  : list call :=
  match calls with
  | [] => []
  | Connect websocket handshake :: calls' =>
      let accepted := accept accepted_before websocket handshake in
      Connect websocket accepted
      :: answered (match accepted with
                   | None => websocket :: accepted_before
                   | Some _ => accepted_before
                   end) calls'
  | c :: calls' => c :: answered accepted_before calls'
  end.

(** The sockets whose [accept] has returned after the calls. *)
Fixpoint accepted_after (accepted_before : list WebSocket) (calls : list call)
  : list WebSocket :=
  match calls with
  | [] => accepted_before
  | Connect websocket handshake :: calls' =>
      accepted_after (match accept accepted_before websocket handshake with
                      | None => websocket :: accepted_before
                      | Some _ => accepted_before
                      end) calls'
  | _ :: calls' => accepted_after accepted_before calls'
  end.

(** A sequence of calls on the manager of the module, from
    [manager = ConnectionManager()] and sockets fresh from the
    framework. *)
Definition session (calls : list call) : ConnectionManager * list event :=
  run (answered [] calls) new.

Lemma answered_app calls1 : forall calls2 accepted_before,
  answered accepted_before (calls1 ++ calls2)
  = answered accepted_before calls1
    ++ answered (accepted_after accepted_before calls1) calls2.
Proof.
  induction calls1 as [|c calls1 IH]; intros calls2 acc; [reflexivity|].
  destruct c as [w h|w|sj ints m]; cbn [app answered accepted_after];
    now rewrite IH.
Qed.

(** With registered sockets among the accepted ones, no call registers a
    socket that is registered, and the registered stay among the
    accepted. *)
Lemma answered_fresh calls : forall accepted_before self,
  (forall c, In c (active_connections self) -> In c accepted_before) ->
  fresh_connects (answered accepted_before calls) self = true /\
  (forall c, In c (active_connections
                     (fst (run (answered accepted_before calls) self))) ->
             In c (accepted_after accepted_before calls)).
Proof.
  induction calls as [|c calls IH]; intros acc self Hsub.
  - cbn. auto.
  - destruct c as [w h|w|sj ints m]; cbn [answered accepted_after fresh_connects run].
    + unfold accept.
      destruct (contains w acc) eqn:Ew.
      * cbn [step connect snd fst andb].
        destruct (IH acc self Hsub) as [H1 H2].
        destruct (run (answered acc calls) self) as [self' tr].
        split; assumption.
      * apply contains_false_iff in Ew.
        destruct h as [e|]; cbn [step connect snd fst].
        -- destruct (IH acc self Hsub) as [H1 H2].
           destruct (run (answered acc calls) self) as [self' tr].
           split; assumption.
        -- assert (Hnew : contains w (active_connections self) = false).
           { apply contains_false_iff. intro H. apply Ew. now apply Hsub. }
           rewrite Hnew. cbn [negb andb].
           destruct (IH (w :: acc)
                        {| active_connections := active_connections self ++ [w] |})
             as [H1 H2].
           { cbn [active_connections]. intros c Hc.
             apply in_app_or in Hc. destruct Hc as [Hc|[<-|[]]].
             - right. now apply Hsub.
             - now left. }
           destruct (run (answered (w :: acc) calls) _) as [self' tr].
           split; assumption.
    + cbn [step andb].
      destruct (disconnect_sound w self) as (Hincl & _).
      destruct (disconnect w self) as [self1 tr1]. cbn [fst] in *.
      destruct (IH acc self1) as [H1 H2].
      { intros c Hc. apply Hsub. now apply Hincl. }
      destruct (run (answered acc calls) self1) as [self' tr].
      split; assumption.
    + cbn [step andb].
      pose proof (broadcast_live_sound sj ints m self) as (Hincl & _).
      destruct (broadcast_live sj ints m self) as [[r self1] tr1].
      cbn [fst snd] in *.
      destruct (IH acc self1) as [H1 H2].
      { intros c Hc. apply Hsub. now apply Hincl. }
      destruct (run (answered acc calls) self1) as [self' tr].
      split; assumption.
Qed.

(** A socket whose [accept] has returned is not registered again. *)
Lemma answered_registers calls : forall accepted_before websocket,
  In websocket accepted_before ->
  registers websocket (answered accepted_before calls) = false.
Proof.
  induction calls as [|c calls IH]; intros acc websocket Hin; [reflexivity|].
  destruct c as [w h|w|sj ints m]; cbn [answered registers]; try now apply IH.
  unfold accept. destruct (contains w acc) eqn:Ew.
  - now apply IH.
  - apply contains_false_iff in Ew. destruct h as [e|]; [now apply IH|].
    destruct (WebSocket_eq_dec w websocket) as [->|Hne]; [contradiction|].
    cbn [orb]. apply IH. now right.
Qed.

(** C7.  With the handshake of the framework, which [accept] completes at
    most once for a WebSocket, every sequence of connect, disconnect and
    broadcast calls keeps the registry free of duplicates; a second
    [connect] of a connection that has been registered leaves the
    registry as it is; and once a registered connection has been
    disconnected it is out of the registry for good, and no later call
    sends to it or removes it. *)
Theorem registry_never_duplicates (calls : list call) :
  NoDup (active_connections (fst (session calls))) /\
  (forall websocket again,
     fst (session (calls ++ [Connect websocket None; Connect websocket again]))
     = fst (session (calls ++ [Connect websocket None]))) /\
  (forall before websocket after,
     calls = before ++ Disconnect websocket :: after ->
     In websocket (active_connections (fst (session before))) ->
     ~ In websocket (active_connections (fst (session calls))) /\
     exists later,
       snd (session calls)
       = snd (session (before ++ [Disconnect websocket])) ++ later /\
       Forall (fun ev => connection_of ev <> websocket) later).
Proof.
  unfold session. split; [|split].
  - apply run_NoDup; [constructor|].
    apply (answered_fresh calls [] new). intros c [].
  - intros websocket again.
    rewrite !answered_app, !run_calls_app. cbn [fst].
    set (acc := accepted_after [] calls).
    set (self := fst (run (answered [] calls) new)).
    cbn [answered]. unfold accept.
    destruct (contains websocket acc) eqn:Ew.
    + rewrite Ew. reflexivity.
    + assert (Hnow : contains websocket (websocket :: acc) = true)
        by (apply contains_iff; now left).
      rewrite Hnow. reflexivity.
  - intros before websocket after -> Hin.
    destruct (answered_fresh before [] new) as [Hfresh Hacc];
      [intros c []|].
    pose proof (@run_NoDup (answered [] before) new (NoDup_nil _) Hfresh)
      as Hnd.
    assert (Hsplit : answered [] (before ++ Disconnect websocket :: after)
                     = answered [] (before ++ [Disconnect websocket])
                       ++ answered (accepted_after [] before) after).
    { replace (before ++ Disconnect websocket :: after)
        with ((before ++ [Disconnect websocket]) ++ after)
        by (rewrite <- app_assoc; reflexivity).
      rewrite (answered_app (before ++ [Disconnect websocket])).
      f_equal. f_equal.
      clear. generalize (@nil WebSocket).
      induction before as [|c before IH]; intro acc; [reflexivity|].
      destruct c; cbn [app accepted_after]; apply IH. }
    rewrite Hsplit, run_calls_app. cbn [fst snd].
    destruct (@run_absent (answered (accepted_after [] before) after)
                (fst (run (answered [] (before ++ [Disconnect websocket])) new))
                websocket) as [Hout Hlater].
    + rewrite answered_app, run_calls_app. cbn [fst answered run step].
      destruct (disconnect_sound websocket (fst (run (answered [] before) new)))
        as (_ & Hgone & _).
      destruct (disconnect websocket (fst (run (answered [] before) new)))
        as [s1 tr1]. cbn [fst] in *. now apply Hgone.
    + apply answered_registers. now apply Hacc.
    + split; [exact Hout|]. eexists. split; [reflexivity | exact Hlater].
Qed.

End Manager.

Arguments new {WebSocket}.
Arguments Connect {WebSocket json} websocket accepted.
Arguments Disconnect {WebSocket json} websocket.
Arguments Broadcast {WebSocket json} send_json interrupts message.
Arguments Removed {WebSocket json} connection.

(** Three subscribers; the second one's socket is closed. *)
Definition second_is_closed (c : nat) (_ : string) : option exn :=
  if Nat.eqb c 2 then Some WebSocketDisconnect else None.

(** Subscribers whose sends always return. *)
Definition all_open (_ : nat) (_ : string) : option exn := None.

(** A pass that nothing interrupts, when the second of three subscribers
    fails: the first and third are sent the message and stay, the second
    is dropped after the pass. *)
Example broadcast_second_is_closed :
  broadcast Nat.eq_dec second_is_closed "state"%string
            (mkManager [1; 2; 3]%nat)
  = (Return tt, mkManager [1; 3]%nat,
     [Sent 1%nat "state"%string;
      SendFailed 2%nat "state"%string WebSocketDisconnect;
      Sent 3%nat "state"%string;
      Removed 2%nat]).
Proof. reflexivity. Qed.

(** Three subscribers; the client of the first has left: the send to it
    fails. *)
Definition first_has_left (c : nat) (_ : string) : option exn :=
  if Nat.eqb c 1 then Some WebSocketDisconnect else None.

(** C1 does not hold of the pass as it runs.  The first of three
    subscribers has left, and while the send to it is awaited its handler
    calls [disconnect]: the list shifts under the index of the loop, the
    second subscriber, whose send would return and which stays
    registered, is never sent the message, and only the third is. *)
Theorem broadcast_skips_live_connection :
  broadcast_live Nat.eq_dec first_has_left [[1%nat]] "state"%string
                 (mkManager [1; 2; 3]%nat)
  = (Return tt, mkManager [2; 3]%nat,
     [Removed 1%nat;
      SendFailed 1%nat "state"%string WebSocketDisconnect;
      Sent 3%nat "state"%string]) /\
  first_has_left 2%nat "state"%string = None /\
  In 2%nat (active_connections
              (snd (fst (broadcast_live Nat.eq_dec first_has_left [[1%nat]]
                           "state"%string (mkManager [1; 2; 3]%nat))))) /\
  ~ In (Sent 2%nat "state"%string)
       (snd (broadcast_live Nat.eq_dec first_has_left [[1%nat]]
               "state"%string (mkManager [1; 2; 3]%nat))).
Proof.
  split; [reflexivity|]. split; [reflexivity|]. split.
  - cbn. auto.
  - cbn. intros [H|[H|[H|[]]]]; discriminate H.
Qed.

(** The same broadcast when no handler runs meanwhile: the second and
    the third subscriber are sent the message. *)
Example broadcast_first_has_left :
  broadcast_live Nat.eq_dec first_has_left [] "state"%string
                 (mkManager [1; 2; 3]%nat)
  = (Return tt, mkManager [2; 3]%nat,
     [SendFailed 1%nat "state"%string WebSocketDisconnect;
      Sent 2%nat "state"%string;
      Sent 3%nat "state"%string;
      Removed 1%nat]).
Proof. reflexivity. Qed.

(** Two subscribers connect, the first leaves, a broadcast follows. *)
Definition one_leaves : list (call nat string) :=
  [Connect 1%nat None; Connect 2%nat None; Disconnect 1%nat;
   Broadcast all_open [] "state"%string].

(** That session: only the second subscriber is sent to. *)
Example one_leaves_run :
  session Nat.eq_dec one_leaves
  = (mkManager [2%nat], [Removed 1%nat; Sent 2%nat "state"%string]).
Proof. reflexivity. Qed.

(** [connect] twice on one WebSocket: the second [accept] raises and the
    registry holds the socket once; after its [disconnect] a broadcast
    sends nothing. *)
Definition connected_twice : list (call nat string) :=
  [Connect 7%nat None; Connect 7%nat None; Disconnect 7%nat;
   Broadcast all_open [] "state"%string].

Example connected_twice_run :
  fst (session Nat.eq_dec (firstn 2 connected_twice)) = mkManager [7%nat] /\
  session Nat.eq_dec connected_twice = (mkManager [], [Removed 7%nat]).
Proof. split; reflexivity. Qed.

End Registry.

(* ================================================================== *)
(** ** Frames, JSON values and the effects of ingestion *)
(* ================================================================== *)

Module Frame.

Local Open Scope string_scope.

(** A JSON value, as [json.loads] builds it and [JSONResponse] sends it.
    A Python [dict] is the list of its items. *)
#[warnings="-register-all"]
Inductive json : Type :=
| JNull
| JBool (b : bool)
| JNum (q : Q)
| JStr (s : string)
| JList (items : list json)
| JDict (items : list (string * json)).

(** An image as a [numpy.ndarray]: its shape and its bytes. *)
Record ndarray : Type := mkArray {
  rows : nat;
  cols : nat;
  pixels : list Byte.byte
}.

(** What ingestion does besides returning: the transport decoding, the
    image decoding, the call of the engine, a call of the limiter and a
    message sent on the WebSocket. *)
Inductive event : Type :=
| B64Decode (b64_data : string)
| ImDecode (raw_bytes : list Byte.byte)
| Dispatch (image : ndarray) (user_id module_id : string)
           (section_id : option string)
| Consumed (allowed : bool)
| Reply (message : json).

(** A computation that returns or raises, with the events it performed. *)
Definition M (A : Type) : Type := outcome A * list event.

Definition ret {A : Type} (a : A) : M A := (Return a, []).

Definition raise {A : Type} (e : exn) : M A := (Raise e, []).

Definition emit (ev : event) : M unit := (Return tt, [ev]).

Definition bind {A B : Type} (m : M A) (k : A -> M B) : M B :=
  match m with
  | (Return a, tr) => let (r, tr') := k a in (r, (tr ++ tr')%list)
  | (Raise e, tr) => (Raise e, tr)
  end.

(** [try: m except Exception as e: handler e]. *)
Definition except_Exception {A : Type} (m : M A) (handler : exn -> M A) : M A :=
  match m with
  | (Raise e, tr) =>
      if is_Exception e
      then let (r, tr') := handler e in (r, (tr ++ tr')%list)
      else (Raise e, tr)
  | returned => returned
  end.

Notation "x <- m ;; k" := (bind m (fun x => k))
  (at level 61, m at next level, right associativity).
Notation "m ;;; k" := (bind m (fun _ => k))
  (at level 61, right associativity).

(** Truth value of an [Optional[str]]: [None] and [""] are false. *)
Definition truthy (s : option string) : bool :=
  match s with
  | None => false
  | Some EmptyString => false
  | Some (String _ _) => true
  end.

(** Python's [a or b] on [Optional[str]]. *)
Definition or_else (a b : option string) : option string :=
  if truthy a then a else b.

(** [s.split(sep, 1)] when it yields two parts. *)
Fixpoint split_once (sep : ascii) (s : string) : option (string * string) :=
  match s with
  | EmptyString => None
  | String c s' =>
      if Ascii.eqb c sep then Some (EmptyString, s')
      else match split_once sep s' with
           | Some (head, tail) => Some (String c head, tail)
           | None => None
           end
  end.

(** [d.get(key)] on a [dict]. *)
Fixpoint dict_get (key : string) (items : list (string * json)) : json :=
  match items with
  | [] => JNull
  | (k, v) :: items' => if String.eqb k key then v else dict_get key items'
  end.

(** [str(e)] *)
Definition str (e : exn) : string :=
  match e with
  | HTTPException _ detail => detail
  | ValueError msg | RuntimeError msg | AttributeError msg => msg
  | WebSocketDisconnect | CancelledError => EmptyString
  end.

(** [Optional[str]] as JSON. *)
Definition json_of_opt (s : option string) : json :=
  match s with
  | Some s => JStr s
  | None => JNull
  end.

(** The events of the pipeline proper: decoding and dispatch. *)
Definition is_pipeline (ev : event) : bool :=
  match ev with
  | B64Decode _ | ImDecode _ | Dispatch _ _ _ _ => true
  | Consumed _ | Reply _ => false
  end.

Definition is_dispatch (ev : event) : bool :=
  match ev with
  | Dispatch _ _ _ _ => true
  | _ => false
  end.

Definition is_imdecode (ev : event) : bool :=
  match ev with
  | ImDecode _ => true
  | _ => false
  end.

(** A trace is gated when every pipeline event of a frame comes after a
    call of the limiter that allowed that frame: [admitted] tells whether
    the limiter has allowed the frame in progress; a reply ends the
    frame. *)
Fixpoint gated (admitted : bool) (tr : list event) : bool :=
  match tr with
  | [] => true
  | Consumed allowed :: tr' => gated allowed tr'
  | Reply _ :: tr' => gated false tr'
  | _ :: tr' => admitted && gated admitted tr'
  end.

Lemma bind_trace (A B : Type) (m : M A) (k : A -> M B) :
  snd (bind m k) =
  match fst m with
  | Return a => (snd m ++ snd (k a))%list
  | Raise _ => snd m
  end.
Proof.
  destruct m as [[a|e] tr]; cbn; [|reflexivity].
  now destruct (k a).
Qed.

Lemma bind_outcome (A B : Type) (m : M A) (k : A -> M B) :
  fst (bind m k) =
  match fst m with
  | Return a => fst (k a)
  | Raise e => Raise e
  end.
Proof.
  destruct m as [[a|e] tr]; cbn; [|reflexivity].
  now destruct (k a).
Qed.

Lemma gated_pipeline tr : forall rest,
  Forall (fun ev => is_pipeline ev = true) tr ->
  gated true (tr ++ rest) = gated true rest.
Proof.
  induction tr as [|ev tr IH]; intros rest H; [reflexivity|].
  inversion H as [|? ? Hev Htr]; subst.
  destruct ev; try discriminate Hev; cbn; now apply IH.
Qed.

(** The engine is only called with a user and a module. *)
Definition has_ids (ev : event) : Prop :=
  match ev with
  | Dispatch _ user_id module_id _ =>
      user_id <> EmptyString /\ module_id <> EmptyString
  | _ => True
  end.

Lemma truthy_Some (o : option string) :
  truthy o = true ->
  o = Some (match o with Some s => s | None => EmptyString end) /\
  match o with Some s => s | None => EmptyString end <> EmptyString.
Proof.
  destruct o as [[|c s]|]; cbn; intro H; try discriminate H.
  split; [reflexivity | discriminate].
Qed.

End Frame.

(* ================================================================== *)
(** ** The ingestion pipeline of [web_stream_service.py] *)
(* ================================================================== *)

Module WebStream.

Import Frame.
Local Open Scope string_scope.
Local Open Scope Z_scope.

(** The fields of [Settings] the pipeline reads. *)
Record Settings : Type := mkSettings {
  max_frame_kb : Z;
  max_client_fps : Z;
  browser_streaming_enabled : bool
}.

(** [class FramePayload(BaseModel)]. *)
Record FramePayload : Type := mkPayload {
  frame_id : string;
  user_id : option string;
  module_id : option string;
  section_id : option string;
  timestamp : Q;
  fps : option Q;
  frame_base64 : string
}.

Section Pipeline.

Variable settings : Settings.

(** [base64.b64decode]: [None] when it raises [binascii.Error]. *)
Variable b64decode : string -> option (list Byte.byte).

(** Whether [import cv2] succeeds. *)
Variable cv2_installed : bool.

(** [cv2.imdecode(np_arr, cv2.IMREAD_COLOR)] on the buffers it answers:
    [None] when it returns [None]. *)
Variable imdecode : list Byte.byte -> option ndarray.

(** [browser_tracker.process_remote_frame]: the pair [(status,
    frame_data)] or the exception of the engine. *)
Variable process_remote_frame :
  ndarray -> string -> string -> option string -> outcome (json * json).

(** The [FramePayload] built from [json.loads(message)], or the
    exception of the parser or of the validation. *)
Variable parse_payload : string -> outcome FramePayload.

(** [decode_frame(data_url)]. *)
Definition decode_frame (data_url : string) : M ndarray :=
  match split_once "," data_url with
  | None => raise (ValueError "not enough values to unpack (expected 2, got 1)")
  | Some (header, b64_data) =>
      emit (B64Decode b64_data) ;;;
      match b64decode b64_data with
      | None => raise (ValueError "Incorrect padding")
      | Some raw_bytes =>
          let max_bytes := max_frame_kb settings * 1024 in
          if Z.of_nat (List.length raw_bytes) >? max_bytes
          then raise (HTTPException 413 "Frame exceeds size limit")
          else
            if cv2_installed
            then
              emit (ImDecode raw_bytes) ;;;
              match imdecode raw_bytes with
              | None => raise (ValueError "cv2.imdecode returned None")
              | Some image => ret image
              end
            else raise (HTTPException 500 "cv2 missing")
      end
  end.

(** [status.get("metrics")]. *)
Definition status_get_metrics (status : json) : M json :=
  match status with
  | JDict items => ret (dict_get "metrics" items)
  | _ => raise (AttributeError "object has no attribute 'get'")
  end.

(** [process_frame(payload)]. *)
Definition process_frame (payload : FramePayload) : M json :=
  if negb (browser_streaming_enabled settings)
  then raise (HTTPException 503
    "Browser streaming disabled. Please fall back to the local Flask service.")
  else
    if negb (truthy (user_id payload)) || negb (truthy (module_id payload))
    then raise (HTTPException 400 "user_id and module_id are required.")
    else
      image <- decode_frame (frame_base64 payload) ;;
      let uid := match user_id payload with Some u => u | None => "" end in
      let mid := match module_id payload with Some m => m | None => "" end in
      emit (Dispatch image uid mid (section_id payload)) ;;;
      match process_remote_frame image uid mid (section_id payload) with
      | Raise e => raise e
      | Return (status, frame_data) =>
          metrics <- status_get_metrics status ;;
          ret (JDict [("success", JBool true);
                      ("frame_id", JStr (frame_id payload));
                      ("user_id", json_of_opt (user_id payload));
                      ("module_id", json_of_opt (module_id payload));
                      ("section_id", json_of_opt (section_id payload));
                      ("timestamp", JNum (timestamp payload));
                      ("status", status);
                      ("metrics", metrics);
                      ("current_frame", frame_data)])
      end.

(** [ingest_frame(payload)], the handler of [POST /api/frames] and
    [POST /api/stream-frame]. *)
Definition ingest_frame (payload : FramePayload) : M json :=
  result <- process_frame payload ;;
  ret result.

(** The [while True] loop of [websocket_frames]: [messages] are the
    texts [receive_text()] returns before the client disconnects, each
    with the value [time.monotonic()] has when the limiter is asked. *)
Fixpoint websocket_loop (messages : list (Q * string))
  (limiter : Limiter.WebSocketLimiter) : M unit :=
  match messages with
  | [] => ret tt
  | (current, message) :: messages' =>
      match parse_payload message with
      | Raise exc =>
          if is_Exception exc
          then
            emit (Reply (JDict [("error",
                                 JStr ("Invalid payload: " ++ str exc))])) ;;;
            websocket_loop messages' limiter
          else raise exc
      | Return payload =>
          let (allowed, limiter') := Limiter.consume current limiter in
          emit (Consumed allowed) ;;;
          if negb allowed
          then
            emit (Reply (JDict [("error", JStr "Rate limit exceeded")])) ;;;
            websocket_loop messages' limiter'
          else
            result <- process_frame payload ;;
            emit (Reply result) ;;;
            websocket_loop messages' limiter'
      end
  end.

(** [websocket_frames(websocket, limiter)] with the limiter that
    [websocket_settings] builds; [now] is [time.monotonic()] then.  The
    handshake and the sends are taken to return; the
    [WebSocketDisconnect] that ends the loop is caught and logged. *)
Definition websocket_frames (now : Q) (messages : list (Q * string)) : M unit :=
  websocket_loop messages (Limiter.init (max_client_fps settings) now).

(** The limit on raw bytes, [settings.max_frame_kb * 1024]. *)
Definition max_bytes : Z := max_frame_kb settings * 1024.

(** An event respects the size limit: an image decoding is of at most
    [max_bytes] bytes and a dispatched raster was decoded from at most
    [max_bytes] bytes. *)
Definition within_limit (ev : event) : Prop :=
  match ev with
  | ImDecode raw_bytes => Z.of_nat (List.length raw_bytes) <= max_bytes
  | Dispatch image _ _ _ =>
      exists raw_bytes,
        imdecode raw_bytes = Some image /\
        Z.of_nat (List.length raw_bytes) <= max_bytes
  | _ => True
  end.

(** *** Unfolding the pipeline *)

Lemma decode_frame_sound data_url :
  Forall (fun ev => is_pipeline ev = true /\ is_dispatch ev = false /\
                    within_limit ev)
         (snd (decode_frame data_url)) /\
  (forall image, fst (decode_frame data_url) = Return image ->
     exists raw_bytes,
       imdecode raw_bytes = Some image /\
       Z.of_nat (List.length raw_bytes) <= max_bytes).
Proof.
  unfold decode_frame.
  destruct (split_once "," data_url) as [[header b64_data]|]; cbn.
  2:{ split; [constructor | discriminate]. }
  destruct (b64decode b64_data) as [raw_bytes|]; cbn.
  2:{ split; [repeat constructor | discriminate]. }
  destruct (Z.of_nat (List.length raw_bytes) >? max_frame_kb settings * 1024)
    eqn:Esize; cbn.
  { split; [repeat constructor | discriminate]. }
  assert (Hsize : Z.of_nat (List.length raw_bytes) <= max_bytes).
  { unfold max_bytes. rewrite Z.gtb_ltb in Esize.
    apply Z.ltb_ge in Esize. exact Esize. }
  destruct cv2_installed; cbn.
  2:{ split; [repeat constructor | discriminate]. }
  destruct (imdecode raw_bytes) as [image|] eqn:Eim; cbn.
  - split; [repeat constructor; exact Hsize|].
    intros image' H. inversion H; subst. now exists raw_bytes.
  - split; [repeat constructor; exact Hsize | discriminate].
Qed.

(** A data URL whose raw bytes exceed the limit is refused with a 413
    after the transport decoding and before the image decoding. *)
Lemma decode_frame_oversized data_url header b64_data raw_bytes :
  split_once "," data_url = Some (header, b64_data) ->
  b64decode b64_data = Some raw_bytes ->
  Z.of_nat (List.length raw_bytes) > max_bytes ->
  decode_frame data_url =
  (Raise (HTTPException 413 "Frame exceeds size limit"), [B64Decode b64_data]).
Proof.
  intros Hsplit Hb64 Hsize. unfold decode_frame.
  rewrite Hsplit. cbn. rewrite Hb64.
  replace (Z.of_nat (List.length raw_bytes) >? max_frame_kb settings * 1024)
    with true; [reflexivity|].
  symmetry. apply Z.gtb_lt. unfold max_bytes in Hsize. lia.
Qed.

Lemma process_frame_disabled payload :
  browser_streaming_enabled settings = false ->
  process_frame payload =
  (Raise (HTTPException 503
     "Browser streaming disabled. Please fall back to the local Flask service."),
   []).
Proof.
  intro Hoff. unfold process_frame. now rewrite Hoff.
Qed.

Lemma process_frame_missing_ids payload :
  browser_streaming_enabled settings = true ->
  truthy (user_id payload) = false \/ truthy (module_id payload) = false ->
  process_frame payload =
  (Raise (HTTPException 400 "user_id and module_id are required."), []).
Proof.
  intros Hon Hmissing. unfold process_frame. rewrite Hon. cbn [negb].
  replace (negb (truthy (user_id payload)) || negb (truthy (module_id payload)))%bool
    with true; [reflexivity|].
  destruct Hmissing as [-> | ->]; cbn; [reflexivity|].
  now rewrite orb_true_r.
Qed.

(** [process_frame] performs pipeline events only, each within the limit,
    and dispatches at most once, last. *)
Lemma process_frame_sound payload :
  Forall (fun ev => is_pipeline ev = true /\ within_limit ev)
         (snd (process_frame payload)).
Proof.
  unfold process_frame.
  destruct (browser_streaming_enabled settings); cbn [negb]; [|constructor].
  destruct (negb (truthy (user_id payload)) || negb (truthy (module_id payload)))%bool;
    [constructor|].
  destruct (decode_frame_sound (frame_base64 payload)) as [Htr Hret].
  destruct (decode_frame (frame_base64 payload)) as [[image|e] tr];
    cbn [bind fst snd] in Htr, Hret |- *.
  2:{ eapply Forall_impl; [|exact Htr]. intros ev H; split; apply H. }
  specialize (Hret image eq_refl).
  match goal with
  | |- context [process_remote_frame ?i ?u ?m ?s] =>
      destruct (process_remote_frame i u m s) as [[status frame_data]|e]
  end; cbn.
  - destruct status; cbn;
      (apply Forall_app; split;
       [eapply Forall_impl; [|exact Htr]; intros ev H; split; apply H
       | repeat constructor; exact Hret]).
  - apply Forall_app; split;
      [eapply Forall_impl; [|exact Htr]; intros ev H; split; apply H
      | repeat constructor; exact Hret].
Qed.

Lemma process_frame_pipeline payload :
  Forall (fun ev => is_pipeline ev = true) (snd (process_frame payload)).
Proof.
  eapply Forall_impl; [|apply process_frame_sound]. intros ev H; apply H.
Qed.

(** *** The WebSocket loop *)

(** Every frame of the loop is gated by the limiter. *)
Lemma websocket_loop_gated messages : forall limiter,
  gated false (snd (websocket_loop messages limiter)) = true.
Proof.
  induction messages as [|[current message] messages IH]; intros limiter;
    [reflexivity|].
  cbn [websocket_loop].
  destruct (parse_payload message) as [payload|exc].
  - destruct (Limiter.consume current limiter) as [allowed limiter'].
    rewrite bind_trace. cbn [emit fst snd app gated].
    destruct allowed; cbn [negb].
    + rewrite bind_trace.
      pose proof (process_frame_pipeline payload) as Hpipe.
      destruct (process_frame payload) as [[result|e] tr]; cbn [fst snd] in *.
      * rewrite gated_pipeline by exact Hpipe.
        rewrite bind_trace. cbn [emit fst snd app gated]. apply IH.
      * rewrite <- (app_nil_r tr). now rewrite gated_pipeline.
    + rewrite bind_trace. cbn [emit fst snd app gated]. apply IH.
  - destruct (is_Exception exc); [|reflexivity].
    rewrite bind_trace. cbn [emit fst snd app gated]. apply IH.
Qed.

(** No frame above the limit is decoded or dispatched by the loop. *)
Lemma websocket_loop_within_limit messages : forall limiter,
  Forall within_limit (snd (websocket_loop messages limiter)).
Proof.
  induction messages as [|[current message] messages IH]; intros limiter;
    [constructor|].
  cbn [websocket_loop].
  destruct (parse_payload message) as [payload|exc].
  - destruct (Limiter.consume current limiter) as [allowed limiter'].
    rewrite bind_trace. cbn [emit fst snd app].
    constructor; [exact I|].
    destruct allowed; cbn [negb].
    + rewrite bind_trace.
      pose proof (process_frame_sound payload) as Hpf.
      assert (Hlim : Forall within_limit (snd (process_frame payload))).
      { eapply Forall_impl; [|exact Hpf]. cbn beta. tauto. }
      destruct (process_frame payload) as [[result|e] tr]; cbn [fst snd] in *;
        [|exact Hlim].
      apply Forall_app. split; [exact Hlim|].
      rewrite bind_trace. cbn [emit fst snd app].
      constructor; [exact I | apply IH].
    + rewrite bind_trace. cbn [emit fst snd app].
      constructor; [exact I | apply IH].
  - destruct (is_Exception exc); [|constructor].
    rewrite bind_trace. cbn [emit fst snd app].
    constructor; [exact I | apply IH].
Qed.

(** With streaming disabled the loop never enters the pipeline, and the
    first frame the limiter allows ends it with the 503. *)
Lemma websocket_loop_disabled messages : forall limiter,
  browser_streaming_enabled settings = false ->
  Forall (fun ev => is_pipeline ev = false)
         (snd (websocket_loop messages limiter)) /\
  (In (Consumed true) (snd (websocket_loop messages limiter)) ->
   exists detail,
     fst (websocket_loop messages limiter)
     = Raise (HTTPException 503 detail)).
Proof.
  intros limiter Hoff. revert limiter.
  induction messages as [|[current message] messages IH]; intros limiter.
  - split; [constructor | intros []].
  - cbn [websocket_loop].
    destruct (parse_payload message) as [payload|exc].
    + destruct (Limiter.consume current limiter) as [allowed limiter'].
      rewrite bind_trace, bind_outcome. cbn [emit fst snd app].
      destruct allowed; cbn [negb].
      * rewrite (process_frame_disabled payload Hoff). cbn.
        split; [repeat constructor | intros _; eexists; reflexivity].
      * rewrite bind_trace, bind_outcome. cbn [emit fst snd app].
        destruct (IH limiter') as [IHtr IHr].
        split; [repeat constructor; exact IHtr|].
        intros [H|[H|H]]; try discriminate H. now apply IHr.
    + destruct (is_Exception exc).
      * rewrite bind_trace, bind_outcome. cbn [emit fst snd app].
        destruct (IH limiter) as [IHtr IHr].
        split; [repeat constructor; exact IHtr|].
        intros [H|H]; [discriminate H | now apply IHr].
      * cbn. split; [constructor | intros []].
Qed.

(** The engine is only called with the user and the module of the
    payload. *)
Lemma process_frame_has_ids payload :
  Forall has_ids (snd (process_frame payload)).
Proof.
  unfold process_frame.
  destruct (browser_streaming_enabled settings); cbn [negb]; [|constructor].
  destruct (truthy (user_id payload)) eqn:Eu; cbn [negb orb]; [|constructor].
  destruct (truthy (module_id payload)) eqn:Em; cbn [negb orb]; [|constructor].
  apply truthy_Some in Eu, Em.
  destruct (decode_frame_sound (frame_base64 payload)) as [Htr _].
  assert (Hids : Forall has_ids (snd (decode_frame (frame_base64 payload)))).
  { eapply Forall_impl; [|exact Htr].
    intros ev (_ & Hev & _). destruct ev; try exact I. discriminate Hev. }
  destruct (decode_frame (frame_base64 payload)) as [[image|e] tr];
    cbn [bind fst snd] in *; [|exact Hids].
  match goal with
  | |- context [process_remote_frame ?i ?u ?m ?s] =>
      destruct (process_remote_frame i u m s) as [[status frame_data]|e]
  end; cbn.
  - destruct status; cbn;
      (apply Forall_app; split; [exact Hids|]);
      repeat constructor; try apply Eu; try apply Em.
  - apply Forall_app; split; [exact Hids|].
    repeat constructor; [apply Eu | apply Em].
Qed.

Lemma ingest_frame_eq payload :
  ingest_frame payload = process_frame payload.
Proof.
  unfold ingest_frame.
  destruct (process_frame payload) as [[result|e] tr]; cbn; [|reflexivity].
  now rewrite app_nil_r.
Qed.

(** A payload whose raw bytes exceed the limit is refused before the
    image decoding: by the 503 or the 400 before any decoding, or by the
    413 of [decode_frame]. *)
Lemma process_frame_oversized payload header b64_data raw_bytes :
  split_once "," (frame_base64 payload) = Some (header, b64_data) ->
  b64decode b64_data = Some raw_bytes ->
  Z.of_nat (List.length raw_bytes) > max_bytes ->
  (exists code detail,
     fst (process_frame payload) = Raise (HTTPException code detail) /\
     (code = 503 \/ code = 400 \/ code = 413)) /\
  Forall (fun ev => is_imdecode ev = false /\ is_dispatch ev = false)
         (snd (process_frame payload)).
Proof.
  intros Hsplit Hb64 Hsize. unfold process_frame.
  destruct (browser_streaming_enabled settings); cbn [negb].
  2:{ split; [do 2 eexists; split; [reflexivity | auto] | constructor]. }
  destruct (negb (truthy (user_id payload)) || negb (truthy (module_id payload)))%bool.
  { split; [do 2 eexists; split; [reflexivity | auto] | constructor]. }
  rewrite (decode_frame_oversized _ Hsplit Hb64 Hsize). cbn.
  split; [do 2 eexists; split; [reflexivity | auto] | repeat constructor].
Qed.

End Pipeline.

End WebStream.

(* ================================================================== *)
(** ** [receive_browser_frame] of [fastapi_service.py] *)
(* ================================================================== *)

Module FastApi.

Import Frame.
Local Open Scope string_scope.
Local Open Scope Z_scope.

(** [class FramePayload(BaseModel)] of this service. *)
Record FramePayload : Type := mkPayload {
  frame_id : option string;
  user_id : option string;
  module_id : option string;
  section_id : option string;
  timestamp : option Q;
  fps : option Q;
  frame_base64 : string
}.

(** The attributes of the global [eye_tracker] the handler reads. *)
Record EyeTrackingService : Type := mkTracker {
  current_user_id : option string;
  current_module_id : option string;
  current_section_id : option string
}.

Section Handler.

(** The global [eye_tracker]: [None] until [lifespan] has set it. *)
Variable eye_tracker : option EyeTrackingService.

Variable b64decode : string -> option (list Byte.byte).
Variable imdecode : list Byte.byte -> option ndarray.

(** [eye_tracker.process_remote_frame]. *)
Variable process_remote_frame :
  ndarray -> string -> string -> option string -> outcome (json * json).

(** The inner [try] block: the frame decoded from the data URL. *)
Definition decode (payload : FramePayload) : M ndarray :=
  match split_once "," (frame_base64 payload) with
  | None => raise (ValueError "not enough values to unpack (expected 2, got 1)")
  | Some (header, b64_data) =>
      emit (B64Decode b64_data) ;;;
      match b64decode b64_data with
      | None => raise (ValueError "Incorrect padding")
      | Some raw_bytes =>
          emit (ImDecode raw_bytes) ;;;
          match imdecode raw_bytes with
          | None => raise (ValueError "Failed to decode image")
          | Some frame => ret frame
          end
      end
  end.

(** [payload.timestamp or time.time()]; [now] is [time.time()]. *)
Definition timestamp_or (now : Q) (t : option Q) : Q :=
  match t with
  | Some q => if Qeq_bool q 0 then now else q
  | None => now
  end.

(** The body of the outer [try] block. *)
Definition receive_body (now : Q) (payload : FramePayload) : M json :=
  match eye_tracker with
  | None => raise (HTTPException 503 "Eye tracking service not initialized")
  | Some tracker =>
      frame <- except_Exception (decode payload)
                 (fun e => raise (HTTPException 400
                                    ("Invalid frame data: " ++ str e))) ;;
      let user_id := or_else (user_id payload) (current_user_id tracker) in
      let module_id := or_else (module_id payload) (current_module_id tracker) in
      let section_id :=
        or_else (section_id payload) (current_section_id tracker) in
      if negb (truthy user_id) || negb (truthy module_id)
      then raise (HTTPException 400 "user_id and module_id are required")
      else
        let uid := match user_id with Some u => u | None => "" end in
        let mid := match module_id with Some m => m | None => "" end in
        emit (Dispatch frame uid mid section_id) ;;;
        match process_remote_frame frame uid mid section_id with
        | Raise e => raise e
        | Return (status, frame_data) =>
            ret (JDict [("success", JBool true);
                        ("frame_id", json_of_opt (frame_id payload));
                        ("user_id", json_of_opt user_id);
                        ("module_id", json_of_opt module_id);
                        ("section_id", json_of_opt section_id);
                        ("timestamp", JNum (timestamp_or now (timestamp payload)));
                        ("status", status);
                        ("metrics",
                         match status with
                         | JDict items => dict_get "metrics" items
                         | _ => JNull
                         end);
                        ("current_frame", frame_data)])
        end
  end.

(** [receive_browser_frame(payload)], the handler of [POST /api/frames]:
    an [HTTPException] is raised again, any other [Exception] becomes a
    500. *)
Definition receive_browser_frame (now : Q) (payload : FramePayload) : M json :=
  except_Exception (receive_body now payload)
    (fun e => if is_HTTPException e then raise e
              else raise (HTTPException 500 (str e))).

(** *** Unfolding the handler *)

(** The inner [try] block raises [ValueError]s only and never calls the
    engine. *)
Lemma decode_sound payload :
  Forall (fun ev => is_dispatch ev = false) (snd (decode payload)) /\
  (forall e, fst (decode payload) = Raise e -> is_Exception e = true).
Proof.
  unfold decode.
  destruct (split_once "," (frame_base64 payload)) as [[header b64_data]|]; cbn.
  2:{ split; [constructor | intros e H; inversion H; reflexivity]. }
  destruct (b64decode b64_data) as [raw_bytes|]; cbn.
  2:{ split; [repeat constructor | intros e H; inversion H; reflexivity]. }
  destruct (imdecode raw_bytes) as [frame|]; cbn.
  - split; [repeat constructor | discriminate].
  - split; [repeat constructor | intros e H; inversion H; reflexivity].
Qed.

(** Without a tracker the handler answers 503 at once. *)
Lemma receive_uninitialized now payload :
  eye_tracker = None ->
  receive_browser_frame now payload =
  (Raise (HTTPException 503 "Eye tracking service not initialized"), []).
Proof.
  intro Hnone. unfold receive_browser_frame, receive_body.
  now rewrite Hnone.
Qed.

(** When neither the payload nor the tracker names the user or the
    module, the handler answers 400 and the engine is not called. *)
Lemma receive_missing_ids now payload tracker :
  eye_tracker = Some tracker ->
  truthy (or_else (user_id payload) (current_user_id tracker)) = false \/
  truthy (or_else (module_id payload) (current_module_id tracker)) = false ->
  (exists detail,
     fst (receive_browser_frame now payload)
     = Raise (HTTPException 400 detail)) /\
  Forall (fun ev => is_dispatch ev = false)
         (snd (receive_browser_frame now payload)).
Proof.
  intros Htracker Hmissing.
  unfold receive_browser_frame, receive_body. rewrite Htracker.
  destruct (decode_sound payload) as [Htr Hexc].
  destruct (decode payload) as [[frame|e] tr]; cbn [fst snd] in *.
  - cbn [except_Exception bind].
    replace (negb (truthy (or_else (user_id payload) (current_user_id tracker)))
             || negb (truthy (or_else (module_id payload)
                                      (current_module_id tracker))))%bool
      with true.
    2:{ destruct Hmissing as [-> | ->]; cbn; [reflexivity|].
        now rewrite orb_true_r. }
    cbn. rewrite !app_nil_r.
    split; [eexists; reflexivity | exact Htr].
  - cbn [except_Exception]. rewrite (Hexc e eq_refl).
    cbn. rewrite !app_nil_r.
    split; [eexists; reflexivity | exact Htr].
Qed.

(** Whatever the payload, the engine is called with a user and a module. *)
Lemma receive_dispatch_has_ids now payload :
  Forall has_ids (snd (receive_browser_frame now payload)).
Proof.
  unfold receive_browser_frame, receive_body.
  destruct eye_tracker as [tracker|]; [|constructor].
  destruct (decode_sound payload) as [Htr Hexc].
  assert (Hids : Forall has_ids (snd (decode payload))).
  { eapply Forall_impl; [|exact Htr].
    intros ev Hev. destruct ev; try exact I. discriminate Hev. }
  destruct (decode payload) as [[frame|e] tr]; cbn [fst snd] in *.
  - cbn [except_Exception bind].
    destruct (truthy (or_else (user_id payload) (current_user_id tracker)))
      eqn:Eu; cbn [negb orb].
    2:{ cbn. now rewrite !app_nil_r. }
    destruct (truthy (or_else (module_id payload) (current_module_id tracker)))
      eqn:Em; cbn [negb orb].
    2:{ cbn. now rewrite !app_nil_r. }
    apply truthy_Some in Eu, Em.
    match goal with
    | |- context [process_remote_frame ?i ?u ?m ?s] =>
        destruct (process_remote_frame i u m s) as [[status frame_data]|e]
    end.
    + cbn. apply Forall_app. split; [exact Hids|].
      repeat constructor; [apply Eu | apply Em].
    + cbn. destruct (is_Exception e); cbn;
        [destruct (is_HTTPException e); cbn|];
        rewrite ?app_nil_r; (apply Forall_app; split; [exact Hids|]);
        repeat constructor; try apply Eu; try apply Em.
  - cbn [except_Exception]. rewrite (Hexc e eq_refl). cbn.
    now rewrite !app_nil_r.
Qed.

End Handler.

End FastApi.

(* ================================================================== *)
(** ** Base64 *)
(* ================================================================== *)

(** [base64.b64decode] of the Python library, as [binascii.a2b_base64]
    decodes the standard alphabet when it does not validate: characters
    outside the alphabet are skipped, four characters give three bytes,
    and padding closes a group of two or three. *)
Module Base64.

Local Open Scope N_scope.

(** The value of a character of the alphabet. *)
Definition sextet (c : ascii) : option N :=
  let n := N_of_ascii c in
  if (65 <=? n) && (n <=? 90) then Some (n - 65)
  else if (97 <=? n) && (n <=? 122) then Some (n - 71)
  else if (48 <=? n) && (n <=? 57) then Some (n + 4)
  else if n =? 43 then Some 62
  else if n =? 47 then Some 63
  else None.

Definition byte_of (n : N) : Byte.byte :=
  match Byte.of_N (n mod 256) with
  | Some b => b
  | None => Byte.x00
  end.

Definition push (b : Byte.byte) (rest : option (list Byte.byte))
  : option (list Byte.byte) :=
  option_map (cons b) rest.

(** The loop of the decoder: [quad_pos] is the position in the group of
    four, [leftchar] the bits not yet written, [pads] the padding
    characters seen in a row.  [None] is [binascii.Error]. *)
Fixpoint a2b_base64 (data : string) (quad_pos : nat) (leftchar : N)
  (pads : nat) : option (list Byte.byte) :=
  match data with
  | EmptyString =>
      match quad_pos with
      | O => Some []
      | _ => None
      end
  | String c data' =>
      if Ascii.eqb c "="%char
      then
        if (2 <=? quad_pos)%nat
        then
          if (4 <=? quad_pos + S pads)%nat
          then Some []
          else a2b_base64 data' quad_pos leftchar (S pads)
        else a2b_base64 data' quad_pos leftchar pads
      else
        match sextet c with
        | None => a2b_base64 data' quad_pos leftchar pads
        | Some v =>
            match quad_pos with
            | 0%nat => a2b_base64 data' 1 v 0
            | 1%nat =>
                push (byte_of (leftchar * 4 + v / 16))
                     (a2b_base64 data' 2 (v mod 16) 0)
            | 2%nat =>
                push (byte_of (leftchar * 16 + v / 4))
                     (a2b_base64 data' 3 (v mod 4) 0)
            | _ =>
                push (byte_of (leftchar * 64 + v))
                     (a2b_base64 data' 0 0 0)
            end
        end
  end.

(** [base64.b64decode(s)]. *)
Definition b64decode (s : string) : option (list Byte.byte) :=
  a2b_base64 s 0 0 0.

Example b64decode_padded :
  b64decode "TWE="%string = Some [Byte.x4d; Byte.x61] /\
  b64decode "TQ=="%string = Some [Byte.x4d] /\
  b64decode "TWFu"%string = Some [Byte.x4d; Byte.x61; Byte.x6e] /\
  b64decode "TWF"%string = None /\
  b64decode "T"%string = None.
Proof. repeat split. Qed.

End Base64.

(* ================================================================== *)
(** ** The two services together: what ingestion guarantees *)
(* ================================================================== *)

Module Gateway.

Import Frame.
Local Open Scope string_scope.
Local Open Scope Z_scope.

(** *** A test bench *)

(** The transport decoding of a run of the letter A: every sextet is
    zero, so four letters give three zero bytes. *)
Definition b64decode_As (b64_data : string) : option (list Byte.byte) :=
  Some (repeat Byte.x00 (3 * (String.length b64_data / 4))%nat).

(** The bytes of a frame sent as [n] letters A. *)
Definition zeros (n : nat) : list Byte.byte :=
  repeat Byte.x00 (3 * (n / 4))%nat.

(** An image decoder that accepts every buffer as one row of pixels. *)
Definition imdecode_row (raw_bytes : list Byte.byte) : option ndarray :=
  Some {| rows := 1; cols := List.length raw_bytes; pixels := raw_bytes |}.

(** An engine that reports an empty set of metrics and no preview. *)
Definition engine_idle (image : ndarray) (user_id module_id : string)
  (section_id : option string) : outcome (json * json) :=
  Return (JDict [("metrics", JDict [])], JNull).

(** A run of [n] letters A. *)
Fixpoint letters_A (n : nat) : string :=
  match n with
  | O => EmptyString
  | S n' => String "A" (letters_A n')
  end.

(** A data URL whose payload is [n] letters A. *)
Definition data_url (n : nat) : string :=
  "data:image/jpeg;base64," ++ letters_A n.

Lemma data_url_split (n : nat) :
  split_once "," (data_url n) = Some ("data:image/jpeg;base64", letters_A n).
Proof.
  unfold data_url. generalize (letters_A n). intro s. reflexivity.
Qed.

Lemma length_letters_A (n : nat) : String.length (letters_A n) = n.
Proof.
  induction n as [|n IH]; [reflexivity|].
  cbn [letters_A String.length]. now rewrite IH.
Qed.

Lemma b64decode_letters_A (n : nat) :
  b64decode_As (letters_A n) = Some (zeros n).
Proof.
  unfold b64decode_As, zeros. now rewrite length_letters_A.
Qed.

(** 699052 letters are 524289 bytes, one more than 512 KB. *)
Lemma zeros_699052 :
  Z.of_nat (List.length (zeros (Z.to_nat 699052))) = 512 * 1024 + 1.
Proof.
  unfold zeros. rewrite repeat_length.
  rewrite Nat2Z.inj_mul, Nat2Z.inj_div, Z2Nat.id by lia.
  reflexivity.
Qed.

(** The default [Settings]: 512 KB, 10 frames per second, streaming on. *)
Definition default_settings : WebStream.Settings :=
  {| WebStream.max_frame_kb := 512;
     WebStream.max_client_fps := 10;
     WebStream.browser_streaming_enabled := true |}.

(** The same with [ENABLE_BROWSER_EYE_STREAMING] off. *)
Definition streaming_off : WebStream.Settings :=
  {| WebStream.max_frame_kb := 512;
     WebStream.max_client_fps := 10;
     WebStream.browser_streaming_enabled := false |}.

(** A frame of three bytes from user [u1] in module [m1]. *)
Definition small_frame : WebStream.FramePayload :=
  {| WebStream.frame_id := "f1";
     WebStream.user_id := Some "u1";
     WebStream.module_id := Some "m1";
     WebStream.section_id := None;
     WebStream.timestamp := 0%Q;
     WebStream.fps := None;
     WebStream.frame_base64 := data_url 4 |}.

(** The same frame with no [user_id]. *)
Definition anonymous_frame : WebStream.FramePayload :=
  {| WebStream.frame_id := "f2";
     WebStream.user_id := None;
     WebStream.module_id := Some "m1";
     WebStream.section_id := None;
     WebStream.timestamp := 0%Q;
     WebStream.fps := None;
     WebStream.frame_base64 := data_url 4 |}.

(** A frame of [n] letters from user [u1] in module [m1]. *)
Definition frame_of (n : nat) : WebStream.FramePayload :=
  {| WebStream.frame_id := "f3";
     WebStream.user_id := Some "u1";
     WebStream.module_id := Some "m1";
     WebStream.section_id := None;
     WebStream.timestamp := 0%Q;
     WebStream.fps := None;
     WebStream.frame_base64 := data_url n |}.

(** A frame of 512 KB and one byte. *)
Definition oversized_frame : WebStream.FramePayload :=
  frame_of (Z.to_nat 699052).

(** A tracker in a session of user [u1] on module [m1]. *)
Definition tracking_u1 : FastApi.EyeTrackingService :=
  {| FastApi.current_user_id := Some "u1";
     FastApi.current_module_id := Some "m1";
     FastApi.current_section_id := None |}.

(** A frame of three bytes that names neither user nor module. *)
Definition bare_frame : FastApi.FramePayload :=
  {| FastApi.frame_id := Some "f4";
     FastApi.user_id := None;
     FastApi.module_id := None;
     FastApi.section_id := None;
     FastApi.timestamp := Some 1%Q;
     FastApi.fps := None;
     FastApi.frame_base64 := data_url 4 |}.

(** A frame of [n] letters sent to [fastapi_service]. *)
Definition browser_frame_of (n : nat) : FastApi.FramePayload :=
  {| FastApi.frame_id := Some "f5";
     FastApi.user_id := Some "u1";
     FastApi.module_id := Some "m1";
     FastApi.section_id := None;
     FastApi.timestamp := Some 1%Q;
     FastApi.fps := None;
     FastApi.frame_base64 := data_url n |}.

(** A frame of 512 KB and one byte sent to [fastapi_service]. *)
Definition huge_frame : FastApi.FramePayload :=
  browser_frame_of (Z.to_nat 699052).

(** A WebSocket text is the frame it names. *)
Definition parse_by_name (message : string) : outcome WebStream.FramePayload :=
  if String.eqb message "small" then Return small_frame
  else if String.eqb message "anonymous" then Return anonymous_frame
  else Raise (ValueError "Expecting value").

Section Claims.

Variable settings : WebStream.Settings.
Variable b64decode : string -> option (list Byte.byte).
Variable cv2_installed : bool.
Variable imdecode : list Byte.byte -> option ndarray.
Variable process_remote_frame :
  ndarray -> string -> string -> option string -> outcome (json * json).
Variable parse_payload : string -> outcome WebStream.FramePayload.

Let process_frame :=
  WebStream.process_frame settings b64decode cv2_installed imdecode
    process_remote_frame.
Let ingest_frame :=
  WebStream.ingest_frame settings b64decode cv2_installed imdecode
    process_remote_frame.
Let websocket_frames :=
  WebStream.websocket_frames settings b64decode cv2_installed imdecode
    process_remote_frame parse_payload.
Let websocket_loop :=
  WebStream.websocket_loop settings b64decode cv2_installed imdecode
    process_remote_frame parse_payload.
Let receive_browser_frame (eye_tracker : option FastApi.EyeTrackingService) :=
  FastApi.receive_browser_frame eye_tracker b64decode imdecode
    process_remote_frame.

(** C4, as the code has it.  With streaming enabled, [process_frame]
    refuses a payload whose [user_id] or [module_id] is absent or empty
    with a 400 before any decoding or dispatch.  [receive_browser_frame]
    first fills absent fields from the tracker's current session and
    refuses with a 400, without dispatch, when the user or the module is
    still absent.  On both paths the engine is never called without a
    user and a module. *)
Theorem missing_ids_never_reach_engine :
  (forall payload : WebStream.FramePayload,
     truthy (WebStream.user_id payload) = false \/
     truthy (WebStream.module_id payload) = false ->
     WebStream.browser_streaming_enabled settings = true ->
     process_frame payload =
     (Raise (HTTPException 400 "user_id and module_id are required."), [])) /\
  (forall tracker now (payload : FastApi.FramePayload),
     truthy (or_else (FastApi.user_id payload)
                     (FastApi.current_user_id tracker)) = false \/
     truthy (or_else (FastApi.module_id payload)
                     (FastApi.current_module_id tracker)) = false ->
     (exists detail,
        fst (receive_browser_frame (Some tracker) now payload)
        = Raise (HTTPException 400 detail)) /\
     Forall (fun ev => is_dispatch ev = false)
            (snd (receive_browser_frame (Some tracker) now payload))) /\
  (forall payload, Forall has_ids (snd (process_frame payload))) /\
  (forall eye_tracker now payload,
     Forall has_ids (snd (receive_browser_frame eye_tracker now payload))).
Proof.
  split; [|split; [|split]].
  - intros payload Hmissing Hon.
    apply WebStream.process_frame_missing_ids; assumption.
  - intros tracker now payload Hmissing.
    apply FastApi.receive_missing_ids with (tracker := tracker);
      [reflexivity | assumption].
  - intro payload. apply WebStream.process_frame_has_ids.
  - intros eye_tracker now payload. apply FastApi.receive_dispatch_has_ids.
Qed.

(** C5, as the code has it.  On the paths of [web_stream_service]
    ([ingest_frame] and [websocket_frames], both through
    [process_frame]), a payload whose raw bytes exceed
    [max_frame_kb * 1024] is refused with an error (the 413, or the 503
    or 400 that come first) before any image decoding, so nothing is
    dispatched; and no trace of these paths holds an image decoding of
    more than the limit or a dispatch of a raster decoded from more than
    the limit. *)
Theorem oversized_frames_stop_before_imdecode :
  (forall payload header b64_data raw_bytes,
     split_once "," (WebStream.frame_base64 payload) = Some (header, b64_data) ->
     b64decode b64_data = Some raw_bytes ->
     Z.of_nat (List.length raw_bytes) > WebStream.max_frame_kb settings * 1024 ->
     (exists code detail,
        fst (process_frame payload) = Raise (HTTPException code detail) /\
        (code = 503 \/ code = 400 \/ code = 413)) /\
     Forall (fun ev => is_imdecode ev = false /\ is_dispatch ev = false)
            (snd (process_frame payload)) /\
     ingest_frame payload = process_frame payload) /\
  (forall payload,
     Forall (WebStream.within_limit settings imdecode)
            (snd (ingest_frame payload))) /\
  (forall now messages,
     Forall (WebStream.within_limit settings imdecode)
            (snd (websocket_frames now messages))).
Proof.
  split; [|split].
  - intros payload header b64_data raw_bytes Hsplit Hb64 Hsize.
    destruct (@WebStream.process_frame_oversized settings b64decode
                cv2_installed imdecode process_remote_frame payload
                header b64_data raw_bytes Hsplit Hb64 Hsize) as [Hcode Htr].
    split; [exact Hcode|]. split; [exact Htr|].
    apply WebStream.ingest_frame_eq.
  - intro payload. unfold ingest_frame.
    rewrite WebStream.ingest_frame_eq.
    eapply Forall_impl; [|apply WebStream.process_frame_sound].
    cbn beta. tauto.
  - intros now messages. apply WebStream.websocket_loop_within_limit.
Qed.

(** C6, as the code has it.  On the streaming channel every frame passes
    the limiter before the pipeline, and a denial is answered at once
    with the rate-limit error, before any decoding or dispatch.  The
    single-shot channel has no limiter: [ingest_frame] is [process_frame]
    and its trace holds pipeline events only. *)
Theorem streaming_frames_are_gated :
  (forall now messages,
     gated false (snd (websocket_frames now messages)) = true) /\
  (forall current message messages limiter payload,
     parse_payload message = Return payload ->
     fst (Limiter.consume current limiter) = false ->
     snd (websocket_loop ((current, message) :: messages) limiter)
     = (Consumed false
        :: Reply (JDict [("error", JStr "Rate limit exceeded")])
        :: snd (websocket_loop messages
                  (snd (Limiter.consume current limiter))))%list) /\
  (forall payload,
     ingest_frame payload = process_frame payload /\
     Forall (fun ev => is_pipeline ev = true) (snd (ingest_frame payload))).
Proof.
  split; [|split].
  - intros now messages. apply WebStream.websocket_loop_gated.
  - intros current message messages limiter payload Hparse Hdeny.
    unfold websocket_loop. cbn [WebStream.websocket_loop].
    rewrite Hparse.
    destruct (Limiter.consume current limiter) as [allowed limiter'].
    cbn [fst snd] in *. subst allowed. cbn [negb].
    rewrite !bind_trace. reflexivity.
  - intro payload. split; [apply WebStream.ingest_frame_eq|].
    unfold ingest_frame. rewrite WebStream.ingest_frame_eq.
    apply WebStream.process_frame_pipeline.
Qed.

(** C10.  With [browser_streaming_enabled] false, [process_frame] raises
    the 503 for every payload before the check of the ids, the decoding
    and the dispatch (its trace is empty); so does [ingest_frame]; and
    [websocket_frames] performs no pipeline event and ends with the 503
    at the first frame that reaches [process_frame]. *)
Theorem streaming_disabled_is_503 :
  WebStream.browser_streaming_enabled settings = false ->
  (forall payload,
     process_frame payload =
     (Raise (HTTPException 503
        "Browser streaming disabled. Please fall back to the local Flask service."),
      []) /\
     ingest_frame payload = process_frame payload) /\
  (forall now messages,
     Forall (fun ev => is_pipeline ev = false)
            (snd (websocket_frames now messages)) /\
     (In (Consumed true) (snd (websocket_frames now messages)) ->
      exists detail,
        fst (websocket_frames now messages)
        = Raise (HTTPException 503 detail))).
Proof.
  intro Hoff. split.
  - intro payload. split.
    + now apply WebStream.process_frame_disabled.
    + apply WebStream.ingest_frame_eq.
  - intros now messages. now apply WebStream.websocket_loop_disabled.
Qed.

End Claims.

(** *** The claims on the bench *)

(** The response of the engine on the bench for a frame. *)
Definition response (frame_id : string) (timestamp : Q) : json :=
  JDict [("success", JBool true); ("frame_id", JStr frame_id);
         ("user_id", JStr "u1"); ("module_id", JStr "m1");
         ("section_id", JNull); ("timestamp", JNum timestamp);
         ("status", JDict [("metrics", JDict [])]);
         ("metrics", JDict []); ("current_frame", JNull)].

(** The events of the pipeline on a frame of three zero bytes. *)
Definition small_frame_events : list event :=
  [B64Decode "AAAA";
   ImDecode [Byte.x00; Byte.x00; Byte.x00];
   Dispatch {| rows := 1; cols := 3;
               pixels := [Byte.x00; Byte.x00; Byte.x00] |} "u1" "m1" None].

(** A PNG file of one black pixel (69 bytes: signature, [IHDR] of a
    1 x 1 image with 8-bit RGB, [IDAT], [IEND]), and its Base64 text. *)
Definition black_pixel_png : list Byte.byte :=
  [
     Byte.x89; Byte.x50; Byte.x4e; Byte.x47; Byte.x0d; Byte.x0a;
     Byte.x1a; Byte.x0a; Byte.x00; Byte.x00; Byte.x00; Byte.x0d;
     Byte.x49; Byte.x48; Byte.x44; Byte.x52; Byte.x00; Byte.x00;
     Byte.x00; Byte.x01; Byte.x00; Byte.x00; Byte.x00; Byte.x01;
     Byte.x08; Byte.x02; Byte.x00; Byte.x00; Byte.x00; Byte.x90;
     Byte.x77; Byte.x53; Byte.xde; Byte.x00; Byte.x00; Byte.x00;
     Byte.x0c; Byte.x49; Byte.x44; Byte.x41; Byte.x54; Byte.x78;
     Byte.xda; Byte.x63; Byte.x60; Byte.x60; Byte.x60; Byte.x00;
     Byte.x00; Byte.x00; Byte.x04; Byte.x00; Byte.x01; Byte.xc8;
     Byte.xea; Byte.xeb; Byte.xf9; Byte.x00; Byte.x00; Byte.x00;
     Byte.x00; Byte.x49; Byte.x45; Byte.x4e; Byte.x44; Byte.xae;
     Byte.x42; Byte.x60; Byte.x82].

Definition black_pixel_base64 : string :=
  "iVBORw0KGgoAAAANSUhEUgAAAAEAAAABCAIAAACQd1PeAAAADElEQVR42mNgYGAAAAAEAAHI6uv5AAAAAElFTkSuQmCC".

Fixpoint bytes_eqb (a b : list Byte.byte) : bool :=
  match a, b with
  | [], [] => true
  | x :: a', y :: b' => Byte.eqb x y && bytes_eqb a' b'
  | _, _ => false
  end.

(** What [cv2.imdecode(np_arr, cv2.IMREAD_COLOR)] returns on that file,
    one pixel with its three channels at 0, and [None] on the buffers
    that are not that file. *)
Definition imdecode_black_pixel (raw_bytes : list Byte.byte) : option ndarray :=
  if bytes_eqb raw_bytes black_pixel_png
  then Some {| rows := 1; cols := 1;
               pixels := [Byte.x00; Byte.x00; Byte.x00] |}
  else None.

(** The frame of that file, naming neither user nor module. *)
Definition black_pixel_frame : FastApi.FramePayload :=
  {| FastApi.frame_id := Some "f4";
     FastApi.user_id := None;
     FastApi.module_id := None;
     FastApi.section_id := None;
     FastApi.timestamp := Some 1%Q;
     FastApi.fps := None;
     FastApi.frame_base64 := "data:image/png;base64," ++ black_pixel_base64 |}.

Example black_pixel_decodes :
  Base64.b64decode black_pixel_base64 = Some black_pixel_png.
Proof. vm_compute. reflexivity. Qed.

(** C4 as stated fails on [receive_browser_frame]: a payload that holds
    an image and names neither [user_id] nor [module_id] is not refused
    when the tracker is in a session; the frame is decoded, the ids of
    the session are used and the engine is called with them. *)
Lemma absent_ids_are_filled_from_tracker :
  FastApi.user_id black_pixel_frame = None /\
  FastApi.module_id black_pixel_frame = None /\
  FastApi.receive_browser_frame (Some tracking_u1) Base64.b64decode
    imdecode_black_pixel engine_idle 0%Q black_pixel_frame
  = (Return (response "f4" 1%Q),
     [B64Decode black_pixel_base64;
      ImDecode black_pixel_png;
      Dispatch {| rows := 1; cols := 1;
                  pixels := [Byte.x00; Byte.x00; Byte.x00] |}
               "u1" "m1" None]).
Proof.
  split; [reflexivity|]. split; [reflexivity|].
  vm_compute. reflexivity.
Qed.

(** C4 on the bench: a frame without [user_id] is refused by
    [process_frame], and a frame without ids is refused by
    [receive_browser_frame] when the tracker has no session. *)
Lemma missing_ids_never_reach_engine_witness :
  WebStream.process_frame default_settings b64decode_As true imdecode_row
    engine_idle anonymous_frame
  = (Raise (HTTPException 400 "user_id and module_id are required."), []) /\
  ((exists detail,
      fst (FastApi.receive_browser_frame
             (Some (FastApi.mkTracker None None None)) b64decode_As
             imdecode_row engine_idle 0%Q bare_frame)
      = Raise (HTTPException 400 detail)) /\
   Forall (fun ev => is_dispatch ev = false)
          (snd (FastApi.receive_browser_frame
                  (Some (FastApi.mkTracker None None None)) b64decode_As
                  imdecode_row engine_idle 0%Q bare_frame))).
Proof.
  pose proof (missing_ids_never_reach_engine default_settings b64decode_As
                true imdecode_row engine_idle) as (Hweb & Hfast & _).
  split.
  - apply Hweb; [left; reflexivity | reflexivity].
  - apply Hfast. left. reflexivity.
Defined.

(** [receive_browser_frame] on a frame of any size: it is decoded as an
    image and dispatched. *)
Lemma receive_frame_of_any_size (n : nat) :
  FastApi.receive_browser_frame (Some tracking_u1) b64decode_As imdecode_row
    engine_idle 0%Q (browser_frame_of n)
  = (Return (response "f5" 1%Q),
     [B64Decode (letters_A n);
      ImDecode (zeros n);
      Dispatch {| rows := 1; cols := List.length (zeros n);
                  pixels := zeros n |} "u1" "m1" None]).
Proof.
  unfold FastApi.receive_browser_frame, FastApi.receive_body, FastApi.decode.
  cbn [FastApi.frame_base64 browser_frame_of].
  rewrite data_url_split. cbn [emit bind].
  rewrite b64decode_letters_A. reflexivity.
Qed.

(** C5 as stated fails on [receive_browser_frame], which has no size
    limit: a frame of 512 KB and one byte is decoded as an image and
    dispatched to the engine. *)
Lemma fastapi_decodes_oversized_frame :
  exists raw_bytes image,
    Z.of_nat (List.length raw_bytes) > 512 * 1024 /\
    FastApi.receive_browser_frame (Some tracking_u1) b64decode_As imdecode_row
      engine_idle 0%Q huge_frame
    = (Return (response "f5" 1%Q),
       [B64Decode (letters_A (Z.to_nat 699052));
        ImDecode raw_bytes;
        Dispatch image "u1" "m1" None]).
Proof.
  exists (zeros (Z.to_nat 699052)). eexists. split.
  - rewrite zeros_699052. reflexivity.
  - apply receive_frame_of_any_size.
Qed.

(** C5 on the bench: the same frame sent to [web_stream_service] with
    the default limit of 512 KB is refused before the image decoding. *)
Lemma oversized_frames_stop_before_imdecode_witness :
  (exists code detail,
     fst (WebStream.process_frame default_settings b64decode_As true
            imdecode_row engine_idle oversized_frame)
     = Raise (HTTPException code detail) /\
     (code = 503 \/ code = 400 \/ code = 413)) /\
  Forall (fun ev => is_imdecode ev = false /\ is_dispatch ev = false)
         (snd (WebStream.process_frame default_settings b64decode_As true
                 imdecode_row engine_idle oversized_frame)) /\
  WebStream.ingest_frame default_settings b64decode_As true imdecode_row
    engine_idle oversized_frame
  = WebStream.process_frame default_settings b64decode_As true imdecode_row
      engine_idle oversized_frame.
Proof.
  apply (proj1 (oversized_frames_stop_before_imdecode default_settings
                  b64decode_As true imdecode_row engine_idle parse_by_name)
           oversized_frame "data:image/jpeg;base64"
           (letters_A (Z.to_nat 699052)) (zeros (Z.to_nat 699052))).
  - apply data_url_split.
  - apply b64decode_letters_A.
  - rewrite zeros_699052. reflexivity.
Defined.

(** The same frame, evaluated: the 413 of [decode_frame]. *)
Example oversized_frame_is_413 :
  WebStream.process_frame default_settings b64decode_As true imdecode_row
    engine_idle oversized_frame
  = (Raise (HTTPException 413 "Frame exceeds size limit"),
     [B64Decode (letters_A (Z.to_nat 699052))]).
Proof.
  unfold WebStream.process_frame, oversized_frame, frame_of.
  cbn [negb orb truthy WebStream.browser_streaming_enabled default_settings
       WebStream.user_id WebStream.module_id WebStream.frame_base64].
  rewrite (@WebStream.decode_frame_oversized default_settings b64decode_As
             true imdecode_row (data_url (Z.to_nat 699052))
             "data:image/jpeg;base64" (letters_A (Z.to_nat 699052))
             (zeros (Z.to_nat 699052))).
  - reflexivity.
  - apply data_url_split.
  - apply b64decode_letters_A.
  - unfold WebStream.max_bytes. rewrite zeros_699052. reflexivity.
Qed.

(** C6 as stated fails on the single-shot channel: [ingest_frame] decodes
    and dispatches a frame that no limiter has seen. *)
Lemma single_shot_is_not_gated :
  WebStream.ingest_frame default_settings b64decode_As true imdecode_row
    engine_idle small_frame
  = (Return (response "f1" 0%Q), small_frame_events) /\
  gated false
    (snd (WebStream.ingest_frame default_settings b64decode_As true
            imdecode_row engine_idle small_frame))
  = false.
Proof. split; reflexivity. Qed.

(** One frame per second on the WebSocket. *)
Definition one_fps : WebStream.Settings :=
  {| WebStream.max_frame_kb := 512;
     WebStream.max_client_fps := 1;
     WebStream.browser_streaming_enabled := true |}.

(** C6 on the bench: of two frames sent at once at one frame per second,
    the first goes through the pipeline and the second is answered with
    the rate-limit error and nothing else. *)
Lemma streaming_frames_are_gated_witness :
  gated false
    (snd (WebStream.websocket_frames one_fps b64decode_As true imdecode_row
            engine_idle parse_by_name 0%Q
            [(0%Q, "small"); (0%Q, "small")]))
  = true /\
  snd (WebStream.websocket_loop one_fps b64decode_As true imdecode_row
         engine_idle parse_by_name [(0%Q, "small")]
         (snd (Limiter.consume 0%Q (Limiter.init 1 0%Q))))
  = [Consumed false; Reply (JDict [("error", JStr "Rate limit exceeded")])].
Proof.
  pose proof (streaming_frames_are_gated one_fps b64decode_As true
                imdecode_row engine_idle parse_by_name) as (Hgate & Hdeny & _).
  split.
  - apply Hgate.
  - apply (Hdeny 0%Q "small" [] _ small_frame); reflexivity.
Defined.

(** The same two frames, evaluated. *)
Example two_frames_at_once :
  WebStream.websocket_frames one_fps b64decode_As true imdecode_row
    engine_idle parse_by_name 0%Q [(0%Q, "small"); (0%Q, "small")]
  = (Return tt,
     (Consumed true :: small_frame_events)
     ++ [Reply (response "f1" 0%Q);
         Consumed false;
         Reply (JDict [("error", JStr "Rate limit exceeded")])])%list.
Proof. reflexivity. Qed.

(** C10 on the bench: with streaming off, a frame without [user_id] gets
    the 503, not the 400, and the WebSocket handler ends with the 503 at
    the first frame it admits. *)
Lemma streaming_disabled_is_503_witness :
  WebStream.process_frame streaming_off b64decode_As true imdecode_row
    engine_idle anonymous_frame
  = (Raise (HTTPException 503
       "Browser streaming disabled. Please fall back to the local Flask service."),
     []) /\
  WebStream.ingest_frame streaming_off b64decode_As true imdecode_row
    engine_idle small_frame
  = WebStream.process_frame streaming_off b64decode_As true imdecode_row
      engine_idle small_frame /\
  Forall (fun ev => is_pipeline ev = false)
         (snd (WebStream.websocket_frames streaming_off b64decode_As true
                 imdecode_row engine_idle parse_by_name 0%Q
                 [(0%Q, "junk"); (0%Q, "small")])) /\
  exists detail,
    fst (WebStream.websocket_frames streaming_off b64decode_As true
           imdecode_row engine_idle parse_by_name 0%Q
           [(0%Q, "junk"); (0%Q, "small")])
    = Raise (HTTPException 503 detail).
Proof.
  destruct (@streaming_disabled_is_503 streaming_off b64decode_As true
              imdecode_row engine_idle parse_by_name eq_refl)
    as [Hhttp Hws].
  split; [apply (Hhttp anonymous_frame)|].
  split; [apply (Hhttp small_frame)|].
  destruct (Hws 0%Q [(0%Q, "junk"); (0%Q, "small")]) as [Hquiet H503].
  split; [exact Hquiet|].
  apply H503. cbn. auto.
Defined.

(** A frame without [user_id] and a WebSocket session, evaluated. *)
Example streaming_off_runs :
  WebStream.ingest_frame streaming_off b64decode_As true imdecode_row
    engine_idle anonymous_frame
  = (Raise (HTTPException 503
       "Browser streaming disabled. Please fall back to the local Flask service."),
     []) /\
  WebStream.websocket_frames streaming_off b64decode_As true imdecode_row
    engine_idle parse_by_name 0%Q
    [(0%Q, "junk"); (0%Q, "anonymous"); (0%Q, "small")]
  = (Raise (HTTPException 503
       "Browser streaming disabled. Please fall back to the local Flask service."),
     [Reply (JDict [("error", JStr "Invalid payload: Expecting value")]);
      Consumed true]).
Proof. split; reflexivity. Qed.

End Gateway.

(* ================================================================== *)
(** ** [lifespan] of [fastapi_service.py] *)
(* ================================================================== *)

Module Lifecycle.

(** The two background coroutines: the health monitor and the state
    broadcast loop. *)
Inductive coroutine : Type :=
| process_frames_background
| broadcast_websocket_updates.

(** The steps of startup and shutdown, in the order they are taken. *)
Inductive event : Type :=
| EngineConstructed
| TaskCreated (c : coroutine)
| Serving
| TaskCancelled (c : coroutine)
| TaskAwaited (c : coroutine)
| TrackingStopped
| WebcamReleased.



(** The [EyeTrackingService] as [lifespan] sees it: whether it holds a
    webcam ([webcam is not None]). *)
Record EyeTrackingService : Type := mkService {
  has_webcam : bool
}.

(** The module-level globals. *)
Record globals : Type := mkGlobals {
  eye_tracker : option EyeTrackingService;
  frame_processing_task : option coroutine;
  websocket_broadcast_task : option coroutine
}.

(** The globals when the module is loaded. *)
Definition unset : globals :=
  {| eye_tracker := None;
     frame_processing_task := None;
     websocket_broadcast_task := None |}.

Section Lifespan.

(** [EyeTrackingService(auto_start_loop=False)]. *)
Variable construct : outcome EyeTrackingService.

(** What [await task] does after [task.cancel()]: [None] when it returns,
    the exception otherwise. *)
Variable awaited : coroutine -> option exn.

(** [eye_tracker.stop_tracking(save_data=False)] and
    [eye_tracker.webcam.release()]. *)
Variable stop_tracking : option exn.
Variable release : option exn.

(** The part of [lifespan] before [yield]. *)
Definition startup (g : globals) : outcome unit * globals * list event :=
  match construct with
  | Raise e => (Raise e, g, [])
  | Return service =>
      (Return tt,
       {| eye_tracker := Some service;
          frame_processing_task := Some process_frames_background;
          websocket_broadcast_task := Some broadcast_websocket_updates |},
       [EngineConstructed;
        TaskCreated process_frames_background;
        TaskCreated broadcast_websocket_updates])
  end.

(** [if task: task.cancel(); try: await task except CancelledError: pass]. *)
Definition cancel_and_await (task : option coroutine)
  : outcome unit * list event :=
  match task with
  | None => (Return tt, [])
  | Some c =>
      match awaited c with
      | None | Some CancelledError =>
          (Return tt, [TaskCancelled c; TaskAwaited c])
      | Some e => (Raise e, [TaskCancelled c; TaskAwaited c])
      end
  end.

(** [if eye_tracker: stop_tracking(...); if webcam is not None:
    release()]. *)
Definition stop_engine (tracker : option EyeTrackingService)
  : outcome unit * list event :=
  match tracker with
  | None => (Return tt, [])
  | Some service =>
      match stop_tracking with
      | Some e => (Raise e, [TrackingStopped])
      | None =>
          if has_webcam service
          then match release with
               | Some e => (Raise e, [TrackingStopped; WebcamReleased])
               | None => (Return tt, [TrackingStopped; WebcamReleased])
               end
          else (Return tt, [TrackingStopped])
      end
  end.

(** One step after another, until one raises. *)
Definition and_then (first second : outcome unit * list event)
  : outcome unit * list event :=
  match first with
  | (Return _, tr) => (fst second, tr ++ snd second)
  | (Raise e, tr) => (Raise e, tr)
  end.

(** The part of [lifespan] after [yield]: an [Exception] is logged. *)
Definition shutdown (g : globals) : outcome unit * list event :=
  match
    and_then (cancel_and_await (frame_processing_task g))
      (and_then (cancel_and_await (websocket_broadcast_task g))
                (stop_engine (eye_tracker g)))
  with
  | (Raise e, tr) => if is_Exception e then (Return tt, tr) else (Raise e, tr)
  | returned => returned
  end.

(** [lifespan(app)]: startup, the application serving, shutdown. *)
Definition lifespan (g : globals) : outcome unit * list event :=
  match startup g with
  | (Raise e, _, tr) => (Raise e, tr)
  | (Return _, g', tr) =>
      (fst (shutdown g'), tr ++ Serving :: snd (shutdown g'))
  end.



(** *** The order of the steps *)

Lemma startup_trace service :
  construct = Return service ->
  startup unset =
  (Return tt,
   {| eye_tracker := Some service;
      frame_processing_task := Some process_frames_background;
      websocket_broadcast_task := Some broadcast_websocket_updates |},
   [EngineConstructed;
    TaskCreated process_frames_background;
    TaskCreated broadcast_websocket_updates]).
Proof.
  intro H. unfold startup. now rewrite H.
Qed.



Lemma and_then_trace first second :
  snd (and_then first second) = snd first \/
  snd (and_then first second) = snd first ++ snd second.
Proof.
  destruct first as [[u|e] tr]; cbn; auto.
Qed.





Lemma lifespan_trace service :
  construct = Return service ->
  lifespan unset =
  (fst (shutdown {| eye_tracker := Some service;
                    frame_processing_task := Some process_frames_background;
                    websocket_broadcast_task :=
                      Some broadcast_websocket_updates |}),
   [EngineConstructed;
    TaskCreated process_frames_background;
    TaskCreated broadcast_websocket_updates;
    Serving]
   ++ snd (shutdown {| eye_tracker := Some service;
                       frame_processing_task := Some process_frames_background;
                       websocket_broadcast_task :=
                         Some broadcast_websocket_updates |})).
Proof.
  intro H. unfold lifespan. rewrite (startup_trace H). reflexivity.
Qed.

(** *** The claim about the lifecycle *)


End Lifespan.

(** A service with a webcam whose tasks end by cancellation. *)
Definition cancelled (_ : coroutine) : option exn := Some CancelledError.


(** The same run, evaluated. *)
Example lifespan_run :
  lifespan (Return (mkService true)) cancelled None None unset
  = (Return tt,
     [EngineConstructed;
      TaskCreated process_frames_background;
      TaskCreated broadcast_websocket_updates;
      Serving;
      TaskCancelled process_frames_background;
      TaskAwaited process_frames_background;
      TaskCancelled broadcast_websocket_updates;
      TaskAwaited broadcast_websocket_updates;
      TrackingStopped;
      WebcamReleased]).
Proof. reflexivity. Qed.


End Lifecycle.

(* ================================================================== *)
(** ** The budget the token bucket enforces *)
(* ================================================================== *)

Module RateBound.

Import Limiter.
Local Open Scope Q_scope.

(** Every reading is at least [gap] after the one before, the first at
    least [gap] after [t0]. *)
Fixpoint spaced (gap t0 : Q) (clock : list Q) : Prop :=
  match clock with
  | [] => True
  | t :: clock' => t0 + gap <= t /\ spaced gap t clock'
  end.

(** A call at least [1 / max_fps] after the previous one is allowed. *)
Lemma spaced_call_allowed t self :
  (1 <= max_fps self)%Z ->
  0 <= allowance self ->
  last_check self + 1 / inject_Z (max_fps self) <= t ->
  fst (consume t self) = true /\ 0 <= allowance (snd (consume t self)).
Proof.
  intros Hmax Ha Ht.
  pose proof (inject_Z_ge_1 Hmax) as Hm.
  assert (Hp : 1 <= (t - last_check self) * inject_Z (max_fps self)).
  { assert (Hinv : 1 / inject_Z (max_fps self) * inject_Z (max_fps self) == 1)
      by (field; lra).
    rewrite <- Hinv. apply Qmult_le_compat_r; lra. }
  unfold consume.
  set (p := (t - last_check self) * inject_Z (max_fps self)) in *.
  destruct (Qlt_bool (inject_Z (max_fps self)) (allowance self + p)) eqn:Eclamp.
  - destruct (Qlt_bool (inject_Z (max_fps self)) 1) eqn:E1.
    + apply Qlt_bool_iff in E1. lra.
    + cbn. split; [reflexivity | lra].
  - destruct (Qlt_bool (allowance self + p) 1) eqn:E1.
    + apply Qlt_bool_iff in E1. lra.
    + cbn. split; [reflexivity | lra].
Qed.

Lemma spaced_run_allowed clock : forall self,
  (1 <= max_fps self)%Z ->
  0 <= allowance self ->
  spaced (1 / inject_Z (max_fps self)) (last_check self) clock ->
  fst (run clock self) = repeat true (List.length clock).
Proof.
  induction clock as [|t clock IH]; intros self Hmax Ha Hsp; [reflexivity|].
  destruct Hsp as [Ht Hsp].
  destruct (spaced_call_allowed self Hmax Ha Ht) as [Hok Ha'].
  pose proof (consume_max_fps t self) as Emax.
  pose proof (consume_last_check t self) as Elast.
  cbn [run List.length repeat].
  destruct (consume t self) as [r self']. cbn [fst snd] in *. subst r.
  specialize (IH self'). rewrite Emax, Elast in IH.
  specialize (IH Hmax Ha' Hsp).
  destruct (run clock self') as [rs self'']. cbn [fst] in *.
  now rewrite IH.
Qed.

(** X2.  A client that keeps to the rate is never denied: on a fresh
    limiter with [max_fps = n >= 1], when every call comes at least
    [1 / n] after the one before (the first one at any time), every call
    is allowed. *)
Theorem steady_client_never_denied (n : Z) (t0 t1 : Q) (clock : list Q) :
  (1 <= n)%Z ->
  t0 <= t1 ->
  spaced (1 / inject_Z n) t1 clock ->
  fst (run (t1 :: clock) (init n t0)) = repeat true (S (List.length clock)).
Proof.
  intros Hn Ht1 Hsp.
  pose proof (inject_Z_ge_1 Hn) as Hm.
  assert (Hfirst : fst (consume t1 (init n t0)) = true /\
                   0 <= allowance (snd (consume t1 (init n t0)))).
  { assert (Hp : 0 <= (t1 - t0) * inject_Z n)
      by (apply Qmult_le_0_compat; lra).
    unfold consume, init. cbn [max_fps allowance last_check].
    set (p := (t1 - t0) * inject_Z n) in *.
    destruct (Qlt_bool (inject_Z n) (inject_Z n + p)) eqn:Eclamp.
    - destruct (Qlt_bool (inject_Z n) 1) eqn:E1.
      + apply Qlt_bool_iff in E1. lra.
      + cbn. split; [reflexivity | lra].
    - destruct (Qlt_bool (inject_Z n + p) 1) eqn:E1.
      + apply Qlt_bool_iff in E1. lra.
      + cbn. split; [reflexivity | lra]. }
  destruct Hfirst as [Hok Ha].
  pose proof (consume_max_fps t1 (init n t0)) as Emax.
  pose proof (consume_last_check t1 (init n t0)) as Elast.
  cbn [run repeat].
  destruct (consume t1 (init n t0)) as [r self']. cbn [fst snd] in *. subst r.
  pose proof (@spaced_run_allowed clock self') as Hrest.
  rewrite Emax, Elast in Hrest. cbn [max_fps init] in Hrest.
  specialize (Hrest Hn Ha Hsp).
  destruct (run clock self') as [rs self'']. cbn [fst] in *.
  now rewrite Hrest.
Qed.

(** X2 on a limiter of 4 frames per second called every quarter of a
    second. *)
Lemma steady_client_never_denied_witness :
  fst (run [1; 5 # 4; 3 # 2; 7 # 4; 2] (init 4 0)) = repeat true 5.
Proof.
  apply (@steady_client_never_denied 4 0 1 [5 # 4; 3 # 2; 7 # 4; 2]).
  - lia.
  - Qclosed.
  - cbn. repeat split; Qclosed.
Defined.

End RateBound.

(* ================================================================== *)
(** ** How many frames a WebSocket client gets through *)
(* ================================================================== *)

Module Admission.

Import Frame.
Local Open Scope string_scope.

(** The number of messages the handler sends, or tries to send, to the
    client in a trace. *)
Fixpoint replies (tr : list event) : nat :=
  match tr with
  | [] => O
  | Reply _ :: tr' => S (replies tr')
  | _ :: tr' => replies tr'
  end.

Lemma replies_app tr1 tr2 :
  replies (tr1 ++ tr2) = (replies tr1 + replies tr2)%nat.
Proof.
  induction tr1 as [|ev tr1 IH]; [reflexivity|].
  destruct ev; cbn; now rewrite IH.
Qed.

Lemma replies_pipeline tr :
  Forall (fun ev => is_pipeline ev = true) tr -> replies tr = O.
Proof.
  induction 1 as [|ev tr Hev _ IH]; [reflexivity|].
  destruct ev; try discriminate Hev; exact IH.
Qed.

Section Loop.

Variable settings : WebStream.Settings.
Variable b64decode : string -> option (list Byte.byte).
Variable cv2_installed : bool.
Variable imdecode : list Byte.byte -> option ndarray.
Variable process_remote_frame :
  ndarray -> string -> string -> option string -> outcome (json * json).
Variable parse_payload : string -> outcome WebStream.FramePayload.

Let process_frame :=
  WebStream.process_frame settings b64decode cv2_installed imdecode
    process_remote_frame.

(** A message of the client: the reading of the clock when the limiter is
    asked, the text, and what the [send_json] of the reply to it does
    ([None] when it returns). *)
Definition message : Type := (Q * string * option exn)%type.

Definition sent (m : message) : option exn := snd m.

(** [await websocket.send_json(reply)]. *)
Definition send_json (reply : json) (sent : option exn) : M unit :=
  emit (Reply reply) ;;;
  match sent with
  | None => ret tt
  | Some e => raise e
  end.

(** The [while True] loop of [websocket_frames] with its sends; the
    messages are those [receive_text()] returns before it raises
    [WebSocketDisconnect]. *)
Fixpoint websocket_loop (messages : list message)
  (limiter : Limiter.WebSocketLimiter) : M unit :=
  match messages with
  | [] => raise WebSocketDisconnect
  | (current, text, sent) :: messages' =>
      match parse_payload text with
      | Raise exc =>
          if is_Exception exc
          then
            send_json (JDict [("error",
                               JStr ("Invalid payload: " ++ str exc))]) sent ;;;
            websocket_loop messages' limiter
          else raise exc
      | Return payload =>
          let (allowed, limiter') := Limiter.consume current limiter in
          emit (Consumed allowed) ;;;
          if negb allowed
          then
            send_json (JDict [("error", JStr "Rate limit exceeded")]) sent ;;;
            websocket_loop messages' limiter'
          else
            result <- process_frame payload ;;
            send_json result sent ;;;
            websocket_loop messages' limiter'
      end
  end.

(** [except WebSocketDisconnect: logger.info(...)]. *)
Definition caught (e : exn) : outcome unit :=
  match e with
  | WebSocketDisconnect => Return tt
  | _ => Raise e
  end.

(** [websocket_frames(websocket, limiter)] after the handshake. *)
Definition websocket_frames (now : Q) (messages : list message) : M unit :=
  match websocket_loop messages
          (Limiter.init (WebStream.max_client_fps settings) now) with
  | (Raise e, tr) => (caught e, tr)
  | returned => returned
  end.

(** [process_frame] sends nothing. *)
Lemma process_frame_replies payload :
  replies (snd (process_frame payload)) = O.
Proof.
  apply replies_pipeline. apply WebStream.process_frame_pipeline.
Qed.

Lemma send_json_run reply sent (rest : M unit) :
  (send_json reply sent ;;; rest)
  = match sent with
    | None => (fst rest, Reply reply :: snd rest)
    | Some e => (Raise e, [Reply reply])
    end.
Proof.
  unfold send_json. destruct sent as [e|]; cbn; [reflexivity|].
  now destruct rest.
Qed.

(** The loop never returns: it ends with the exception that left it. *)
Lemma websocket_loop_raises messages : forall limiter,
  exists e, fst (websocket_loop messages limiter) = Raise e.
Proof.
  induction messages as [|[[current text] sent0] messages IH]; intros limiter.
  - now exists WebSocketDisconnect.
  - cbn [websocket_loop].
    destruct (parse_payload text) as [payload|exc].
    + destruct (Limiter.consume current limiter) as [allowed limiter'].
      rewrite (@bind_outcome unit unit). cbn [emit fst].
      destruct allowed; cbn [negb].
      * rewrite (@bind_outcome json unit).
        destruct (process_frame payload) as [[result|e] tr]; cbn [fst];
          [|now exists e].
        rewrite send_json_run. destruct sent0 as [e|]; [now exists e|].
        apply IH.
      * rewrite send_json_run. destruct sent0 as [e|]; [now exists e|].
        apply IH.
    + destruct (is_Exception exc); [|now exists exc].
      rewrite send_json_run. destruct sent0 as [e|]; [now exists e|].
      apply IH.
Qed.

(** One reply at most for each message; as many as messages when the
    loop ends in [receive_text], and then every send has returned. *)
Lemma websocket_loop_replies messages : forall limiter,
  (replies (snd (websocket_loop messages limiter)) <= List.length messages)%nat /\
  (replies (snd (websocket_loop messages limiter)) = List.length messages ->
   Forall (fun m => sent m = None) messages ->
   fst (websocket_loop messages limiter) = Raise WebSocketDisconnect).
Proof.
  induction messages as [|[[current text] sent0] messages IH]; intros limiter.
  - split; [cbn; lia | reflexivity].
  - cbn [websocket_loop List.length].
    assert (Hstep : forall reply limiter' before,
              replies before = O ->
              (replies (before ++ snd (send_json reply sent0 ;;;
                                       websocket_loop messages limiter'))
               <= S (List.length messages))%nat /\
              (replies (before ++ snd (send_json reply sent0 ;;;
                                       websocket_loop messages limiter'))
               = S (List.length messages) ->
               Forall (fun m => sent m = None)
                      ((current, text, sent0) :: messages) ->
               fst (send_json reply sent0 ;;;
                    websocket_loop messages limiter')
               = Raise WebSocketDisconnect)).
    { intros reply limiter' before Hnone.
      destruct (IH limiter') as [IHle IHeq].
      rewrite send_json_run, replies_app, Hnone.
      destruct sent0 as [e|]; cbn [fst snd replies plus].
      - split; [lia|]. intros _ Hall. inversion Hall as [|? ? H _].
        discriminate H.
      - split; [lia|]. intros Hcount Hall. inversion Hall; subst.
        apply IHeq; [lia | assumption]. }
    destruct (parse_payload text) as [payload|exc].
    + destruct (Limiter.consume current limiter) as [allowed limiter'].
      rewrite (@bind_trace unit unit), (@bind_outcome unit unit).
      cbn [emit fst snd].
      destruct allowed; cbn [negb].
      * rewrite (@bind_trace json unit), (@bind_outcome json unit).
        pose proof (process_frame_replies payload) as Hnone.
        destruct (process_frame payload) as [[result|e] tr]; cbn [fst snd] in *.
        -- apply (Hstep result limiter' (Consumed true :: tr)). exact Hnone.
        -- cbn [app replies]. rewrite Hnone. split; [lia | intro H; lia].
      * apply (Hstep _ limiter' [Consumed false]). reflexivity.
    + destruct (is_Exception exc).
      * apply (Hstep _ limiter []). reflexivity.
      * cbn. split; [lia | intro H; lia].
Qed.

(** A send that raises ends the loop: nothing after it is read, and when
    the loop got as far as that send, it is left by its exception. *)
Lemma websocket_loop_stops before : forall limiter current text e after,
  (replies (snd (websocket_loop (before ++ (current, text, Some e) :: after)
                                limiter))
   <= S (List.length before))%nat /\
  (replies (snd (websocket_loop (before ++ (current, text, Some e) :: after)
                                limiter))
   = S (List.length before) ->
   fst (websocket_loop (before ++ (current, text, Some e) :: after) limiter)
   = Raise e).
Proof.
  induction before as [|[[current0 text0] sent0] before IH];
    intros limiter current text e after.
  - cbn [app websocket_loop List.length].
    destruct (parse_payload text) as [payload|exc].
    + destruct (Limiter.consume current limiter) as [allowed limiter'].
      rewrite (@bind_trace unit unit), (@bind_outcome unit unit).
      cbn [emit fst snd].
      destruct allowed; cbn [negb].
      * rewrite (@bind_trace json unit), (@bind_outcome json unit).
        pose proof (process_frame_replies payload) as Hnone.
        destruct (process_frame payload) as [[result|e0] tr]; cbn [fst snd] in *.
        -- rewrite send_json_run. cbn [fst snd app replies].
           rewrite replies_app, Hnone. cbn. split; [lia | reflexivity].
        -- cbn [app replies]. rewrite Hnone. split; [lia | intro H; lia].
      * rewrite send_json_run. cbn. split; [lia | reflexivity].
    + destruct (is_Exception exc).
      * rewrite send_json_run. cbn. split; [lia | reflexivity].
      * cbn. split; [lia | intro H; lia].
  - cbn [app websocket_loop List.length].
    assert (Hstep : forall reply limiter' skipped,
              replies skipped = O ->
              (replies (skipped ++ snd (send_json reply sent0 ;;;
                          websocket_loop
                            (before ++ (current, text, Some e) :: after)
                            limiter'))
               <= S (S (List.length before)))%nat /\
              (replies (skipped ++ snd (send_json reply sent0 ;;;
                          websocket_loop
                            (before ++ (current, text, Some e) :: after)
                            limiter'))
               = S (S (List.length before)) ->
               fst (send_json reply sent0 ;;;
                    websocket_loop
                      (before ++ (current, text, Some e) :: after) limiter')
               = Raise e)).
    { intros reply limiter' skipped Hnone.
      destruct (IH limiter' current text e after) as [IHle IHeq].
      rewrite send_json_run, replies_app, Hnone.
      destruct sent0 as [e0|]; cbn [fst snd replies plus].
      - split; [lia | intro H; lia].
      - split; [lia|]. intro Hcount. apply IHeq. lia. }
    destruct (parse_payload text0) as [payload|exc].
    + destruct (Limiter.consume current0 limiter) as [allowed limiter'].
      rewrite (@bind_trace unit unit), (@bind_outcome unit unit).
      cbn [emit fst snd].
      destruct allowed; cbn [negb].
      * rewrite (@bind_trace json unit), (@bind_outcome json unit).
        pose proof (process_frame_replies payload) as Hnone.
        destruct (process_frame payload) as [[result|e0] tr]; cbn [fst snd] in *.
        -- apply (Hstep result limiter' (Consumed true :: tr)). exact Hnone.
        -- cbn [app replies]. rewrite Hnone. split; [lia | intro H; lia].
      * apply (Hstep _ limiter' [Consumed false]). reflexivity.
    + destruct (is_Exception exc).
      * apply (Hstep _ limiter []). reflexivity.
      * cbn. split; [lia | intro H; lia].
Qed.

(** When every send returns, the loop does what the loop of [WebStream]
    does, which takes the sends to return: the same events, and the end
    of the messages where that one returns. *)
Lemma websocket_loop_sends_return messages : forall limiter,
  Forall (fun m => sent m = None) messages ->
  snd (websocket_loop messages limiter)
  = snd (WebStream.websocket_loop settings b64decode cv2_installed imdecode
           process_remote_frame parse_payload (map fst messages) limiter) /\
  (fst (WebStream.websocket_loop settings b64decode cv2_installed imdecode
          process_remote_frame parse_payload (map fst messages) limiter)
   = Return tt <->
   replies (snd (websocket_loop messages limiter)) = List.length messages).
Proof.
  induction messages as [|[[current text] sent0] messages IH];
    intros limiter Hall.
  - cbn. split; [reflexivity | split; reflexivity].
  - inversion Hall as [|? ? Hsent Hrest]; subst. cbn [sent snd] in Hsent.
    subst sent0.
    cbn [websocket_loop WebStream.websocket_loop map fst List.length].
    assert (Hstep : forall reply limiter' (skipped : list event),
              replies skipped = O ->
              ((skipped ++ snd (send_json reply None ;;;
                                websocket_loop messages limiter'))%list
               = (skipped ++ snd (emit (Reply reply) ;;;
                     WebStream.websocket_loop settings b64decode cv2_installed
                       imdecode process_remote_frame parse_payload
                       (map fst messages) limiter'))%list) /\
              (fst (emit (Reply reply) ;;;
                    WebStream.websocket_loop settings b64decode cv2_installed
                      imdecode process_remote_frame parse_payload
                      (map fst messages) limiter') = Return tt <->
               replies (skipped ++ snd (send_json reply None ;;;
                                        websocket_loop messages limiter'))
               = S (List.length messages))).
    { intros reply limiter' skipped Hnone.
      destruct (IH limiter' Hrest) as [IHtr IHiff].
      rewrite send_json_run, (@bind_trace unit unit), (@bind_outcome unit unit).
      cbn [emit fst snd app]. rewrite IHtr. split; [reflexivity|].
      rewrite IHiff, replies_app, Hnone, <- IHtr. cbn [replies plus].
      split; intro H; lia. }
    destruct (parse_payload text) as [payload|exc].
    + destruct (Limiter.consume current limiter) as [allowed limiter'].
      rewrite !(@bind_trace unit unit), !(@bind_outcome unit unit).
      cbn [emit fst snd].
      destruct allowed; cbn [negb].
      * rewrite !(@bind_trace json unit), !(@bind_outcome json unit).
        fold process_frame.
        pose proof (process_frame_replies payload) as Hnone.
        destruct (process_frame payload) as [[result|e] tr]; cbn [fst snd] in *.
        -- apply (Hstep result limiter' (Consumed true :: tr)). exact Hnone.
        -- split; [reflexivity|]. cbn [app replies]. rewrite Hnone.
           split; [discriminate | intro H; lia].
      * apply (Hstep _ limiter' [Consumed false]). reflexivity.
    + destruct (is_Exception exc).
      * apply (Hstep _ limiter []). reflexivity.
      * cbn. split; [reflexivity|]. split; [discriminate | intro H; lia].
Qed.

(** X4.  The WebSocket handler tries one reply at most for each message
    it receives (the result, the rate-limit error or the invalid-payload
    error).  When it has tried as many replies as there were messages
    and every send returned, it ends by the client leaving and returns.
    A send that raises ends it: no later message is read or answered, and
    when the handler got as far as that send it returns if the send
    raised [WebSocketDisconnect] and raises its exception otherwise; the
    client has then received fewer replies than it sent messages. *)
Theorem one_reply_per_message (now : Q) (messages : list message) :
  (replies (snd (websocket_frames now messages)) <= List.length messages)%nat /\
  (replies (snd (websocket_frames now messages)) = List.length messages ->
   Forall (fun m => sent m = None) messages ->
   fst (websocket_frames now messages) = Return tt) /\
  (forall before current text e after,
     messages = (before ++ (current, text, Some e) :: after)%list ->
     (replies (snd (websocket_frames now messages))
      <= S (List.length before))%nat /\
     (replies (snd (websocket_frames now messages)) = S (List.length before) ->
      fst (websocket_frames now messages) = caught e)).
Proof.
  unfold websocket_frames.
  set (limiter := Limiter.init (WebStream.max_client_fps settings) now).
  destruct (websocket_loop_replies messages limiter) as [Hle Hend].
  split; [|split].
  - destruct (websocket_loop messages limiter) as [[u|e] tr]; exact Hle.
  - intros Hcount Hall.
    destruct (websocket_loop messages limiter) as [[u|e] tr];
      cbn [fst snd] in *.
    + specialize (Hend Hcount Hall). discriminate Hend.
    + specialize (Hend Hcount Hall). injection Hend as ->. reflexivity.
  - intros before current text e after ->.
    destruct (websocket_loop_stops before limiter current text e after)
      as [Hstop Hraise].
    destruct (websocket_loop (before ++ (current, text, Some e) :: after)
                             limiter) as [[u|e0] tr]; cbn [fst snd] in *.
    + split; [exact Hstop|]. intro H. specialize (Hraise H). discriminate Hraise.
    + split; [exact Hstop|]. intro H. specialize (Hraise H).
      injection Hraise as ->. reflexivity.
Qed.

End Loop.

(** Three frames of which the second reply cannot be written: the client
    has left. *)
Definition client_leaves_at_second : list message :=
  [(0%Q, "small", None); (1%Q, "small", Some WebSocketDisconnect);
   (2%Q, "small", None)].

(** That session: two sends are tried, the second raises, the third
    frame is never read, and the handler returns. *)
Example client_leaves_at_second_run :
  replies (snd (websocket_frames Gateway.one_fps Gateway.b64decode_As true
                  Gateway.imdecode_row Gateway.engine_idle
                  Gateway.parse_by_name 0%Q client_leaves_at_second)) = 2%nat /\
  fst (websocket_frames Gateway.one_fps Gateway.b64decode_As true
         Gateway.imdecode_row Gateway.engine_idle
         Gateway.parse_by_name 0%Q client_leaves_at_second) = Return tt.
Proof. split; reflexivity. Qed.

End Admission.

(* ================================================================== *)
(** ** More on [ConnectionManager] and the [/ws/tracking] endpoint *)
(* ================================================================== *)

Module Subscribers.

Import Registry.

Section Manager.

Variable WebSocket : Type.
Variable WebSocket_eq_dec : forall a b : WebSocket, {a = b} + {a <> b}.
Variable json : Type.

Let manager := ConnectionManager WebSocket.
Let broadcast := @Registry.broadcast WebSocket WebSocket_eq_dec json.
Let broadcast_live := @Registry.broadcast_live WebSocket WebSocket_eq_dec json.
Let disconnect := @Registry.disconnect WebSocket WebSocket_eq_dec json.

(** The pass up to a [send_json] that raises past [except Exception]. *)
Lemma deliver_interrupted (send_json : WebSocket -> json -> option exn)
  message before connection after e : forall disconnected,
  (forall c e', In c before -> send_json c message = Some e' ->
                is_Exception e' = true) ->
  send_json connection message = Some e ->
  is_Exception e = false ->
  fst (fst (deliver send_json message (before ++ connection :: after)
              disconnected)) = Some e /\
  snd (deliver send_json message (before ++ connection :: after) disconnected)
  = map (attempt send_json message) before
    ++ [SendFailed connection message e].
Proof.
  induction before as [|c before IH]; intros disconnected Hexc Hsend Hbase.
  - cbn. rewrite Hsend, Hbase. cbn. auto.
  - cbn [app deliver map]. unfold attempt at 1.
    destruct (send_json c message) as [e'|] eqn:Ec.
    + rewrite (Hexc c e' (or_introl eq_refl) Ec).
      destruct (IH (disconnected ++ [c])) as [IH1 IH2];
        [intros c0 e0 H0; apply Hexc; now right | exact Hsend | exact Hbase |].
      destruct (deliver send_json message (before ++ connection :: after)
                  (disconnected ++ [c])) as [[r d] tr].
      cbn [fst snd] in *. subst. auto.
    + destruct (IH disconnected) as [IH1 IH2];
        [intros c0 e0 H0; apply Hexc; now right | exact Hsend | exact Hbase |].
      destruct (deliver send_json message (before ++ connection :: after)
                  disconnected) as [[r d] tr].
      cbn [fst snd] in *. subst. auto.
Qed.

(** X5.  In a pass during which no other handler unregisters a
    connection, whatever number of sends raise an [Exception],
    [broadcast] returns, every entry is tried once in order, the registry
    keeps exactly the connections whose send returned, in their order,
    and the removals come after the last send; a second such pass with
    the same answers then reaches every connection left and removes
    nothing. *)
Theorem broadcast_prunes_every_failure
  (send_json : WebSocket -> json -> option exn) (message : json)
  (interrupts again : list (list WebSocket)) (self : manager) :
  List.concat interrupts = [] ->
  List.concat again = [] ->
  (forall c e, In c (active_connections self) ->
               send_json c message = Some e -> is_Exception e = true) ->
  exists self',
    broadcast_live send_json interrupts message self
    = (Return tt, self',
       map (attempt send_json message) (active_connections self)
       ++ map (@Removed WebSocket json)
              (filter (fails send_json message) (active_connections self))) /\
    active_connections self'
    = filter (fun c => negb (fails send_json message c))
             (active_connections self) /\
    broadcast_live send_json again message self'
    = (Return tt, self',
       map (fun c => Sent c message) (active_connections self')).
Proof.
  intros Hquiet Hagain Hexc.
  exists {| active_connections :=
              filter (fun c => negb (fails send_json message c))
                     (active_connections self) |}.
  unfold broadcast_live.
  rewrite (broadcast_live_quiet WebSocket_eq_dec send_json interrupts message
             self Hquiet).
  rewrite (broadcast_live_quiet WebSocket_eq_dec send_json again message
             _ Hagain).
  split; [now apply broadcast_all|]. split; [reflexivity|].
  rewrite broadcast_all.
  - cbn [active_connections].
    set (l := filter (fun c => negb (fails send_json message c))
                     (active_connections self)).
    assert (Hall : forall c, In c l -> fails send_json message c = false).
    { intros c Hc. apply filter_In in Hc. destruct Hc as [_ Hc].
      now apply negb_true_iff in Hc. }
    clearbody l.
    assert (Hkeep : filter (fun c => negb (fails send_json message c)) l = l).
    { induction l as [|c l IH]; [reflexivity|].
      cbn [filter]. rewrite (Hall c (or_introl eq_refl)). cbn [negb].
      f_equal. apply IH. intros c' Hc'. apply Hall. now right. }
    assert (Hnone : filter (fails send_json message) l = []).
    { induction l as [|c l IH]; [reflexivity|].
      cbn [filter]. rewrite (Hall c (or_introl eq_refl)).
      apply IH.
      - intros c' Hc'. apply Hall. now right.
      - cbn [filter] in Hkeep. rewrite (Hall c (or_introl eq_refl)) in Hkeep.
        cbn [negb] in Hkeep. now injection Hkeep. }
    assert (Hsent : map (attempt send_json message) l
                    = map (fun c => Sent c message) l).
    { apply map_ext_in. intros c Hc. apply Hall in Hc.
      unfold fails in Hc. unfold attempt.
      destruct (send_json c message); [discriminate | reflexivity]. }
    rewrite Hkeep, Hnone, Hsent. cbn [map]. now rewrite app_nil_r.
  - cbn [active_connections]. intros c e Hc He.
    apply filter_In in Hc. destruct Hc as [Hc _]. now apply (Hexc c e).
Qed.

(** X6.  When a send raises an exception that [except Exception] does not
    catch (the task is cancelled), [broadcast] raises it at once: the
    connections after that one are not tried, and no connection is
    removed, not even those whose send had failed before. *)
Theorem broadcast_cancelled_midway
  (send_json : WebSocket -> json -> option exn) (message : json)
  (self : manager) (before after : list WebSocket) (connection : WebSocket)
  (e : exn) :
  active_connections self = before ++ connection :: after ->
  (forall c e', In c before -> send_json c message = Some e' ->
                is_Exception e' = true) ->
  send_json connection message = Some e ->
  is_Exception e = false ->
  broadcast send_json message self
  = (Raise e, self,
     map (attempt send_json message) before
     ++ [SendFailed connection message e]).
Proof.
  intros Hactive Hexc Hsend Hbase.
  unfold broadcast, Registry.broadcast. rewrite Hactive.
  destruct (@deliver_interrupted send_json message before connection after e
              [] Hexc Hsend Hbase) as [Hr Htr].
  destruct (deliver send_json message (before ++ connection :: after) [])
    as [[r d] tr].
  cbn [fst snd] in Hr, Htr. subst r tr.
  destruct before; reflexivity.
Qed.

(** X7.  [disconnect] is safe to repeat: on a registry without duplicates
    it leaves every other connection in place and in order, and a second
    call for the same connection changes nothing and removes nothing. *)
Theorem disconnect_is_idempotent (websocket : WebSocket) (self : manager) :
  NoDup (active_connections self) ->
  active_connections (fst (disconnect websocket self))
  = filter (fun c => if WebSocket_eq_dec websocket c then false else true)
           (active_connections self) /\
  disconnect websocket (fst (disconnect websocket self))
  = (fst (disconnect websocket self), []).
Proof.
  intro Hnd. split.
  - unfold disconnect, Registry.disconnect.
    destruct (contains WebSocket_eq_dec websocket (active_connections self))
      eqn:Ein; cbn [fst active_connections].
    + clear Ein. induction Hnd as [|c l Hc Hl IH]; [reflexivity|].
      cbn [remove_first filter].
      destruct (WebSocket_eq_dec websocket c) as [->|Hne].
      * symmetry. apply forallb_filter_id. apply forallb_forall.
        intros x Hx. destruct (WebSocket_eq_dec c x) as [->|]; [contradiction|].
        reflexivity.
      * f_equal. exact IH.
    + apply contains_false_iff in Ein. symmetry.
      apply forallb_filter_id. apply forallb_forall.
      intros x Hx. destruct (WebSocket_eq_dec websocket x) as [->|];
        [contradiction | reflexivity].
  - destruct (disconnect_sound WebSocket_eq_dec json websocket self)
      as (_ & Hgone & _).
    destruct (Hgone Hnd) as [_ Habsent].
    apply (contains_false_iff WebSocket_eq_dec) in Habsent.
    unfold disconnect. unfold Registry.disconnect at 1.
    now rewrite Habsent.
Qed.

End Manager.

(** *** [websocket_endpoint], the handler of [/ws/tracking] *)

Section Endpoint.

Import Frame.
Local Open Scope string_scope.

Variable WebSocket : Type.
Variable WebSocket_eq_dec : forall a b : WebSocket, {a = b} + {a <> b}.

(** One turn of the [while True] loop: a text received within 30 seconds
    and what sending the pong did, a timeout and what sending the
    heartbeat (with its timestamp) did, or the exception that
    [receive_text] raised. *)
Inductive round : Type :=
| Text (data : string) (pong : option exn)
| Idle (timestamp : string) (heartbeat : option exn)
| Broken (e : exn).

(** How the handler stands after the rounds: still waiting for the
    client, returned after an exception it caught, or left by an
    exception it did not catch. *)
Inductive ending : Type :=
| Open
| Closed
| Escaped (e : exn).

(** One [send_json] on the socket of the handler. *)
Definition send (websocket : WebSocket) (message : json) (sent : option exn)
  : option exn * list (Registry.event WebSocket json) :=
  match sent with
  | None => (None, [Sent websocket message])
  | Some e => (Some e, [SendFailed websocket message e])
  end.

(** The [while True] loop: the exception that leaves it, if any. *)
Fixpoint serve (websocket : WebSocket) (rounds : list round)
  : option exn * list (Registry.event WebSocket json) :=
  match rounds with
  | [] => (None, [])
  | Text data pong :: rounds' =>
      match send websocket
              (JDict [("type", JStr "pong"); ("data", JStr data)]) pong with
      | (None, tr) =>
          let (leaving, tr') := serve websocket rounds' in
          (leaving, (tr ++ tr')%list)
      | raised => raised
      end
  | Idle timestamp heartbeat :: rounds' =>
      match send websocket
              (JDict [("type", JStr "heartbeat");
                      ("timestamp", JStr timestamp)]) heartbeat with
      | (None, tr) =>
          let (leaving, tr') := serve websocket rounds' in
          (leaving, (tr ++ tr')%list)
      | raised => raised
      end
  | Broken e :: _ => (Some e, [])
  end.

(** [websocket_endpoint(websocket)].  [accepted] is what the handshake in
    [manager.connect] did; [initial_status] is the status built from the
    tracker ([None] without a tracker, the exception if building it
    raises) and [greeted] what sending it did. *)
Definition websocket_endpoint (accepted : option exn)
  (initial_status : option (outcome json)) (greeted : option exn)
  (rounds : list round) (websocket : WebSocket)
  (self : ConnectionManager WebSocket)
  : ending * ConnectionManager WebSocket * list (Registry.event WebSocket json) :=
  match Registry.connect accepted websocket self with
  | (Raise e, self') => (Escaped e, self', [])
  | (Return _, self') =>
      let '(leaving, tr) :=
        match initial_status with
        | Some (Raise e) => (Some e, [])
        | Some (Return status) =>
            match send websocket status greeted with
            | (None, tr) =>
                let (left, tr') := serve websocket rounds in
                (left, (tr ++ tr')%list)
            | raised => raised
            end
        | None => serve websocket rounds
        end in
      match leaving with
      | None => (Open, self', tr)
      | Some e =>
          if is_Exception e
          then
            let (self'', tr') :=
              Registry.disconnect WebSocket_eq_dec json websocket self' in
            (Closed, self'', (tr ++ tr')%list)
          else (Escaped e, self', tr)
      end
  end.



End Endpoint.

(** X5 with three subscribers of which the first and the last fail. *)
Definition ends_closed (c : nat) (_ : string) : option exn :=
  if Nat.eqb c 2 then None else Some WebSocketDisconnect.

Lemma broadcast_prunes_every_failure_witness :
  exists self',
    Registry.broadcast_live Nat.eq_dec ends_closed [[]; []; []] "state"%string
      (mkManager [1; 2; 3]%nat)
    = (Return tt, self',
       (map (attempt ends_closed "state"%string) [1; 2; 3]%nat
        ++ map (@Removed nat string)
               (filter (fails ends_closed "state"%string) [1; 2; 3]%nat))%list) /\
    active_connections self'
    = filter (fun c => negb (fails ends_closed "state"%string c))
             [1; 2; 3]%nat /\
    Registry.broadcast_live Nat.eq_dec ends_closed [] "state"%string self'
    = (Return tt, self',
       map (fun c => Sent c "state"%string) (active_connections self')).
Proof.
  apply (@broadcast_prunes_every_failure nat Nat.eq_dec string ends_closed
           "state"%string [[]; []; []] [] (mkManager [1; 2; 3]%nat)).
  - reflexivity.
  - reflexivity.
  - intros c e Hc He. unfold ends_closed in He.
    destruct (Nat.eqb c 2); [discriminate|].
    injection He as <-. reflexivity.
Defined.

(** X6 with three subscribers: the first send fails, the second is
    interrupted by the cancellation of the task. *)
Definition cancelled_at_two (c : nat) (_ : string) : option exn :=
  match c with
  | 1%nat => Some WebSocketDisconnect
  | 2%nat => Some CancelledError
  | _ => None
  end.

Lemma broadcast_cancelled_midway_witness :
  Registry.broadcast Nat.eq_dec cancelled_at_two "state"%string
    (mkManager [1; 2; 3]%nat)
  = (Raise CancelledError, mkManager [1; 2; 3]%nat,
     (map (attempt cancelled_at_two "state"%string) [1%nat]
      ++ [SendFailed 2%nat "state"%string CancelledError])%list).
Proof.
  apply (@broadcast_cancelled_midway nat Nat.eq_dec string cancelled_at_two
           "state"%string (mkManager [1; 2; 3]%nat) [1%nat] [3%nat] 2%nat
           CancelledError).
  - reflexivity.
  - intros c e [<-|[]] He. injection He as <-. reflexivity.
  - reflexivity.
  - reflexivity.
Defined.

(** X7 on a registry of three. *)
Lemma disconnect_is_idempotent_witness :
  active_connections
    (fst (Registry.disconnect Nat.eq_dec string 2%nat (mkManager [1; 2; 3]%nat)))
  = filter (fun c => if Nat.eq_dec 2 c then false else true) [1; 2; 3]%nat /\
  Registry.disconnect Nat.eq_dec string 2%nat
    (fst (Registry.disconnect Nat.eq_dec string 2%nat (mkManager [1; 2; 3]%nat)))
  = (fst (Registry.disconnect Nat.eq_dec string 2%nat (mkManager [1; 2; 3]%nat)),
     []).
Proof.
  apply (@disconnect_is_idempotent nat Nat.eq_dec string 2%nat
           (mkManager [1; 2; 3]%nat)).
  repeat constructor; cbn; intuition discriminate.
Defined.

(** A session: greeted, one text, one idle period, then the client
    leaves. *)
Definition session : list round :=
  [Text "ping" None; Idle "2024-01-01T00:00:00" None;
   Broken WebSocketDisconnect].


(** The same session, evaluated. *)
Example session_run :
  websocket_endpoint Nat.eq_dec None (Some (Return (Frame.JDict []))) None
    session 9%nat (mkManager [1; 2]%nat)
  = (Closed, mkManager [1; 2]%nat,
     [Sent 9%nat (Frame.JDict []);
      Sent 9%nat (Frame.JDict [("type"%string, Frame.JStr "pong");
                               ("data"%string, Frame.JStr "ping")]);
      Sent 9%nat (Frame.JDict [("type"%string, Frame.JStr "heartbeat");
                               ("timestamp"%string,
                                Frame.JStr "2024-01-01T00:00:00")]);
      Removed 9%nat]).
Proof. reflexivity. Qed.

End Subscribers.

(* ================================================================== *)
(** ** What the ingestion handlers return and raise *)
(* ================================================================== *)

Module Outcomes.

Import Frame.
Local Open Scope string_scope.
Local Open Scope Z_scope.

Section Handlers.

Variable settings : WebStream.Settings.
Variable b64decode : string -> option (list Byte.byte).
Variable cv2_installed : bool.
Variable imdecode : list Byte.byte -> option ndarray.
Variable process_remote_frame :
  ndarray -> string -> string -> option string -> outcome (json * json).

Let decode_frame :=
  WebStream.decode_frame settings b64decode cv2_installed imdecode.
Let process_frame :=
  WebStream.process_frame settings b64decode cv2_installed imdecode
    process_remote_frame.
Let receive_browser_frame (eye_tracker : option FastApi.EyeTrackingService) :=
  FastApi.receive_browser_frame eye_tracker b64decode imdecode
    process_remote_frame.

(** A data URL that does not hold an image: no comma, a payload that is
    not base64, or bytes for which [cv2.imdecode] returns [None].  The
    bytes are not empty: on an empty buffer OpenCV 4 raises [cv2.error]
    instead of returning, which [imdecode] does not describe. *)
Definition undecodable (data_url : string) : Prop :=
  match split_once "," data_url with
  | None => True
  | Some (_, b64_data) =>
      match b64decode b64_data with
      | None => True
      | Some raw_bytes => raw_bytes <> [] /\ imdecode raw_bytes = None
      end
  end.

(** When [decode_frame] returns, it has decoded the part after the first
    comma, within the limit, and done nothing else. *)
Lemma decode_frame_returns data_url image :
  fst (decode_frame data_url) = Return image ->
  exists header b64_data raw_bytes,
    split_once "," data_url = Some (header, b64_data) /\
    b64decode b64_data = Some raw_bytes /\
    Z.of_nat (List.length raw_bytes) <= WebStream.max_frame_kb settings * 1024 /\
    imdecode raw_bytes = Some image /\
    snd (decode_frame data_url) = [B64Decode b64_data; ImDecode raw_bytes].
Proof.
  unfold decode_frame, WebStream.decode_frame.
  destruct (split_once "," data_url) as [[header b64_data]|]; [|discriminate].
  cbn [bind emit].
  destruct (b64decode b64_data) as [raw_bytes|] eqn:Eb64; [|discriminate].
  destruct (Z.of_nat (List.length raw_bytes)
            >? WebStream.max_frame_kb settings * 1024) eqn:Esize;
    [discriminate|].
  destruct cv2_installed; [|discriminate].
  cbn [bind emit].
  destruct (imdecode raw_bytes) as [image'|] eqn:Eim; [|discriminate].
  cbn. intro H. injection H as <-.
  exists header, b64_data, raw_bytes.
  repeat split; try assumption; try reflexivity.
  rewrite Z.gtb_ltb in Esize. now apply Z.ltb_ge in Esize.
Qed.

(** What [decode_frame] raises on a data URL that holds no image. *)
Lemma decode_frame_undecodable data_url :
  undecodable data_url ->
  cv2_installed = true ->
  exists e, fst (decode_frame data_url) = Raise e /\
            ((exists msg, e = ValueError msg) \/
             e = HTTPException 413 "Frame exceeds size limit").
Proof.
  unfold undecodable, decode_frame, WebStream.decode_frame.
  intros Hbad Hcv2. rewrite Hcv2.
  destruct (split_once "," data_url) as [[header b64_data]|].
  2:{ eexists. split; [reflexivity | left; eexists; reflexivity]. }
  cbn [bind emit].
  destruct (b64decode b64_data) as [raw_bytes|].
  2:{ eexists. split; [reflexivity | left; eexists; reflexivity]. }
  destruct (Z.of_nat (List.length raw_bytes)
            >? WebStream.max_frame_kb settings * 1024).
  { eexists. split; [reflexivity | now right]. }
  cbn [bind emit]. destruct Hbad as [_ Hbad]. rewrite Hbad.
  eexists. split; [reflexivity | left; eexists; reflexivity].
Qed.

(** X9.  [process_frame] returns only when every step succeeded:
    streaming is enabled, the payload names a user and a module, its data
    URL decodes (part after the first comma, within the size limit) to an
    image, and the engine returned a status that is a dict.  Then the
    trace is the transport decoding, the image decoding and one call of
    the engine with the ids of the payload, and the response echoes the
    frame id, the ids and the timestamp with [success] true. *)
Theorem process_frame_returns (payload : WebStream.FramePayload)
  (response : json) :
  fst (process_frame payload) = Return response ->
  WebStream.browser_streaming_enabled settings = true /\
  exists uid mid header b64_data raw_bytes image items frame_data,
    WebStream.user_id payload = Some uid /\ uid <> "" /\
    WebStream.module_id payload = Some mid /\ mid <> "" /\
    split_once "," (WebStream.frame_base64 payload) = Some (header, b64_data) /\
    b64decode b64_data = Some raw_bytes /\
    Z.of_nat (List.length raw_bytes) <= WebStream.max_frame_kb settings * 1024 /\
    imdecode raw_bytes = Some image /\
    process_remote_frame image uid mid (WebStream.section_id payload)
    = Return (JDict items, frame_data) /\
    snd (process_frame payload)
    = [B64Decode b64_data; ImDecode raw_bytes;
       Dispatch image uid mid (WebStream.section_id payload)] /\
    response
    = JDict [("success", JBool true);
             ("frame_id", JStr (WebStream.frame_id payload));
             ("user_id", JStr uid);
             ("module_id", JStr mid);
             ("section_id", json_of_opt (WebStream.section_id payload));
             ("timestamp", JNum (WebStream.timestamp payload));
             ("status", JDict items);
             ("metrics", dict_get "metrics" items);
             ("current_frame", frame_data)].
Proof.
  unfold process_frame, WebStream.process_frame.
  destruct (WebStream.browser_streaming_enabled settings); cbn [negb];
    [|discriminate].
  destruct (truthy (WebStream.user_id payload)) eqn:Eu; cbn [negb orb];
    [|discriminate].
  destruct (truthy (WebStream.module_id payload)) eqn:Em; cbn [negb orb];
    [|discriminate].
  apply truthy_Some in Eu, Em. destruct Eu as [Eu Hu], Em as [Em Hm].
  pose proof (@decode_frame_returns (WebStream.frame_base64 payload)) as Hdec.
  unfold decode_frame in Hdec.
  destruct (WebStream.decode_frame settings b64decode cv2_installed imdecode
              (WebStream.frame_base64 payload)) as [[image|e] tr];
    cbn [bind fst snd] in Hdec |- *; [|discriminate].
  destruct (Hdec image eq_refl)
    as (header & b64_data & raw_bytes & Hsplit & Hb64 & Hsize & Him & Htr).
  subst tr.
  set (uid := match WebStream.user_id payload with
              | Some u => u | None => "" end) in *.
  set (mid := match WebStream.module_id payload with
              | Some m => m | None => "" end) in *.
  destruct (process_remote_frame image uid mid (WebStream.section_id payload))
    as [[status frame_data]|e] eqn:Eengine; [|discriminate].
  destruct status as [| | | | |items]; try discriminate.
  cbn. intro H. injection H as <-.
  split; [reflexivity|].
  exists uid, mid, header, b64_data, raw_bytes, image, items, frame_data.
  rewrite Eu, Em.
  repeat split; try assumption; reflexivity.
Qed.

(** X10.  A frame that does not hold an image (no comma in the data URL,
    a payload that is not base64, bytes, at least one, for which
    [cv2.imdecode] returns [None]) is treated differently by the two
    services.  [process_frame] of
    [web_stream_service] (streaming enabled, ids present, cv2 installed)
    raises the bare [ValueError] of the failing step, or the 413 when the
    bytes exceed the limit, and never calls the engine: no 400 is made of
    it.  [receive_browser_frame] of [fastapi_service] answers 400 and
    never calls the engine. *)
Theorem undecodable_frame_errors (data_url : string) :
  undecodable data_url ->
  (forall payload : WebStream.FramePayload,
     WebStream.frame_base64 payload = data_url ->
     WebStream.browser_streaming_enabled settings = true ->
     truthy (WebStream.user_id payload) = true ->
     truthy (WebStream.module_id payload) = true ->
     cv2_installed = true ->
     (exists e, fst (process_frame payload) = Raise e /\
                ((exists msg, e = ValueError msg) \/
                 e = HTTPException 413 "Frame exceeds size limit")) /\
     Forall (fun ev => is_dispatch ev = false) (snd (process_frame payload))) /\
  (forall tracker now (payload : FastApi.FramePayload),
     FastApi.frame_base64 payload = data_url ->
     (exists detail,
        fst (receive_browser_frame (Some tracker) now payload)
        = Raise (HTTPException 400 detail)) /\
     Forall (fun ev => is_dispatch ev = false)
            (snd (receive_browser_frame (Some tracker) now payload))).
Proof.
  intro Hbad. split.
  - intros payload Hurl Hon Hu Hm Hcv2.
    destruct (@decode_frame_undecodable data_url Hbad Hcv2)
      as (e & Hraise & Hkind).
    destruct (WebStream.decode_frame_sound settings b64decode cv2_installed
                imdecode data_url) as [Htr _].
    unfold process_frame, WebStream.process_frame.
    rewrite Hon, Hu, Hm, Hurl. cbn [negb orb].
    unfold decode_frame in Hraise.
    destruct (WebStream.decode_frame settings b64decode cv2_installed imdecode
                data_url) as [r tr].
    cbn [fst snd] in Hraise, Htr. subst r. cbn [bind fst snd].
    split; [exists e; split; [reflexivity | exact Hkind]|].
    eapply Forall_impl; [|exact Htr]. intros ev H. apply H.
  - intros tracker now payload Hurl.
    unfold receive_browser_frame, FastApi.receive_browser_frame,
      FastApi.receive_body.
    destruct (FastApi.decode_sound b64decode imdecode payload) as [Htr Hexc].
    assert (Hfail : exists e, fst (FastApi.decode b64decode imdecode payload)
                              = Raise e).
    { unfold undecodable in Hbad. unfold FastApi.decode. rewrite Hurl.
      destruct (split_once "," data_url) as [[header b64_data]|];
        [|eexists; reflexivity].
      cbn [bind emit].
      destruct (b64decode b64_data) as [raw_bytes|]; [|eexists; reflexivity].
      cbn [bind emit]. destruct Hbad as [_ Hbad]. rewrite Hbad.
      eexists. reflexivity. }
    destruct Hfail as [e He].
    destruct (FastApi.decode b64decode imdecode payload) as [r tr].
    cbn [fst snd] in He, Htr, Hexc. subst r.
    cbn [except_Exception]. rewrite (Hexc e eq_refl). cbn.
    rewrite !app_nil_r.
    split; [eexists; reflexivity | exact Htr].
Qed.

(** X11.  [receive_browser_frame] turns every failure into an HTTP error:
    an exception it raises that is an [Exception] is an [HTTPException],
    with status 503 (no tracker), 400 (frame or ids) or 500 (the engine
    failed), unless the engine itself raised that [HTTPException]. *)
Theorem receive_raises_http_errors
  (eye_tracker : option FastApi.EyeTrackingService) (now : Q)
  (payload : FastApi.FramePayload) (e : exn) :
  fst (receive_browser_frame eye_tracker now payload) = Raise e ->
  is_Exception e = true ->
  exists code detail,
    e = HTTPException code detail /\
    (code = 503 \/ code = 400 \/ code = 500 \/
     exists frame uid mid sid, process_remote_frame frame uid mid sid = Raise e).
Proof.
  unfold receive_browser_frame, FastApi.receive_browser_frame,
    FastApi.receive_body.
  destruct eye_tracker as [tracker|].
  2:{ cbn. intros H _. injection H as <-. do 2 eexists. split; [reflexivity|auto]. }
  destruct (FastApi.decode_sound b64decode imdecode payload) as [_ Hexc].
  destruct (FastApi.decode b64decode imdecode payload) as [[frame|e0] tr];
    cbn [fst snd] in Hexc.
  - cbn [except_Exception bind].
    destruct (negb (truthy (or_else (FastApi.user_id payload)
                                    (FastApi.current_user_id tracker)))
              || negb (truthy (or_else (FastApi.module_id payload)
                                       (FastApi.current_module_id tracker))))%bool.
    { cbn. intros H _. injection H as <-.
      do 2 eexists. split; [reflexivity|auto]. }
    match goal with
    | |- context [process_remote_frame ?i ?u ?m ?s] =>
        destruct (process_remote_frame i u m s) as [[status frame_data]|e1]
          eqn:Eengine
    end.
    + cbn. discriminate.
    + cbn. destruct (is_Exception e1) eqn:He1.
      * destruct e1; cbn; intros H _; injection H as <-;
          do 2 eexists; (split; [reflexivity|]);
          try (right; right; left; reflexivity).
        right. right. right. do 4 eexists. exact Eengine.
      * cbn. intros H He. injection H as <-. congruence.
  - cbn [except_Exception]. rewrite (Hexc e0 eq_refl). cbn.
    intros H _. injection H as <-.
    do 2 eexists. split; [reflexivity|auto].
Qed.

End Handlers.

(** X10 on three zero bytes sent as a PNG, which is no image. *)
Lemma undecodable_frame_errors_witness :
  (exists e,
     fst (WebStream.process_frame Gateway.default_settings
            Base64.b64decode true Gateway.imdecode_black_pixel
            Gateway.engine_idle
            (WebStream.mkPayload "f" (Some "u1") (Some "m1") None 0%Q None
               "data:image/png;base64,AAAA"))
     = Raise e /\
     ((exists msg, e = ValueError msg) \/
      e = HTTPException 413 "Frame exceeds size limit")) /\
  (exists detail,
     fst (FastApi.receive_browser_frame (Some Gateway.tracking_u1)
            Base64.b64decode Gateway.imdecode_black_pixel Gateway.engine_idle
            0%Q
            (FastApi.mkPayload None None None None None None
               "data:image/png;base64,AAAA"))
     = Raise (HTTPException 400 detail)).
Proof.
  assert (Hbad : undecodable Base64.b64decode Gateway.imdecode_black_pixel
                   "data:image/png;base64,AAAA")
    by (vm_compute; split; [discriminate | reflexivity]).
  destruct (@undecodable_frame_errors Gateway.default_settings
              Base64.b64decode true Gateway.imdecode_black_pixel
              Gateway.engine_idle "data:image/png;base64,AAAA" Hbad)
    as [Hweb Hfast].
  split.
  - apply (Hweb (WebStream.mkPayload "f" (Some "u1") (Some "m1") None 0%Q None
                   "data:image/png;base64,AAAA")); reflexivity.
  - apply (Hfast Gateway.tracking_u1 0%Q
             (FastApi.mkPayload None None None None None None
                "data:image/png;base64,AAAA")).
    reflexivity.
Defined.

(** That frame in [process_frame]: the [ValueError] of the decoding. *)
Example zero_bytes_not_decoded :
  WebStream.process_frame Gateway.default_settings Base64.b64decode true
    Gateway.imdecode_black_pixel Gateway.engine_idle
    (WebStream.mkPayload "f" (Some "u1") (Some "m1") None 0%Q None
       "data:image/png;base64,AAAA")
  = (Raise (ValueError "cv2.imdecode returned None"),
     [B64Decode "AAAA"; ImDecode [Byte.x00; Byte.x00; Byte.x00]]).
Proof. reflexivity. Qed.

(** X9 on the bench: the frame of three bytes. *)
Lemma process_frame_returns_witness :
  snd (WebStream.process_frame Gateway.default_settings Gateway.b64decode_As
         true Gateway.imdecode_row Gateway.engine_idle Gateway.small_frame)
  = Gateway.small_frame_events.
Proof.
  destruct (@process_frame_returns Gateway.default_settings
              Gateway.b64decode_As true Gateway.imdecode_row
              Gateway.engine_idle Gateway.small_frame
              (Gateway.response "f1" 0%Q) eq_refl)
    as (_ & uid & mid & header & b64_data & raw_bytes & image & items
        & frame_data & Hu & _ & Hm & _ & Hsplit & Hb64 & _ & Him & _ & Htr & _).
  rewrite Htr.
  injection Hu as <-. injection Hm as <-.
  cbn in Hsplit. injection Hsplit as <- <-.
  cbn in Hb64. injection Hb64 as <-.
  cbn in Him. injection Him as <-.
  reflexivity.
Defined.

(** X11 on the bench: no tracker, the 503. *)
Lemma receive_raises_http_errors_witness :
  exists code detail,
    HTTPException 503 "Eye tracking service not initialized"
    = HTTPException code detail /\
    (code = 503 \/ code = 400 \/ code = 500 \/
     exists frame uid mid sid,
       Gateway.engine_idle frame uid mid sid
       = Raise (HTTPException 503 "Eye tracking service not initialized")).
Proof.
  apply (@receive_raises_http_errors Gateway.b64decode_As Gateway.imdecode_row
           Gateway.engine_idle None 0%Q Gateway.bare_frame).
  - reflexivity.
  - reflexivity.
Defined.

End Outcomes.

(* ================================================================== *)
(** ** [lifespan] when a step fails *)
(* ================================================================== *)

Module Teardown.

Import Lifecycle.

(** The globals after a startup that constructed [service]. *)
Definition started (service : EyeTrackingService) : globals :=
  {| eye_tracker := Some service;
     frame_processing_task := Some process_frames_background;
     websocket_broadcast_task := Some broadcast_websocket_updates |}.

(** The four steps up to the point where the application serves. *)
Definition up_to_serving : list event :=
  [EngineConstructed;
   TaskCreated process_frames_background;
   TaskCreated broadcast_websocket_updates;
   Serving].

Section Lifespan.

Variable construct : outcome EyeTrackingService.
Variable awaited : coroutine -> option exn.
Variable stop_tracking : option exn.
Variable release : option exn.

Let startup := startup construct.
Let cancel_and_await := cancel_and_await awaited.
Let stop_engine := stop_engine stop_tracking release.
Let shutdown := shutdown awaited stop_tracking release.
Let lifespan := lifespan construct awaited stop_tracking release.

(** Awaiting a cancelled task raises nothing that is not an [Exception]:
    the [CancelledError] is caught on the spot. *)
Lemma cancel_and_await_raises task e :
  fst (cancel_and_await task) = Raise e ->
  is_Exception e = true /\ exists c, task = Some c /\ awaited c = Some e.
Proof.
  unfold cancel_and_await, Lifecycle.cancel_and_await.
  destruct task as [c|]; [|discriminate].
  destruct (awaited c) as [e0|] eqn:Hc; [|discriminate].
  destruct e0; cbn; intro H; try discriminate H; injection H as <-;
    (split; [reflexivity | exists c; split; [reflexivity | exact Hc]]).
Qed.

Lemma stop_engine_raises tracker e :
  fst (stop_engine tracker) = Raise e ->
  stop_tracking = Some e \/ release = Some e.
Proof.
  unfold stop_engine, Lifecycle.stop_engine.
  clear startup cancel_and_await stop_engine shutdown lifespan.
  destruct tracker as [service|]; [|discriminate].
  destruct stop_tracking as [e0|].
  - cbn. intro H. injection H as <-. now left.
  - destruct (has_webcam service); [|discriminate].
    destruct release as [e0|]; [|discriminate].
    cbn. intro H. injection H as <-. now right.
Qed.

(** X12.  The shutdown half of [lifespan] logs every [Exception] and
    returns: it raises only an exception that is not an [Exception], and
    only one that stopping the tracker or releasing the webcam raised
    (the [CancelledError] of the two awaited tasks is absorbed where it
    occurs). *)
Theorem shutdown_raises_no_Exception (g : globals) (e : exn) :
  fst (shutdown g) = Raise e ->
  is_Exception e = false /\ (stop_tracking = Some e \/ release = Some e).
Proof.
  clear startup lifespan.
  unfold shutdown, Lifecycle.shutdown.
  pose proof (@cancel_and_await_raises (frame_processing_task g)) as H1.
  pose proof (@cancel_and_await_raises (websocket_broadcast_task g)) as H2.
  pose proof (@stop_engine_raises (eye_tracker g)) as H3.
  unfold cancel_and_await in H1, H2. unfold stop_engine in H3.
  destruct (Lifecycle.cancel_and_await awaited (frame_processing_task g))
    as [[u1|e1] tr1]; cbn [and_then fst snd] in H1 |- *.
  - destruct (Lifecycle.cancel_and_await awaited (websocket_broadcast_task g))
      as [[u2|e2] tr2]; cbn [and_then fst snd] in H2 |- *.
    + destruct (Lifecycle.stop_engine stop_tracking release (eye_tracker g))
        as [[u3|e3] tr3]; cbn [fst snd] in H3 |- *; [discriminate|].
      destruct (is_Exception e3) eqn:He3; cbn; [discriminate|].
      intro H. injection H as <-. split; [exact He3 | now apply H3].
    + destruct (H2 e2 eq_refl) as [He2 _]. rewrite He2. discriminate.
  - destruct (H1 e1 eq_refl) as [He1 _]. rewrite He1. discriminate.
Qed.

(** X13.  The steps of shutdown sit in one [try] block.  When awaiting
    the cancelled health monitor raises an exception other than
    [CancelledError], the rest is skipped: after a successful startup the
    run ends right there, the state broadcast loop is never cancelled,
    tracking is not stopped and the webcam is not released; and since the
    exception is an [Exception], it is logged and [lifespan] returns. *)
Theorem failed_await_skips_cleanup (service : EyeTrackingService) (e : exn) :
  construct = Return service ->
  awaited process_frames_background = Some e ->
  e <> CancelledError ->
  lifespan unset
  = (Return tt,
     up_to_serving ++ [TaskCancelled process_frames_background;
                       TaskAwaited process_frames_background]) /\
  ~ In (TaskCancelled broadcast_websocket_updates) (snd (lifespan unset)) /\
  ~ In TrackingStopped (snd (lifespan unset)) /\
  ~ In WebcamReleased (snd (lifespan unset)).
Proof.
  intros Hok Hawait Hne.
  assert (Hrun : lifespan unset
                 = (Return tt,
                    up_to_serving ++ [TaskCancelled process_frames_background;
                                      TaskAwaited process_frames_background])).
  { unfold lifespan. rewrite (lifespan_trace awaited stop_tracking release Hok).
    unfold Lifecycle.shutdown. cbn [frame_processing_task].
    unfold Lifecycle.cancel_and_await at 1 3. rewrite Hawait.
    destruct e; try contradiction (Hne eq_refl); reflexivity. }
  rewrite Hrun. split; [reflexivity|].
  cbn. repeat split; intro H;
    repeat (destruct H as [H|H]; [discriminate H|]); exact H.
Qed.

(** X14.  The application serves exactly when the engine was
    constructed.  When the constructor raises, [lifespan] re-raises the
    same exception, no task has been created, the globals are as they
    were and no shutdown step is taken. *)
Theorem failed_startup_takes_no_step (g : globals) :
  (In Serving (snd (lifespan g)) <-> exists service, construct = Return service) /\
  (forall e, construct = Raise e ->
             lifespan g = (Raise e, []) /\ startup g = (Raise e, g, [])).
Proof.
  unfold lifespan, Lifecycle.lifespan, startup, Lifecycle.startup.
  destruct construct as [service|e0]; cbn [fst snd].
  - split; [|discriminate].
    split; [intros _; now exists service|].
    intros _. apply in_or_app. right. now left.
  - split.
    + split; [intros []|]. intros [service H]. discriminate H.
    + intros e H. injection H as <-. split; reflexivity.
Qed.

End Lifespan.

(** The health monitor ends with an error when awaited. *)
Definition monitor_failed (c : coroutine) : option exn :=
  match c with
  | process_frames_background => Some (RuntimeError "monitor")
  | broadcast_websocket_updates => Some CancelledError
  end.

(** X12 on a run where releasing the webcam is interrupted. *)
Lemma shutdown_raises_no_Exception_witness :
  is_Exception CancelledError = false /\
  (@None exn = Some CancelledError \/ Some CancelledError = Some CancelledError).
Proof.
  apply (@shutdown_raises_no_Exception cancelled None (Some CancelledError)
           (started (mkService true)) CancelledError).
  reflexivity.
Defined.

(** X13 on a run where the health monitor ended with a [RuntimeError]. *)
Lemma failed_await_skips_cleanup_witness :
  Lifecycle.lifespan (Return (mkService true)) monitor_failed None None unset
  = (Return tt,
     up_to_serving ++ [TaskCancelled process_frames_background;
                       TaskAwaited process_frames_background]) /\
  ~ In (TaskCancelled broadcast_websocket_updates)
       (snd (Lifecycle.lifespan (Return (mkService true)) monitor_failed
               None None unset)) /\
  ~ In TrackingStopped
       (snd (Lifecycle.lifespan (Return (mkService true)) monitor_failed
               None None unset)) /\
  ~ In WebcamReleased
       (snd (Lifecycle.lifespan (Return (mkService true)) monitor_failed
               None None unset)).
Proof.
  apply (@failed_await_skips_cleanup (Return (mkService true)) monitor_failed
           None None (mkService true) (RuntimeError "monitor")).
  - reflexivity.
  - reflexivity.
  - discriminate.
Defined.

End Teardown.

(* ================================================================== *)
(** ** The allowed origins of the two services *)
(* ================================================================== *)

Module Origins.

(** A Python [str] as the list of its characters.  The development is
    generic in the character type: it needs the comma, the star, equality
    with the comma and [str.isspace], under which neither the comma nor
    the star is white space. *)
Section Text.

Variable char : Type.
Variable char_eq_dec : forall a b : char, {a = b} + {a <> b}.
Variable comma star : char.
Variable isspace : char -> bool.
Hypothesis star_not_comma : star <> comma.
Hypothesis star_not_space : isspace star = false.

Definition text : Type := list char.

(** [value.split(",")]: never empty, [""] gives [[""]]. *)
Fixpoint split (value : text) : list text :=
  match value with
  | [] => [[]]
  | c :: rest =>
      if char_eq_dec c comma then [] :: split rest
      else match split rest with
           | [] => [[c]]
           | piece :: pieces => (c :: piece) :: pieces
           end
  end.

(** [",".join(pieces)]. *)
Fixpoint join (pieces : list text) : text :=
  match pieces with
  | [] => []
  | [piece] => piece
  | piece :: rest => piece ++ comma :: join rest
  end.

(** [s.lstrip()], [s.rstrip()] and [s.strip()]. *)
Fixpoint lstrip (s : text) : text :=
  match s with
  | [] => []
  | c :: rest => if isspace c then lstrip rest else s
  end.

Fixpoint rstrip (s : text) : text :=
  match s with
  | [] => []
  | c :: rest =>
      match rstrip rest with
      | [] => if isspace c then [] else [c]
      | kept => c :: kept
      end
  end.

Definition strip (s : text) : text := rstrip (lstrip s).

(** The truth value of a [str]. *)
Definition nonempty (s : text) : bool :=
  match s with
  | [] => false
  | _ => true
  end.

(** [[origin.strip() for origin in value.split(",") if origin.strip()]],
    the comprehension both services use. *)
Definition origins (value : text) : list text :=
  map strip (filter (fun origin => nonempty (strip origin)) (split value)).

(** [Settings._normalize_origins] of [web_stream_service]. *)
Definition _normalize_origins (value : text) : text := join (origins value).

(** [allow_origins=settings.allowed_origins.split(",")] of
    [web_stream_service], for a validated [ALLOWED_ORIGINS]. *)
Definition web_stream_allow_origins (value : text) : list text :=
  split (_normalize_origins value).

(** [allow_origins] and [allow_creds] of [fastapi_service]. *)
Definition fastapi_cors (allowed_origins_env : text) : list text * bool :=
  if list_eq_dec char_eq_dec allowed_origins_env [star]
  then ([[star]], false)
  else (origins allowed_origins_env, true).

(** *** Splitting and joining *)

Lemma split_not_nil value : split value <> [].
Proof.
  destruct value as [|c rest]; cbn; [discriminate|].
  destruct (char_eq_dec c comma); [discriminate|].
  destruct (split rest); discriminate.
Qed.

Lemma split_pieces value : Forall (fun piece => ~ In comma piece) (split value).
Proof.
  induction value as [|c rest IH]; cbn.
  - constructor; [intros []|constructor].
  - destruct (char_eq_dec c comma) as [->|Hc].
    + constructor; [intros []|exact IH].
    + destruct (split rest) as [|piece pieces]; cbn.
      * constructor; [|constructor]. intros [H|[]]. now apply Hc.
      * inversion IH as [|? ? Hpiece Hpieces]; subst.
        constructor; [|exact Hpieces].
        intros [H|H]; [now apply Hc | now apply Hpiece].
Qed.

Lemma split_no_comma piece : ~ In comma piece -> split piece = [piece].
Proof.
  induction piece as [|c rest IH]; intro H; cbn; [reflexivity|].
  destruct (char_eq_dec c comma) as [->|Hc]; [exfalso; apply H; now left|].
  rewrite IH; [reflexivity|]. intro Hin. apply H. now right.
Qed.

Lemma split_app_comma piece rest :
  ~ In comma piece -> split (piece ++ comma :: rest) = piece :: split rest.
Proof.
  induction piece as [|c piece IH]; intro H; cbn.
  - destruct (char_eq_dec comma comma) as [_|Hc]; [reflexivity|now destruct Hc].
  - destruct (char_eq_dec c comma) as [->|Hc]; [exfalso; apply H; now left|].
    rewrite IH; [reflexivity|]. intro Hin. apply H. now right.
Qed.

Lemma split_join pieces :
  pieces <> [] ->
  Forall (fun piece => ~ In comma piece) pieces ->
  split (join pieces) = pieces.
Proof.
  induction pieces as [|piece rest IH]; intros Hne Hall; [now destruct Hne|].
  inversion Hall as [|? ? Hpiece Hrest]; subst.
  destruct rest as [|next rest'].
  - cbn. now apply split_no_comma.
  - change (join (piece :: next :: rest'))
      with (piece ++ comma :: join (next :: rest')).
    rewrite split_app_comma by exact Hpiece.
    rewrite IH; [reflexivity | discriminate | exact Hrest].
Qed.

(** *** Stripping *)

Lemma lstrip_incl s c : In c (lstrip s) -> In c s.
Proof.
  induction s as [|a rest IH]; cbn; [auto|].
  destruct (isspace a); [|auto]. intro H. right. now apply IH.
Qed.

Lemma rstrip_incl s c : In c (rstrip s) -> In c s.
Proof.
  revert c. induction s as [|a rest IH]; intros c; cbn; [auto|].
  destruct (rstrip rest) as [|k kept].
  - destruct (isspace a); [intros []|]. intros [H|[]]. now left.
  - intros [H|H]; [now left|]. right. now apply IH.
Qed.

Lemma strip_incl s c : In c (strip s) -> In c s.
Proof.
  intro H. now apply lstrip_incl, rstrip_incl.
Qed.

(** A text that is empty or starts with a character that is not white
    space. *)
Definition starts_clean (s : text) : bool :=
  match s with
  | [] => true
  | c :: _ => negb (isspace c)
  end.

Lemma lstrip_starts_clean s : starts_clean (lstrip s) = true.
Proof.
  induction s as [|c rest IH]; cbn; [reflexivity|].
  destruct (isspace c) eqn:Hc; [exact IH|]. cbn. now rewrite Hc.
Qed.

Lemma lstrip_fixed s : starts_clean s = true -> lstrip s = s.
Proof.
  destruct s as [|c rest]; cbn; [reflexivity|].
  destruct (isspace c); [discriminate|reflexivity].
Qed.

Lemma rstrip_starts_clean s :
  starts_clean s = true -> starts_clean (rstrip s) = true.
Proof.
  destruct s as [|c rest]; cbn; [reflexivity|].
  intro Hc. destruct (rstrip rest); [|exact Hc].
  destruct (isspace c) eqn:Hs; [discriminate|]. cbn. now rewrite Hs.
Qed.

Lemma rstrip_idempotent s : rstrip (rstrip s) = rstrip s.
Proof.
  induction s as [|c rest IH]; cbn; [reflexivity|].
  destruct (rstrip rest) as [|k kept] eqn:Hrest.
  - destruct (isspace c) eqn:Hc; cbn; [reflexivity|]. now rewrite Hc.
  - change (rstrip (c :: k :: kept))
      with (match rstrip (k :: kept) with
            | [] => if isspace c then [] else [c]
            | kept' => c :: kept'
            end).
    now rewrite IH.
Qed.

Lemma strip_idempotent s : strip (strip s) = strip s.
Proof.
  unfold strip.
  rewrite (lstrip_fixed (rstrip (lstrip s))).
  - apply rstrip_idempotent.
  - apply rstrip_starts_clean, lstrip_starts_clean.
Qed.

(** *** The entries of the comprehension *)

(** An origin as the comprehension yields it: not empty, without a comma
    and left alone by [strip]. *)
Definition entry (origin : text) : Prop :=
  nonempty origin = true /\ ~ In comma origin /\ strip origin = origin.

Lemma origins_entries value : Forall entry (origins value).
Proof.
  unfold origins.
  pose proof (split_pieces value) as Hpieces.
  induction (split value) as [|piece pieces IH]; cbn; [constructor|].
  inversion Hpieces as [|? ? Hpiece Hrest]; subst.
  destruct (nonempty (strip piece)) eqn:Hne; cbn; [|now apply IH].
  constructor; [|now apply IH].
  repeat split.
  - exact Hne.
  - intro H. apply Hpiece. now apply strip_incl.
  - apply strip_idempotent.
Qed.

Lemma origins_of_entries pieces :
  Forall entry pieces ->
  map strip (filter (fun origin => nonempty (strip origin)) pieces) = pieces.
Proof.
  induction 1 as [|piece rest (Hne & _ & Hstrip) _ IH]; cbn; [reflexivity|].
  rewrite Hstrip, Hne. cbn. now rewrite Hstrip, IH.
Qed.

Lemma entries_no_comma pieces :
  Forall entry pieces -> Forall (fun piece => ~ In comma piece) pieces.
Proof.
  intro H. eapply Forall_impl; [|exact H]. intros piece (_ & Hc & _). exact Hc.
Qed.

Lemma origins_nil : origins [] = [].
Proof. reflexivity. Qed.

(** What splitting a normalised value gives. *)
Lemma split_normalized value :
  split (_normalize_origins value)
  = match origins value with
    | [] => [[]]
    | entries => entries
    end.
Proof.
  unfold _normalize_origins.
  pose proof (origins_entries value) as Hall.
  destruct (origins value) as [|origin rest] eqn:Ho; [reflexivity|].
  apply split_join; [discriminate|]. now apply entries_no_comma.
Qed.

(** X15.  [_normalize_origins] is idempotent: validating a value that has
    been validated changes nothing. *)
Theorem normalize_origins_idempotent (value : text) :
  _normalize_origins (_normalize_origins value) = _normalize_origins value.
Proof.
  unfold _normalize_origins at 1 3. f_equal.
  unfold origins at 1.
  change (split (join (origins value))) with (split (_normalize_origins value)).
  rewrite split_normalized.
  pose proof (origins_entries value) as Hall.
  destruct (origins value) as [|origin rest]; [reflexivity|].
  now apply origins_of_entries.
Qed.

(** X16.  From one value of [ALLOWED_ORIGINS] the two services allow the
    same origins, the stripped non-empty entries, whenever there is one
    (the lone star included); they differ on the credentials, which
    [fastapi_service] allows unless the value is the star.  When no entry
    is left (an empty value, only commas and blanks), [fastapi_service]
    allows no origin and [web_stream_service] allows the empty string. *)
Theorem services_allow_same_origins (value : text) :
  (origins value <> [] ->
   web_stream_allow_origins value = origins value /\
   fst (fastapi_cors value) = origins value) /\
  (origins value = [] ->
   web_stream_allow_origins value = [[]] /\
   fastapi_cors value = ([], true)).
Proof.
  unfold web_stream_allow_origins. rewrite split_normalized.
  unfold fastapi_cors.
  destruct (list_eq_dec char_eq_dec value [star]) as [->|Hstar].
  - assert (Hone : origins [star] = [[star]]).
    { unfold origins, strip. cbn.
      destruct (char_eq_dec star comma) as [Heq|_]; [now destruct star_not_comma|].
      cbn. rewrite !star_not_space. cbn. rewrite !star_not_space. cbn.
      rewrite ?star_not_space. unfold rstrip. now rewrite star_not_space. }
    rewrite Hone.
    split; [intros _; split; reflexivity | discriminate].
  - destruct (origins value) as [|origin rest] eqn:Ho.
    + split; [intro H; now destruct H|]. intros _. split; reflexivity.
    + split; [intros _; split; reflexivity | discriminate].
Qed.

(** X17.  [fastapi_service] turns the credentials off for the value ["*"]
    only, compared as a whole.  A value that is not the lone star but has
    an entry that strips to the star (a padded star, a star among other
    origins) yields the star among the allowed origins together with
    [allow_credentials=True], the combination the comment above that
    code rules out. *)
Theorem padded_star_keeps_credentials (allowed_origins_env origin : text) :
  allowed_origins_env <> [star] ->
  In origin (split allowed_origins_env) ->
  strip origin = [star] ->
  In [star] (fst (fastapi_cors allowed_origins_env)) /\
  snd (fastapi_cors allowed_origins_env) = true.
Proof.
  intros Hne Hin Hstrip. unfold fastapi_cors.
  destruct (list_eq_dec char_eq_dec allowed_origins_env [star]) as [Heq|_];
    [now destruct Hne|].
  split; [|reflexivity]. cbn [fst]. unfold origins.
  rewrite <- Hstrip. apply in_map. apply filter_In.
  split; [exact Hin|]. now rewrite Hstrip.
Qed.

End Text.

(** *** The characters of Latin-1 *)

(** [str.isspace] on the code points below 256: the controls 9 to 13 and
    28 to 31, the space, NEL (133) and the no-break space (160). *)
Definition isspace (c : ascii) : bool :=
  let n := nat_of_ascii c in
  ((9 <=? n) && (n <=? 13) || (28 <=? n) && (n <=? 31)
   || (n =? 32) || (n =? 133) || (n =? 160))%nat.

Definition comma : ascii := ","%char.
Definition star : ascii := "*"%char.

Definition chars (s : string) : list ascii := list_ascii_of_string s.

(** Two origins, padded, with an empty entry between them. *)
Definition two_padded : list ascii :=
  chars " https://a.example , ,https://b.example".

Example two_padded_normalized :
  _normalize_origins ascii_dec comma isspace two_padded
  = chars "https://a.example,https://b.example".
Proof. reflexivity. Qed.

(** The default of [Settings.allowed_origins], which the validator would
    leave as it is. *)
Example default_origin_normalized :
  _normalize_origins ascii_dec comma isspace
    (chars "https://your-production-domain.com")
  = chars "https://your-production-domain.com".
Proof. reflexivity. Qed.

(** X16 on the two padded origins. *)
Lemma services_allow_same_origins_witness :
  web_stream_allow_origins ascii_dec comma isspace two_padded
  = [chars "https://a.example"; chars "https://b.example"] /\
  fst (fastapi_cors ascii_dec comma star isspace two_padded)
  = [chars "https://a.example"; chars "https://b.example"].
Proof.
  assert (Hstar : star <> comma) by discriminate.
  assert (Hspace : isspace star = false) by reflexivity.
  destruct (@services_allow_same_origins ascii ascii_dec comma star isspace
              Hstar Hspace two_padded) as [Hsame _].
  apply Hsame. discriminate.
Defined.

(** X17 on a star with a blank before it. *)
Lemma padded_star_keeps_credentials_witness :
  fastapi_cors ascii_dec comma star isspace (chars " *") = ([chars "*"], true).
Proof.
  assert (Hne : chars " *" <> [star]) by discriminate.
  assert (Hin : In (chars " *") (split ascii_dec comma (chars " *")))
    by (left; reflexivity).
  assert (Hstrip : strip isspace (chars " *") = [star]) by reflexivity.
  destruct (@padded_star_keeps_credentials ascii ascii_dec comma star isspace
              (chars " *") (chars " *") Hne Hin Hstrip) as [_ Hcreds].
  destruct (fastapi_cors ascii_dec comma star isspace (chars " *"))
    as [allowed creds] eqn:Hrun.
  cbn [snd] in Hcreds. subst creds.
  f_equal. apply (f_equal fst) in Hrun. cbn [fst] in Hrun.
  rewrite <- Hrun. reflexivity.
Defined.

End Origins.

(* ================================================================== *)
(** ** [convert_numpy_types] of [fastapi_service.py] *)
(* ================================================================== *)

Module Conversion.

Local Open Scope bool_scope.

(** An element of a numeric array, as [ndarray.item] returns it. *)
Inductive item : Type :=
| ItemBool (b : bool)
| ItemInt (n : Z)
| ItemFloat (x : Q).

(** A numeric [np.ndarray]: an element (dimension 0) or its sub-arrays
    along the first axis. *)
#[warnings="-register-all"]
Inductive ndarray : Type :=
| Element (i : item)
| Axis (rows : list ndarray).

(** The Python values the engine's status and metrics are made of.  A
    [dict] is the list of its items; [np.bool_], [np.integer] and
    [np.floating] are the classes [convert_numpy_types] tests for. *)
#[warnings="-register-all"]
Inductive pyobj : Type :=
| PyNone
| PyBool (b : bool)
| PyInt (n : Z)
| PyFloat (x : Q)
| PyStr (s : string)
| PyList (items : list pyobj)
| PyTuple (items : list pyobj)
| PyDict (items : list (pyobj * pyobj))
| NpBool (b : bool)
| NpInteger (n : Z)
| NpFloating (x : Q)
| NpArray (a : ndarray).

(** [a.tolist()]: nested lists of builtin values. *)
Fixpoint tolist (a : ndarray) : pyobj :=
  match a with
  | Element (ItemBool b) => PyBool b
  | Element (ItemInt n) => PyInt n
  | Element (ItemFloat x) => PyFloat x
  | Axis rows => PyList (map tolist rows)
  end.

(** [convert_numpy_types(obj)]. *)
Fixpoint convert_numpy_types (obj : pyobj) : pyobj :=
  match obj with
  | PyDict items =>
      PyDict (map (fun '(k, v) => (k, convert_numpy_types v)) items)
  | PyList items => PyList (map convert_numpy_types items)
  | NpBool b => PyBool b
  | NpInteger n => PyInt n
  | NpFloating x => PyFloat x
  | NpArray a => tolist a
  | other => other
  end.

(** No NumPy value anywhere in [obj], keys and tuples included. *)
Fixpoint native (obj : pyobj) : bool :=
  match obj with
  | PyList items | PyTuple items => forallb native items
  | PyDict items => forallb (fun '(k, v) => native k && native v) items
  | NpBool _ | NpInteger _ | NpFloating _ | NpArray _ => false
  | _ => true
  end.

(** Every tuple and every key of a [dict] in [obj] is free of NumPy
    values: what NumPy value there is can be reached through values of
    dicts and items of lists. *)
Fixpoint reachable (obj : pyobj) : bool :=
  match obj with
  | PyList items => forallb reachable items
  | PyTuple items => forallb native items
  | PyDict items => forallb (fun '(k, v) => native k && reachable v) items
  | _ => true
  end.

(** *** Induction on values *)

Section Induction.

Variable P : pyobj -> Prop.
Hypothesis HNone : P PyNone.
Hypothesis HBool : forall b, P (PyBool b).
Hypothesis HInt : forall n, P (PyInt n).
Hypothesis HFloat : forall x, P (PyFloat x).
Hypothesis HStr : forall s, P (PyStr s).
Hypothesis HList : forall items, Forall P items -> P (PyList items).
Hypothesis HTuple : forall items, Forall P items -> P (PyTuple items).
Hypothesis HDict :
  forall items, Forall (fun kv => P (fst kv) /\ P (snd kv)) items ->
                P (PyDict items).
Hypothesis HNpBool : forall b, P (NpBool b).
Hypothesis HNpInteger : forall n, P (NpInteger n).
Hypothesis HNpFloating : forall x, P (NpFloating x).
Hypothesis HNpArray : forall a, P (NpArray a).

Fixpoint pyobj_induction (obj : pyobj) : P obj :=
  match obj with
  | PyNone => HNone
  | PyBool b => HBool b
  | PyInt n => HInt n
  | PyFloat x => HFloat x
  | PyStr s => HStr s
  | PyList items =>
      HList ((fix all (l : list pyobj) : Forall P l :=
                match l with
                | [] => Forall_nil P
                | o :: l' => Forall_cons o (pyobj_induction o) (all l')
                end) items)
  | PyTuple items =>
      HTuple ((fix all (l : list pyobj) : Forall P l :=
                 match l with
                 | [] => Forall_nil P
                 | o :: l' => Forall_cons o (pyobj_induction o) (all l')
                 end) items)
  | PyDict items =>
      HDict ((fix all (l : list (pyobj * pyobj))
                : Forall (fun kv => P (fst kv) /\ P (snd kv)) l :=
                match l with
                | [] => Forall_nil _
                | (k, v) :: l' =>
                    Forall_cons (k, v)
                      (conj (pyobj_induction k) (pyobj_induction v)) (all l')
                end) items)
  | NpBool b => HNpBool b
  | NpInteger n => HNpInteger n
  | NpFloating x => HNpFloating x
  | NpArray a => HNpArray a
  end.

End Induction.

Section ArrayInduction.

Variable P : ndarray -> Prop.
Hypothesis HElement : forall i, P (Element i).
Hypothesis HAxis : forall rows, Forall P rows -> P (Axis rows).

Fixpoint ndarray_induction (a : ndarray) : P a :=
  match a with
  | Element i => HElement i
  | Axis rows =>
      HAxis ((fix all (l : list ndarray) : Forall P l :=
                match l with
                | [] => Forall_nil P
                | r :: l' => Forall_cons r (ndarray_induction r) (all l')
                end) rows)
  end.

End ArrayInduction.

(** *** What the conversion does *)

Lemma forallb_map_Forall (A B : Type) (f : A -> B) (p : B -> bool) l :
  Forall (fun x => p (f x) = true) l -> forallb p (map f l) = true.
Proof.
  induction 1 as [|x l Hx _ IH]; cbn; [reflexivity|]. now rewrite Hx, IH.
Qed.

Lemma map_fixed (A : Type) (f : A -> A) l :
  Forall (fun x => f x = x) l -> map f l = l.
Proof.
  induction 1 as [|x l Hx _ IH]; cbn; [reflexivity|]. now rewrite Hx, IH.
Qed.

(** [tolist] gives builtin values only. *)
Lemma tolist_native a : native (tolist a) = true.
Proof.
  induction a as [i|rows IH] using ndarray_induction.
  - destruct i; reflexivity.
  - cbn. now apply forallb_map_Forall.
Qed.

(** A value without NumPy values is returned as it is. *)
Lemma convert_native obj : native obj = true -> convert_numpy_types obj = obj.
Proof.
  induction obj as [| | | | |items IH|items IH|items IH| | | |]
    using pyobj_induction; cbn; try reflexivity; try discriminate.
  - intro H. f_equal. apply map_fixed.
    rewrite forallb_forall in H. rewrite Forall_forall in IH |- *.
    intros o Ho. apply IH; [exact Ho | now apply H].
  - intro H. f_equal. apply map_fixed.
    rewrite forallb_forall in H. rewrite Forall_forall in IH |- *.
    intros [k v] Hkv. specialize (H _ Hkv). specialize (IH _ Hkv).
    cbn in H, IH. apply andb_true_iff in H. destruct H as [_ Hv].
    destruct IH as [_ IHv]. now rewrite IHv.
Qed.

(** X18.  Where NumPy values sit only in values of dicts and items of
    lists (no tuple and no key of a dict holds one),
    [convert_numpy_types] returns a value without any [np.bool_],
    [np.integer], [np.floating] or [np.ndarray]. *)
Theorem converted_is_native (obj : pyobj) :
  reachable obj = true -> native (convert_numpy_types obj) = true.
Proof.
  induction obj as [| | | | |items IH|items IH|items IH| | | |a]
    using pyobj_induction; cbn; try reflexivity.
  - intro H. apply forallb_map_Forall.
    rewrite forallb_forall in H. rewrite Forall_forall in IH |- *.
    intros o Ho. apply IH; [exact Ho | now apply H].
  - intro H. exact H.
  - intro H. apply forallb_map_Forall.
    rewrite forallb_forall in H. rewrite Forall_forall in IH |- *.
    intros [k v] Hkv. specialize (H _ Hkv). specialize (IH _ Hkv).
    cbn in H, IH. apply andb_true_iff in H. destruct H as [Hk Hv].
    destruct IH as [_ IHv]. now rewrite Hk, IHv.
  - intros _. apply tolist_native.
Qed.

(** X19.  [convert_numpy_types] is idempotent on every value, and it
    does not look into tuples or at the keys of dicts: a tuple is
    returned as it is, whatever it holds, and the keys of a dict and
    their order are kept. *)
Theorem convert_numpy_types_idempotent (obj : pyobj) :
  convert_numpy_types (convert_numpy_types obj) = convert_numpy_types obj /\
  (forall items, obj = PyTuple items -> convert_numpy_types obj = obj) /\
  (forall items, obj = PyDict items ->
     exists items', convert_numpy_types obj = PyDict items' /\
                    map fst items' = map fst items).
Proof.
  split; [|split].
  - induction obj as [| | | | |items IH|items IH|items IH| | | |a]
      using pyobj_induction; cbn; try reflexivity.
    + f_equal. rewrite map_map. apply map_ext_Forall. exact IH.
    + f_equal. rewrite map_map. apply map_ext_Forall.
      eapply Forall_impl; [|exact IH].
      intros [k v] [_ Hv]. cbn in Hv. now rewrite Hv.
    + apply convert_native, tolist_native.
  - intros items ->. reflexivity.
  - intros items ->. eexists. split; [reflexivity|].
    rewrite map_map. apply map_ext. now intros [k v].
Qed.

(** A status with NumPy values in the values of a dict. *)
Definition raw_metrics : pyobj :=
  PyDict [(PyStr "focused", NpBool true);
          (PyStr "blinks", NpInteger 3);
          (PyStr "ratio", NpFloating (1 # 2));
          (PyStr "gaze", NpArray (Axis [Element (ItemFloat (1 # 4));
                                        Element (ItemFloat (3 # 4))]));
          (PyStr "tags", PyList [PyStr "a"; NpInteger 1])].

(** X18 on that status. *)
Lemma converted_is_native_witness :
  native (convert_numpy_types raw_metrics) = true.
Proof.
  apply (@converted_is_native raw_metrics). reflexivity.
Defined.

(** A tuple keeps the NumPy values it holds. *)
Example tuple_keeps_numpy :
  convert_numpy_types (PyDict [(PyStr "size", PyTuple [NpInteger 640; NpInteger 480])])
  = PyDict [(PyStr "size", PyTuple [NpInteger 640; NpInteger 480])].
Proof. reflexivity. Qed.

End Conversion.

(* ================================================================== *)
(** ** The tracking endpoints of [fastapi_service.py] *)
(* ================================================================== *)

Module Control.

Import Frame.
Local Open Scope string_scope.
Local Open Scope bool_scope.

(** [class TrackingStartRequest(BaseModel)]. *)
Record TrackingStartRequest : Type := mkStart {
  user_id : string;
  module_id : string;
  section_id : option string
}.

(** [class TrackingStopRequest(BaseModel)]; [save_data] defaults to
    [True]. *)
Record TrackingStopRequest : Type := mkStop {
  save_data : bool
}.

(** The attributes of the global [eye_tracker] these endpoints read and
    write. *)
Record EyeTrackingService : Type := mkService {
  is_tracking : bool;
  auto_start_loop : bool;
  current_user_id : option string;
  current_module_id : option string;
  current_section_id : option string
}.

(** The same tracker as [receive_browser_frame] reads it. *)
Definition attributes (tracker : EyeTrackingService)
  : FastApi.EyeTrackingService :=
  FastApi.mkTracker (current_user_id tracker) (current_module_id tracker)
                    (current_section_id tracker).

(** The calls of the engine's methods, and the write
    [status['current_frame'] = frame_data] of [legacy_get_status] on the
    dict that [get_status] returned. *)
Inductive call : Type :=
| StartTracking (user_id module_id : string) (section_id : option string)
| StopTracking (save_data : bool)
| GetDetailedMetrics
| GetStatus
| GetCurrentFrame
| SetCurrentFrame (frame_data : string).

(** What an endpoint does: it returns or raises, leaves the global
    [eye_tracker] in some state and has called the engine. *)
Definition result (A : Type) : Type :=
  (outcome A * option EyeTrackingService * list call)%type.

Definition not_initialized : exn :=
  HTTPException 503 "Eye tracking service not initialized".

(** [current == requested] for an attribute that is [None] or a [str]. *)
Definition equals (current : option string) (requested : string) : bool :=
  match current with
  | Some s => String.eqb s requested
  | None => false
  end.

Section Endpoints.

(** [str(e)] of an [HTTPException], which Starlette defines from the
    status and the detail. *)
Variable http_str : Z -> string -> string.

(** [str(e)]. *)
Definition str (e : exn) : string :=
  match e with
  | HTTPException status_code detail => http_str status_code detail
  | _ => Frame.str e
  end.

(** [except Exception as e: raise HTTPException(status_code=500,
    detail=str(e))] around the body of an endpoint. *)
Definition internal_error {A : Type} (body : result A) : result A :=
  match body with
  | (Raise e, tracker, calls) =>
      if is_Exception e
      then (Raise (HTTPException 500 (str e)), tracker, calls)
      else body
  | returned => returned
  end.

(** [eye_tracker.start_tracking(user_id, module_id, section_id)] and
    [eye_tracker.stop_tracking(save_data=...)]: what they return or raise
    and the tracker they leave. *)
Variable engine_start :
  EyeTrackingService -> string -> string -> option string ->
  outcome unit * EyeTrackingService.
Variable engine_stop :
  EyeTrackingService -> bool -> outcome unit * EyeTrackingService.

(** [eye_tracker.get_detailed_metrics()], [eye_tracker.get_status()] (a
    dict, given by its items) and
    [eye_tracker.get_current_frame_base64()]: what they return or raise
    and the tracker they leave. *)
Variable get_detailed_metrics :
  EyeTrackingService -> outcome Conversion.pyobj * EyeTrackingService.
Variable get_status :
  EyeTrackingService ->
  outcome (list (Conversion.pyobj * Conversion.pyobj)) * EyeTrackingService.
Variable get_current_frame_base64 :
  EyeTrackingService -> outcome (option string) * EyeTrackingService.

(** [datetime.utcnow().isoformat()]. *)
Variable utcnow : string.

(** What [receive_browser_frame] calls. *)
Variable b64decode : string -> option (list Byte.byte).
Variable imdecode : list Byte.byte -> option ndarray.
Variable process_remote_frame :
  ndarray -> string -> string -> option string -> outcome (json * json).

(** The [try] block of [start_tracking]. *)
Definition start_tracking_body (eye_tracker : option EyeTrackingService)
  (request : TrackingStartRequest) : result json :=
  match eye_tracker with
  | None => (Raise not_initialized, None, [])
  | Some tracker =>
      if is_tracking tracker
         && equals (current_user_id tracker) (user_id request)
         && equals (current_module_id tracker) (module_id request)
      then (Return (JDict [("status", JStr "already_tracking");
                           ("message",
                            JStr "Eye tracking is already active for this user/module");
                           ("user_id", JStr (user_id request));
                           ("module_id", JStr (module_id request))]),
            Some tracker, [])
      else
        let tracker :=
          {| is_tracking := is_tracking tracker;
             auto_start_loop := auto_start_loop tracker;
             current_user_id := Some (user_id request);
             current_module_id := Some (module_id request);
             current_section_id := section_id request |} in
        if negb (is_tracking tracker)
        then
          let tracker :=
            {| is_tracking := is_tracking tracker;
               auto_start_loop := true;
               current_user_id := current_user_id tracker;
               current_module_id := current_module_id tracker;
               current_section_id := current_section_id tracker |} in
          match engine_start tracker (user_id request) (module_id request)
                             (section_id request) with
          | (Raise e, tracker') =>
              (Raise e, Some tracker',
               [StartTracking (user_id request) (module_id request)
                              (section_id request)])
          | (Return _, tracker') =>
              (Return (JDict [("status", JStr "tracking_started");
                              ("message", JStr "Eye tracking started successfully");
                              ("user_id", JStr (user_id request));
                              ("module_id", JStr (module_id request));
                              ("section_id", json_of_opt (section_id request))]),
               Some tracker',
               [StartTracking (user_id request) (module_id request)
                              (section_id request)])
          end
        else (Return (JDict [("status", JStr "already_tracking");
                             ("message", JStr "Eye tracking is already active");
                             ("user_id", JStr (user_id request));
                             ("module_id", JStr (module_id request))]),
              Some tracker, [])
  end.

(** [start_tracking(request)], the handler of [POST /api/tracking/start]. *)
Definition start_tracking (eye_tracker : option EyeTrackingService)
  (request : TrackingStartRequest) : result json :=
  internal_error (start_tracking_body eye_tracker request).

(** [stop_tracking(request)], the handler of [POST /api/tracking/stop];
    without a body the request is [TrackingStopRequest()]. *)
Definition stop_tracking (eye_tracker : option EyeTrackingService)
  (request : option TrackingStopRequest) : result json :=
  internal_error
    match eye_tracker with
    | None => (Raise not_initialized, None, [])
    | Some tracker =>
        let request :=
          match request with
          | None => mkStop true
          | Some request => request
          end in
        let save_data := save_data request in
        match engine_stop tracker save_data with
        | (Raise e, tracker') => (Raise e, Some tracker', [StopTracking save_data])
        | (Return _, tracker') =>
            (Return (JDict [("status", JStr "tracking_stopped");
                            ("message", JStr "Eye tracking stopped successfully");
                            ("data_saved", JBool save_data)]),
             Some tracker', [StopTracking save_data])
        end
    end.

(** [legacy_start_tracking] and [legacy_stop_tracking]. *)
Definition legacy_start_tracking (eye_tracker : option EyeTrackingService)
  (request : TrackingStartRequest) : result json :=
  start_tracking eye_tracker request.

Definition legacy_stop_tracking (eye_tracker : option EyeTrackingService)
  : result json :=
  stop_tracking eye_tracker (Some (mkStop true)).

(** [get_tracking_metrics()], the handler of [GET /api/tracking/metrics]. *)
Definition get_tracking_metrics (eye_tracker : option EyeTrackingService)
  : result Conversion.pyobj :=
  internal_error
    match eye_tracker with
    | None => (Raise not_initialized, None, [])
    | Some tracker =>
        match get_detailed_metrics tracker with
        | (Raise e, tracker') => (Raise e, Some tracker', [GetDetailedMetrics])
        | (Return metrics, tracker') =>
            (Return (Conversion.PyDict
                       [(Conversion.PyStr "success", Conversion.PyBool true);
                        (Conversion.PyStr "metrics",
                         Conversion.convert_numpy_types metrics);
                        (Conversion.PyStr "timestamp", Conversion.PyStr utcnow)]),
             Some tracker', [GetDetailedMetrics])
        end
    end.

(** [get_current_frame()], the handler of [GET /api/frame]. *)
Definition get_current_frame (eye_tracker : option EyeTrackingService)
  : result json :=
  internal_error
    match eye_tracker with
    | None => (Raise not_initialized, None, [])
    | Some tracker =>
        match get_current_frame_base64 tracker with
        | (Raise e, tracker') => (Raise e, Some tracker', [GetCurrentFrame])
        | (Return frame_data, tracker') =>
            (Return (JDict [("success", JBool true);
                            ("hasFrame",
                             JBool match frame_data with
                                   | Some _ => true
                                   | None => false
                                   end);
                            ("frameData",
                             JStr match frame_data with
                                  | Some data => data
                                  | None => ""
                                  end);
                            ("timestamp", JStr utcnow)]),
             Some tracker', [GetCurrentFrame])
        end
    end.

(** [status['current_frame'] = frame_data] on the items of a dict. *)
Fixpoint setitem (key value : Conversion.pyobj)
  (items : list (Conversion.pyobj * Conversion.pyobj))
  : list (Conversion.pyobj * Conversion.pyobj) :=
  match items with
  | [] => [(key, value)]
  | (k, v) :: rest =>
      match k, key with
      | Conversion.PyStr a, Conversion.PyStr b =>
          if String.eqb a b then (k, value) :: rest
          else (k, v) :: setitem key value rest
      | _, _ => (k, v) :: setitem key value rest
      end
  end.

Definition failure (error : string) : Conversion.pyobj :=
  Conversion.PyDict [(Conversion.PyStr "success", Conversion.PyBool false);
                     (Conversion.PyStr "error", Conversion.PyStr error)].

(** The response of [legacy_get_status] with a status. *)
Definition success (status : list (Conversion.pyobj * Conversion.pyobj))
  : Conversion.pyobj :=
  Conversion.PyDict
    [(Conversion.PyStr "success", Conversion.PyBool true);
     (Conversion.PyStr "status",
      Conversion.convert_numpy_types (Conversion.PyDict status))].

(** The [try] block of [legacy_get_status] with a tracker.  [if
    frame_data:] holds for a string that is not empty; the assignment
    writes into the dict that [get_status] returned. *)
Definition legacy_get_status_body (tracker : EyeTrackingService)
  : result Conversion.pyobj :=
  match get_status tracker with
  | (Raise e, tracker) => (Raise e, Some tracker, [GetStatus])
  | (Return status, tracker) =>
      match get_current_frame_base64 tracker with
      | (Raise e, tracker) =>
          (Raise e, Some tracker, [GetStatus; GetCurrentFrame])
      | (Return (Some (String c data)), tracker) =>
          (Return (success (setitem (Conversion.PyStr "current_frame")
                              (Conversion.PyStr (String c data)) status)),
           Some tracker,
           [GetStatus; GetCurrentFrame; SetCurrentFrame (String c data)])
      | (Return _, tracker) =>
          (Return (success status), Some tracker, [GetStatus; GetCurrentFrame])
      end
  end.

(** [legacy_get_status()], the handler of [GET /api/status]: an
    [Exception] is answered, not raised. *)
Definition legacy_get_status (eye_tracker : option EyeTrackingService)
  : result Conversion.pyobj :=
  match eye_tracker with
  | None => (Return (failure "Service not initialized"), None, [])
  | Some tracker =>
      match legacy_get_status_body tracker with
      | (Raise e, tracker, calls) =>
          if is_Exception e
          then (Return (failure (str e)), tracker, calls)
          else (Raise e, tracker, calls)
      | returned => returned
      end
  end.

(** [countdown_remaining] of [get_tracking_status] and of the status that
    [broadcast_websocket_updates] sends: [max(0, countdown_duration -
    (time.time() - countdown_start_time)) if countdown_start_time else
    0]. *)
Definition countdown_remaining (countdown_start_time : option Q)
  (countdown_duration now : Q) : Q :=
  match countdown_start_time with
  | None => 0
  | Some start =>
      if Qeq_bool start 0 then 0
      else Qmax 0 (countdown_duration - (now - start))
  end.

(** The outcome, the tracker left and the calls of a result. *)
Definition outcome_of {A : Type} (r : result A) : outcome A := fst (fst r).
Definition tracker_of {A : Type} (r : result A) : option EyeTrackingService :=
  snd (fst r).
Definition calls_of {A : Type} (r : result A) : list call := snd r.

(** *** Errors *)

Lemma internal_error_raises (A : Type) (body : result A) e :
  outcome_of (internal_error body) = Raise e ->
  is_Exception e = true ->
  exists e0, outcome_of body = Raise e0 /\ e = HTTPException 500 (str e0).
Proof.
  destruct body as [[[a|e0] tracker] calls]; cbn; [discriminate|].
  destruct (is_Exception e0) eqn:He0; cbn.
  - intros H _. injection H as <-. now exists e0.
  - intros H He. injection H as <-. congruence.
Qed.

Lemma internal_error_uninitialized (A : Type) calls :
  @internal_error A (Raise not_initialized, None, calls)
  = (Raise (HTTPException 500 (str not_initialized)), None, calls).
Proof. reflexivity. Qed.

(** X20.  The four guarded endpoints ([start_tracking], [stop_tracking],
    [get_tracking_metrics], [get_current_frame]) answer every
    [Exception] with status 500, their own 503 included: without a
    tracker each of them raises, and what any of them raises, when it is
    an [Exception], is an [HTTPException] with status 500 ---the client
    never sees the 503 of an uninitialised tracker; the detail of the 500
    is [str] of that 503, whatever Starlette makes of it. *)
Theorem guarded_endpoints_answer_500
  (eye_tracker : option EyeTrackingService)
  (request : TrackingStartRequest) (stop : option TrackingStopRequest)
  (e : exn) :
  outcome_of (start_tracking eye_tracker request) = Raise e \/
  outcome_of (stop_tracking eye_tracker stop) = Raise e \/
  outcome_of (get_tracking_metrics eye_tracker) = Raise e \/
  outcome_of (get_current_frame eye_tracker) = Raise e ->
  is_Exception e = true ->
  (exists detail, e = HTTPException 500 detail) /\
  (eye_tracker = None ->
   e = HTTPException 500 (str not_initialized) /\
   start_tracking None request = (Raise e, None, []) /\
   stop_tracking None stop = (Raise e, None, []) /\
   get_tracking_metrics None = (Raise e, None, []) /\
   get_current_frame None = (Raise e, None, [])).
Proof.
  intros Hraise He.
  assert (Hsome : exists e0,
             e = HTTPException 500 (str e0) /\
             (eye_tracker = None -> e0 = not_initialized)).
  { destruct Hraise as [H|[H|[H|H]]];
      apply internal_error_raises in H; try exact He;
      destruct H as (e0 & H0 & ->); exists e0; (split; [reflexivity|]);
      intros ->; cbn in H0; now injection H0 as <-. }
  destruct Hsome as (e0 & -> & Hnone).
  split; [now eexists|].
  intro Hg. rewrite (Hnone Hg). repeat split.
Qed.

(** *** Starting during a session *)

Lemma equals_true current requested :
  equals current requested = true <-> current = Some requested.
Proof.
  unfold equals. destruct current as [s|].
  - rewrite String.eqb_eq. split; [now intros -> | now intros [= ->]].
  - split; discriminate.
Qed.

(** X21.  A start request that arrives while the tracker is tracking
    never calls the engine and is answered [already_tracking].  When its
    user and module are those of the session nothing changes, the
    section of the request is ignored; otherwise the ids of the running
    session are overwritten with those of the request. *)
Theorem start_during_session (tracker : EyeTrackingService)
  (request : TrackingStartRequest) :
  is_tracking tracker = true ->
  calls_of (start_tracking (Some tracker) request) = [] /\
  (exists message,
     outcome_of (start_tracking (Some tracker) request)
     = Return (JDict [("status", JStr "already_tracking");
                      ("message", JStr message);
                      ("user_id", JStr (user_id request));
                      ("module_id", JStr (module_id request))])) /\
  exists tracker',
    tracker_of (start_tracking (Some tracker) request) = Some tracker' /\
    is_tracking tracker' = true /\
    auto_start_loop tracker' = auto_start_loop tracker /\
    (current_user_id tracker = Some (user_id request) ->
     current_module_id tracker = Some (module_id request) ->
     tracker' = tracker) /\
    (current_user_id tracker <> Some (user_id request) \/
     current_module_id tracker <> Some (module_id request) ->
     current_user_id tracker' = Some (user_id request) /\
     current_module_id tracker' = Some (module_id request) /\
     current_section_id tracker' = section_id request).
Proof.
  intro Htracking.
  unfold start_tracking, start_tracking_body. rewrite Htracking.
  cbn [andb].
  destruct (equals (current_user_id tracker) (user_id request)) eqn:Hu;
    [destruct (equals (current_module_id tracker) (module_id request)) eqn:Hm|];
    cbn [andb negb is_tracking internal_error outcome_of tracker_of calls_of
         fst snd]; rewrite ?Htracking; cbn.
  - split; [reflexivity|]. split; [eexists; reflexivity|].
    exists tracker. split; [reflexivity|]. split; [exact Htracking|].
    split; [reflexivity|]. split.
    + intros _ _. reflexivity.
    + apply equals_true in Hu, Hm. intros [Hx|Hx]; congruence.
  - split; [reflexivity|]. split; [eexists; reflexivity|].
    eexists. split; [reflexivity|]. cbn. split; [reflexivity|].
    split; [reflexivity|]. split.
    + intros _ Hx. apply equals_true in Hx. congruence.
    + intros _. repeat split.
  - split; [reflexivity|]. split; [eexists; reflexivity|].
    eexists. split; [reflexivity|]. cbn. split; [reflexivity|].
    split; [reflexivity|]. split.
    + intros Hx _. apply equals_true in Hx. congruence.
    + intros _. repeat split.
Qed.

(** The trace of [receive_browser_frame] when the frame decodes and the
    ids are there: the decoding, then the call of the engine. *)
Lemma receive_dispatches (tracker : FastApi.EyeTrackingService) now payload
  frame uid mid :
  fst (FastApi.decode b64decode imdecode payload) = Return frame ->
  or_else (FastApi.user_id payload) (FastApi.current_user_id tracker)
  = Some uid -> uid <> "" ->
  or_else (FastApi.module_id payload) (FastApi.current_module_id tracker)
  = Some mid -> mid <> "" ->
  snd (FastApi.receive_browser_frame (Some tracker) b64decode imdecode
         process_remote_frame now payload)
  = (snd (FastApi.decode b64decode imdecode payload)
     ++ [Dispatch frame uid mid
           (or_else (FastApi.section_id payload)
                    (FastApi.current_section_id tracker))])%list.
Proof.
  intros Hdec Hu Hune Hm Hmne.
  unfold FastApi.receive_browser_frame, FastApi.receive_body.
  destruct (FastApi.decode b64decode imdecode payload) as [r tr].
  cbn [fst snd] in Hdec |- *. subst r.
  cbn [except_Exception bind]. rewrite Hu, Hm.
  assert (Htu : truthy (Some uid) = true) by (destruct uid; [now destruct Hune|reflexivity]).
  assert (Htm : truthy (Some mid) = true) by (destruct mid; [now destruct Hmne|reflexivity]).
  rewrite Htu, Htm. cbn [negb orb].
  match goal with
  | |- context [process_remote_frame ?i ?u ?m ?s] =>
      destruct (process_remote_frame i u m s) as [[status frame_data]|e]
  end.
  - cbn. now rewrite ?app_nil_r.
  - cbn. destruct (is_Exception e); cbn;
      [destruct (is_HTTPException e); cbn|]; now rewrite ?app_nil_r.
Qed.

(** X22.  [start_tracking] and [receive_browser_frame] share the ids of
    the tracker.  After a start request for another user or module has
    been answered [already_tracking] during a session, a frame that names
    neither user nor module and decodes is handed to the engine under the
    user and module of that request. *)
Theorem frames_follow_last_start_request (tracker : EyeTrackingService)
  (request : TrackingStartRequest) (now : Q) (payload : FastApi.FramePayload)
  (frame : ndarray) :
  is_tracking tracker = true ->
  current_user_id tracker <> Some (user_id request) \/
  current_module_id tracker <> Some (module_id request) ->
  user_id request <> "" ->
  module_id request <> "" ->
  FastApi.user_id payload = None ->
  FastApi.module_id payload = None ->
  fst (FastApi.decode b64decode imdecode payload) = Return frame ->
  exists tracker',
    start_tracking (Some tracker) request
    = (Return (JDict [("status", JStr "already_tracking");
                      ("message", JStr "Eye tracking is already active");
                      ("user_id", JStr (user_id request));
                      ("module_id", JStr (module_id request))]),
       Some tracker', []) /\
    snd (FastApi.receive_browser_frame (Some (attributes tracker')) b64decode
           imdecode process_remote_frame now payload)
    = (snd (FastApi.decode b64decode imdecode payload)
       ++ [Dispatch frame (user_id request) (module_id request)
             (or_else (FastApi.section_id payload) (section_id request))])%list.
Proof.
  intros Htracking Hother Hune Hmne Hpu Hpm Hdec.
  eexists. split.
  - unfold start_tracking, start_tracking_body. rewrite Htracking.
    replace (true && equals (current_user_id tracker) (user_id request)
             && equals (current_module_id tracker) (module_id request))
      with false.
    2:{ cbn [andb]. symmetry. apply andb_false_iff.
        destruct Hother as [H|H]; [left|right];
          (destruct (equals _ _) eqn:He; [|reflexivity]);
          apply equals_true in He; now destruct H. }
    reflexivity.
  - rewrite (@receive_dispatches _ now payload frame (user_id request)
               (module_id request)); try assumption.
    + reflexivity.
    + now rewrite Hpu.
    + now rewrite Hpm.
Qed.

(** *** The legacy status *)

Lemma setitem_In (key : string) value items :
  In (Conversion.PyStr key, value) (setitem (Conversion.PyStr key) value items).
Proof.
  induction items as [|[k v] rest IH]; cbn; [now left|].
  destruct k; try (right; exact IH).
  destruct (String.eqb s key) eqn:Hs; [|right; exact IH].
  apply String.eqb_eq in Hs. subst s. now left.
Qed.

(** X23.  [legacy_get_status] answers where the other endpoints raise:
    it raises no [Exception].  Without a tracker it returns [success]
    false and calls nothing.  When [get_status] raises an [Exception] it
    returns [success] false with the text of the exception and does not
    ask for the frame; when [get_current_frame_base64] raises one it
    returns [success] false likewise.  When the engine returns its status
    and a frame that is not empty, the handler writes the frame into the
    dict the engine returned, under [current_frame], and the answer has
    [success] true with a status that holds the frame.  In each case the
    tracker is left as the calls of the engine left it. *)
Theorem legacy_status_answers_errors (eye_tracker : option EyeTrackingService) :
  (forall e, outcome_of (legacy_get_status eye_tracker) = Raise e ->
             is_Exception e = false) /\
  (eye_tracker = None ->
   legacy_get_status eye_tracker
   = (Return (failure "Service not initialized"), None, [])) /\
  (forall tracker e tracker',
     eye_tracker = Some tracker ->
     is_Exception e = true ->
     get_status tracker = (Raise e, tracker') ->
     legacy_get_status eye_tracker
     = (Return (failure (str e)), Some tracker', [GetStatus])) /\
  (forall tracker status e tracker' tracker'',
     eye_tracker = Some tracker ->
     is_Exception e = true ->
     get_status tracker = (Return status, tracker') ->
     get_current_frame_base64 tracker' = (Raise e, tracker'') ->
     legacy_get_status eye_tracker
     = (Return (failure (str e)), Some tracker'',
        [GetStatus; GetCurrentFrame])) /\
  (forall tracker status c data tracker' tracker'',
     eye_tracker = Some tracker ->
     get_status tracker = (Return status, tracker') ->
     get_current_frame_base64 tracker'
     = (Return (Some (String c data)), tracker'') ->
     exists status',
       legacy_get_status eye_tracker
       = (Return (Conversion.PyDict
                    [(Conversion.PyStr "success", Conversion.PyBool true);
                     (Conversion.PyStr "status", Conversion.PyDict status')]),
          Some tracker'',
          [GetStatus; GetCurrentFrame; SetCurrentFrame (String c data)]) /\
       In (Conversion.PyStr "current_frame", Conversion.PyStr (String c data))
          status').
Proof.
  unfold legacy_get_status, legacy_get_status_body, outcome_of.
  split; [|split; [|split; [|split]]].
  - intros e. destruct eye_tracker as [tracker|]; [|discriminate].
    destruct (get_status tracker) as [[status|e0] tracker'].
    + destruct (get_current_frame_base64 tracker')
        as [[[[|c data]|]|e0] tracker'']; try discriminate.
      destruct (is_Exception e0) eqn:He0; cbn; [discriminate|].
      intro H. injection H as <-. exact He0.
    + destruct (is_Exception e0) eqn:He0; cbn; [discriminate|].
      intro H. injection H as <-. exact He0.
  - intros ->. reflexivity.
  - intros tracker e tracker' -> He H. rewrite H, He. reflexivity.
  - intros tracker status e tracker' tracker'' -> He Hs H.
    rewrite Hs, H, He. reflexivity.
  - intros tracker status c data tracker' tracker'' -> Hs Hf. rewrite Hs, Hf.
    eexists. split; [reflexivity|].
    apply (in_map (fun '(k, v) => (k, Conversion.convert_numpy_types v))
                  _ (Conversion.PyStr "current_frame",
                     Conversion.PyStr (String c data))).
    apply setitem_In.
Qed.

End Endpoints.

(** *** A session of user [u1] *)

(** An engine whose [start_tracking] and [stop_tracking] succeed. *)
Definition engine_start_ok (tracker : EyeTrackingService)
  (user_id module_id : string) (section_id : option string)
  : outcome unit * EyeTrackingService :=
  (Return tt,
   {| is_tracking := true;
      auto_start_loop := auto_start_loop tracker;
      current_user_id := current_user_id tracker;
      current_module_id := current_module_id tracker;
      current_section_id := current_section_id tracker |}).

Definition engine_stop_ok (tracker : EyeTrackingService) (save_data : bool)
  : outcome unit * EyeTrackingService :=
  (Return tt,
   {| is_tracking := false;
      auto_start_loop := auto_start_loop tracker;
      current_user_id := current_user_id tracker;
      current_module_id := current_module_id tracker;
      current_section_id := current_section_id tracker |}).

Definition metrics_ok (tracker : EyeTrackingService)
  : outcome Conversion.pyobj * EyeTrackingService :=
  (Return Conversion.raw_metrics, tracker).

Definition no_frame (tracker : EyeTrackingService)
  : outcome (option string) * EyeTrackingService :=
  (Return None, tracker).

(** [str(e)] of an [HTTPException] in the Starlette releases that define
    [__str__]: the status, a colon and the detail. *)
Definition starlette_str (status_code : Z) (detail : string) : string :=
  NilZero.string_of_int (Z.to_int status_code) ++ ": " ++ detail.

(** The tracker during a session of user [u1] in module [m1]. *)
Definition session_u1 : EyeTrackingService :=
  {| is_tracking := true;
     auto_start_loop := true;
     current_user_id := Some "u1";
     current_module_id := Some "m1";
     current_section_id := None |}.

(** A start request of user [u2] for the same module. *)
Definition request_u2 : TrackingStartRequest :=
  {| user_id := "u2"; module_id := "m1"; section_id := Some "s1" |}.

(** X20 without a tracker. *)
Lemma guarded_endpoints_answer_500_witness :
  start_tracking starlette_str engine_start_ok None request_u2
  = (Raise (HTTPException 500 "503: Eye tracking service not initialized"),
     None, [])
  /\
  stop_tracking starlette_str engine_stop_ok None None
  = (Raise (HTTPException 500 "503: Eye tracking service not initialized"),
     None, []).
Proof.
  destruct (@guarded_endpoints_answer_500 starlette_str engine_start_ok
              engine_stop_ok metrics_ok no_frame "2026-01-01T00:00:00" None
              request_u2 None
              (HTTPException 500 "503: Eye tracking service not initialized")
              (or_introl eq_refl) eq_refl)
    as [_ Hnone].
  destruct (Hnone eq_refl) as (_ & Hstart & Hstop & _).
  split; [exact Hstart | exact Hstop].
Defined.

(** X21 on the session of [u1] and the request of [u2]. *)
Lemma start_during_session_witness :
  calls_of (start_tracking starlette_str engine_start_ok (Some session_u1) request_u2) = [] /\
  exists tracker',
    tracker_of (start_tracking starlette_str engine_start_ok (Some session_u1) request_u2)
    = Some tracker' /\
    current_user_id tracker' = Some "u2".
Proof.
  destruct (@start_during_session starlette_str engine_start_ok session_u1
              request_u2 eq_refl)
    as (Hcalls & _ & tracker' & Htracker & _ & _ & _ & Hother).
  split; [exact Hcalls|].
  exists tracker'. split; [exact Htracker|].
  apply Hother. left. discriminate.
Defined.

(** X22 on the same session: the frame without ids goes to the engine as
    a frame of [u2]. *)
Lemma frames_follow_last_start_request_witness :
  exists tracker',
    tracker_of (start_tracking starlette_str engine_start_ok (Some session_u1) request_u2)
    = Some tracker' /\
    In (Dispatch (mkArray 1 3 (Gateway.zeros 4)) "u2" "m1" (Some "s1"))
       (snd (FastApi.receive_browser_frame (Some (attributes tracker'))
               Gateway.b64decode_As Gateway.imdecode_row Gateway.engine_idle
               0%Q Gateway.bare_frame)).
Proof.
  destruct (@frames_follow_last_start_request starlette_str engine_start_ok
              Gateway.b64decode_As Gateway.imdecode_row Gateway.engine_idle
              session_u1 request_u2 0%Q Gateway.bare_frame
              (mkArray 1 3 (Gateway.zeros 4)))
    as (tracker' & Hstart & Htrace).
  - reflexivity.
  - left. discriminate.
  - discriminate.
  - discriminate.
  - reflexivity.
  - reflexivity.
  - reflexivity.
  - exists tracker'. split.
    + now rewrite Hstart.
    + rewrite Htrace. apply in_or_app. right. now left.
Defined.

(** *** The countdown *)

(** X24.  The remaining countdown, as [get_tracking_status] and the
    status of [broadcast_websocket_updates] compute it, is never
    negative, is 0 when no start time is set, does not exceed the
    duration once the clock has reached the start time, and does not
    grow when the clock advances. *)
Theorem countdown_remaining_bounds (countdown_start_time : option Q)
  (countdown_duration now : Q) :
  0 <= countdown_remaining countdown_start_time countdown_duration now /\
  countdown_remaining None countdown_duration now == 0 /\
  (forall start, countdown_start_time = Some start -> start <= now ->
                 0 <= countdown_duration ->
                 countdown_remaining countdown_start_time countdown_duration now
                 <= countdown_duration) /\
  (forall later, now <= later ->
                 countdown_remaining countdown_start_time countdown_duration later
                 <= countdown_remaining countdown_start_time countdown_duration
                      now).
Proof.
  unfold countdown_remaining.
  split; [|split; [reflexivity|split]].
  - destruct countdown_start_time as [start|]; [|lra].
    destruct (Qeq_bool start 0); [lra|]. apply Q.le_max_l.
  - intros start -> Hstart Hduration.
    destruct (Qeq_bool start 0); [exact Hduration|].
    apply Q.max_lub; [exact Hduration | lra].
  - intros later Hlater.
    destruct countdown_start_time as [start|]; [|lra].
    destruct (Qeq_bool start 0); [lra|].
    apply Q.max_lub; [apply Q.le_max_l|].
    eapply Qle_trans; [|apply Q.le_max_r]. lra.
Qed.

End Control.
